(** * orchestrar: the milestone orchestrator, embedded and verified

    A shallow embedding of [src/orchestrator.js]: the review-output parser,
    the checklist predicate, the configuration helpers, the session client
    adapter, the status poller, the review command and the review
    convergence loop, followed by the theorems about them.

    Conventions of the embedding.
    - A JavaScript string is its sequence of UTF-16 code units, [list N].
    - A JavaScript value is a tree ([value]); numbers stay abstract (the
      class [Numbers]), since no function of the program computes with a
      floating point number read from the provider.
    - Millisecond counts and iteration counts are integers ([Z]).
    - [throw] and [try] are an outcome type; a [while] loop whose
      termination the source does not establish takes fuel and answers
      [Diverge] when the fuel runs out.
    - The session provider, the clock, the file system and the process
      environment are a capability interface (the class [World]): functions
      of the history of the requests made so far. *)

From Stdlib Require Import Ascii String.
From Stdlib Require Import List NArith ZArith Bool Lia.
Import ListNotations.

Set Implicit Arguments.
Set Warnings "-register-all".

(* ================================================================== *)
(** * Part I. Definitions                                              *)
(* ================================================================== *)

(** ** Strings *)

Definition code_unit := N.
Definition jsstring := list code_unit.

(** A string literal of the source, as code units. *)
Definition js (s : string) : jsstring := map N_of_ascii (list_ascii_of_string s).

(** A literal in which the apostrophe stands for the double quote (code
    unit 34), used to write JSON texts. *)
Definition jq (s : string) : jsstring :=
  map (fun c => if N.eqb c 39 then 34%N else c) (js s).

Fixpoint jsstring_eqb (a b : jsstring) : bool :=
  match a, b with
  | [], [] => true
  | x :: a', y :: b' => N.eqb x y && jsstring_eqb a' b'
  | _, _ => false
  end.

(** WhiteSpace and LineTerminator of ECMAScript: what [String.prototype.trim]
    strips and what [\s] matches in a regular expression. *)
Definition is_js_space (c : code_unit) : bool :=
  ((9 <=? c) && (c <=? 13) || (c =? 32) || (c =? 160) || (c =? 5760)
   || ((8192 <=? c) && (c <=? 8202)) || (c =? 8232) || (c =? 8233)
   || (c =? 8239) || (c =? 8287) || (c =? 12288) || (c =? 65279))%N.

(** LineTerminator: LF, CR, LS, PS. *)
Definition is_line_terminator (c : code_unit) : bool :=
  ((c =? 10) || (c =? 13) || (c =? 8232) || (c =? 8233))%N.

Fixpoint trimStart (s : jsstring) : jsstring :=
  match s with
  | c :: s' => if is_js_space c then trimStart s' else s
  | [] => []
  end.

Definition trimEnd (s : jsstring) : jsstring := rev (trimStart (rev s)).

(** [s.trim()] *)
Definition trim (s : jsstring) : jsstring := trimEnd (trimStart s).

(** [!s] for a string [s]: only the empty string is falsy. *)
Definition str_falsy (s : jsstring) : bool :=
  match s with [] => true | _ => false end.

(** [s.slice(start)] and [s.slice(start, end)]: a negative index counts
    from the end, and both are clamped to the string. *)
Definition slice_index (len i : Z) : Z :=
  if (i <? 0)%Z then Z.max (len + i) 0 else Z.min i len.

Definition slice (s : jsstring) (start : Z) (stop : option Z) : jsstring :=
  let len := Z.of_nat (length s) in
  let from := slice_index len start in
  let to := match stop with Some e => slice_index len e | None => len end in
  firstn (Z.to_nat (to - from)) (skipn (Z.to_nat from) s).

(** [s.indexOf(c)] for a one-unit search string: the least index, or -1. *)
Fixpoint indexOf_from (c : code_unit) (s : jsstring) (i : Z) : Z :=
  match s with
  | [] => (-1)%Z
  | x :: s' => if N.eqb x c then i else indexOf_from c s' (i + 1)%Z
  end.

Definition indexOf (s : jsstring) (c : code_unit) : Z := indexOf_from c s 0%Z.

(** [s.lastIndexOf(c, position)] for a one-unit search string.  The
    position is clamped between 0 and [length - 1] (an absent position is
    +infinity), and the search runs from there down to index 0. *)
Fixpoint lastIndexOf_down (c : code_unit) (s : jsstring) (k : nat) : Z :=
  if N.eqb (nth k s 0%N) c then Z.of_nat k
  else match k with
       | O => (-1)%Z
       | S k' => lastIndexOf_down c s k'
       end.

Definition lastIndexOf (s : jsstring) (c : code_unit) (position : option Z) : Z :=
  match s with
  | [] => (-1)%Z
  | _ :: _ =>
      let top := (Z.of_nat (length s) - 1)%Z in
      let start := match position with
                   | None => top
                   | Some p => Z.max 0 (Z.min p top)
                   end in
      lastIndexOf_down c s (Z.to_nat start)
  end.

(** [parts.join(sep)] *)
Fixpoint join (sep : jsstring) (parts : list jsstring) : jsstring :=
  match parts with
  | [] => []
  | [p] => p
  | p :: rest => p ++ sep ++ join sep rest
  end.

(** The decimal text of an integer, as a template literal prints it. *)
Fixpoint digits_of_uint (d : Decimal.uint) : jsstring :=
  match d with
  | Decimal.Nil => []
  | Decimal.D0 d' => 48%N :: digits_of_uint d'
  | Decimal.D1 d' => 49%N :: digits_of_uint d'
  | Decimal.D2 d' => 50%N :: digits_of_uint d'
  | Decimal.D3 d' => 51%N :: digits_of_uint d'
  | Decimal.D4 d' => 52%N :: digits_of_uint d'
  | Decimal.D5 d' => 53%N :: digits_of_uint d'
  | Decimal.D6 d' => 54%N :: digits_of_uint d'
  | Decimal.D7 d' => 55%N :: digits_of_uint d'
  | Decimal.D8 d' => 56%N :: digits_of_uint d'
  | Decimal.D9 d' => 57%N :: digits_of_uint d'
  end.

Definition string_of_Z (z : Z) : jsstring :=
  match Z.to_int z with
  | Decimal.Pos d => digits_of_uint d
  | Decimal.Neg d => 45%N :: digits_of_uint d
  end.

(** ** Outcomes: return, throw, or never return *)

Inductive outcome (E A : Type) : Type :=
| Ret (a : A)
| Throw (e : E)
| Diverge.

Arguments Ret {E A} a.
Arguments Throw {E A} e.
Arguments Diverge {E A}.

(** The number type of the platform.  [number_of_lexeme] is the value
    [JSON.parse] gives a number literal; [number_falsy] holds for 0, -0
    and NaN. *)
Class Numbers : Type := {
  number : Type;
  number_of_lexeme : jsstring -> number;
  number_falsy : number -> bool
}.

Section Orchestrator.

Context {Num : Numbers}.

(** ** JavaScript values *)

(** The values the program handles: what [JSON.parse] builds, what the
    provider hands back (plain data, possibly inside a settled promise),
    and the [Error] instances the program throws and catches. *)
Inductive value : Type :=
| VUndefined
| VNull
| VBool (b : bool)
| VNum (n : number)
| VStr (s : jsstring)
| VArr (items : list value)
| VObj (props : list (jsstring * value))
| VError (message : jsstring)
| VPromise (rejected : bool) (settled : value).

(** [new Error(message)] *)
Definition Error (message : jsstring) : value := VError message.

(** What a function of the program may do: return, throw a value, or
    loop for ever. *)
Definition result := outcome value.

(** [typeof v] *)
Definition typeof (v : value) : jsstring :=
  match v with
  | VUndefined => js "undefined"
  | VNull => js "object"
  | VBool _ => js "boolean"
  | VNum _ => js "number"
  | VStr _ => js "string"
  | VArr _ | VObj _ | VError _ | VPromise _ _ => js "object"
  end.

(** ToBoolean: [undefined], [null], [false], 0, NaN and the empty string
    are falsy. *)
Definition truthy (v : value) : bool :=
  match v with
  | VUndefined | VNull => false
  | VBool b => b
  | VNum n => negb (number_falsy n)
  | VStr s => negb (str_falsy s)
  | VArr _ | VObj _ | VError _ | VPromise _ _ => true
  end.

Fixpoint lookup (k : jsstring) (props : list (jsstring * value)) : option value :=
  match props with
  | [] => None
  | (k', v) :: rest => if jsstring_eqb k' k then Some v else lookup k rest
  end.

(** [v.k] and [v[k]], for the keys the program reads: fixed field names,
    and a session id in the status map.  A plain object answers with its
    own property and an [Error] with its message; reading such a key off
    any other value gives [undefined].  (Indexed access into arrays and
    strings is not modelled: the program reads neither.) *)
Definition get (v : value) (k : jsstring) : value :=
  match v with
  | VObj props => match lookup k props with Some x => x | None => VUndefined end
  | VError m => if jsstring_eqb k (js "message") then VStr m else VUndefined
  | _ => VUndefined
  end.

(** [v?.k]: as [v.k]; on [undefined] and [null] it is [undefined] too. *)
Definition get_opt (v : value) (k : jsstring) : value := get v k.

(** [k in v], asked by the program for the keys [data] and [findings]
    only, which no built-in prototype has: it holds exactly when a plain
    object has the key among its own properties. *)
Definition has_property (k : jsstring) (v : value) : bool :=
  match v with
  | VObj props => match lookup k props with Some _ => true | None => false end
  | _ => false
  end.

(** The objects of the language: arrays, plain objects, errors and
    promises; [null] and the primitive values are not. *)
Definition is_object (v : value) : bool :=
  match v with
  | VArr _ | VObj _ | VError _ | VPromise _ _ => true
  | _ => false
  end.

(** [Array.isArray(v)] *)
Definition isArray (v : value) : bool :=
  match v with VArr _ => true | _ => false end.

(** [Object.keys(v)] for the status map: the own keys of a plain
    object, in order. *)
Definition Object_keys (v : value) : list jsstring :=
  match v with
  | VObj props => map fst props
  | _ => []
  end.

(** Defining a property: an existing key keeps its place and takes the
    new value, a new key goes last. *)
Fixpoint obj_set (props : list (jsstring * value)) (k : jsstring) (v : value)
  : list (jsstring * value) :=
  match props with
  | [] => [(k, v)]
  | (k', v') :: rest =>
      if jsstring_eqb k' k then (k', v) :: rest else (k', v') :: obj_set rest k v
  end.

(** ** JSON.parse

    [JSON.parse] is a built-in of the platform, not code of the
    repository; the model follows the JSON grammar (ECMA-404), in two
    stages.  The lexer is a state machine that reads
    one code unit at a time; the parser is a pushdown machine that reads
    one token at a time.  A syntax error is [None]. *)

Inductive literal := LitTrue | LitFalse | LitNull.

Inductive token : Type :=
| TLBrace | TRBrace | TLBracket | TRBracket | TColon | TComma
| TString (s : jsstring)
| TNumber (lexeme : jsstring)
| TLiteral (l : literal).

(** The four white space characters of JSON. *)
Definition is_json_ws (c : code_unit) : bool :=
  ((c =? 9) || (c =? 10) || (c =? 13) || (c =? 32))%N.

Definition is_digit (c : code_unit) : bool := ((48 <=? c) && (c <=? 57))%N.

(** The code units a number literal is made of: digits, sign, point and
    exponent mark. *)
Definition is_number_char (c : code_unit) : bool :=
  (is_digit c || (c =? 45) || (c =? 43) || (c =? 46) || (c =? 101) || (c =? 69))%N.

Definition is_lower (c : code_unit) : bool := ((97 <=? c) && (c <=? 122))%N.

Definition hex_value (c : code_unit) : option N :=
  (if is_digit c then Some (c - 48)
   else if (97 <=? c) && (c <=? 102) then Some (c - 87)
   else if (65 <=? c) && (c <=? 70) then Some (c - 55)
   else None)%N.

(** The number grammar: an optional minus; then 0, or a digit from 1 to 9
    and any digits; then optionally a point and one or more digits; then
    optionally e or E, an optional sign and one or more digits. *)
Fixpoint skip_digits (s : jsstring) : jsstring :=
  match s with
  | c :: s' => if is_digit c then skip_digits s' else s
  | [] => []
  end.

Definition number_exponent (s : jsstring) : bool :=
  match s with
  | [] => true
  | c :: s' =>
      if (c =? 101)%N || (c =? 69)%N then
        let s'' := match s' with
                   | d :: t => if (d =? 43)%N || (d =? 45)%N then t else s'
                   | [] => s'
                   end in
        match s'' with
        | d :: t => is_digit d && str_falsy (skip_digits t)
        | [] => false
        end
      else false
  end.

Definition number_fraction (s : jsstring) : bool :=
  match s with
  | c :: d :: t =>
      if (c =? 46)%N then is_digit d && number_exponent (skip_digits t)
      else number_exponent s
  | _ => number_exponent s
  end.

Definition number_integer (s : jsstring) : bool :=
  match s with
  | c :: s' =>
      if (c =? 48)%N then number_fraction s'
      else is_digit c && number_fraction (skip_digits s')
  | [] => false
  end.

Definition valid_number (s : jsstring) : bool :=
  match s with
  | c :: s' => if (c =? 45)%N then number_integer s' else number_integer s
  | [] => false
  end.

Definition literal_of_word (w : jsstring) : option literal :=
  if jsstring_eqb w (js "true") then Some LitTrue
  else if jsstring_eqb w (js "false") then Some LitFalse
  else if jsstring_eqb w (js "null") then Some LitNull
  else None.

(** Lexer states.  Accumulators hold the code units read so far, last
    one first. *)
Inductive lstate : Type :=
| LDefault
| LString (acc : jsstring)
| LEscape (acc : jsstring)
| LUnicode (acc : jsstring) (digits : list N)
| LNumber (acc : jsstring)
| LWord (acc : jsstring).

(** The token a state owes when its input stops or a delimiter comes. *)
Definition lex_flush (q : lstate) : option (list token) :=
  match q with
  | LDefault => Some []
  | LNumber acc =>
      if valid_number (rev acc) then Some [TNumber (rev acc)] else None
  | LWord acc =>
      match literal_of_word (rev acc) with
      | Some l => Some [TLiteral l]
      | None => None
      end
  | LString _ | LEscape _ | LUnicode _ _ => None
  end.

(** A code unit read between tokens. *)
Definition lex_default (c : code_unit) : option (lstate * list token) :=
  if is_json_ws c then Some (LDefault, [])
  else if (c =? 123)%N then Some (LDefault, [TLBrace])
  else if (c =? 125)%N then Some (LDefault, [TRBrace])
  else if (c =? 91)%N then Some (LDefault, [TLBracket])
  else if (c =? 93)%N then Some (LDefault, [TRBracket])
  else if (c =? 58)%N then Some (LDefault, [TColon])
  else if (c =? 44)%N then Some (LDefault, [TComma])
  else if (c =? 34)%N then Some (LString [], [])
  else if is_digit c || (c =? 45)%N then Some (LNumber [c], [])
  else if is_lower c then Some (LWord [c], [])
  else None.

Definition after_flush (q : lstate) (c : code_unit) : option (lstate * list token) :=
  match lex_flush q, lex_default c with
  | Some out, Some (q', out') => Some (q', out ++ out')
  | _, _ => None
  end.

Definition lex_step (q : lstate) (c : code_unit) : option (lstate * list token) :=
  match q with
  | LDefault => lex_default c
  | LString acc =>
      if (c =? 34)%N then Some (LDefault, [TString (rev acc)])
      else if (c =? 92)%N then Some (LEscape acc, [])
      else if (c <? 32)%N then None
      else Some (LString (c :: acc), [])
  | LEscape acc =>
      if (c =? 34)%N || (c =? 92)%N || (c =? 47)%N then Some (LString (c :: acc), [])
      else if (c =? 98)%N then Some (LString (8%N :: acc), [])
      else if (c =? 102)%N then Some (LString (12%N :: acc), [])
      else if (c =? 110)%N then Some (LString (10%N :: acc), [])
      else if (c =? 114)%N then Some (LString (13%N :: acc), [])
      else if (c =? 116)%N then Some (LString (9%N :: acc), [])
      else if (c =? 117)%N then Some (LUnicode acc [], [])
      else None
  | LUnicode acc ds =>
      match hex_value c with
      | Some d =>
          match ds with
          | [d1; d2; d3] =>
              Some (LString ((d1 * 4096 + d2 * 256 + d3 * 16 + d)%N :: acc), [])
          | _ => Some (LUnicode acc (ds ++ [d]), [])
          end
      | None => None
      end
  | LNumber acc =>
      if is_number_char c then Some (LNumber (c :: acc), []) else after_flush q c
  | LWord acc =>
      if is_lower c then Some (LWord (c :: acc), []) else after_flush q c
  end.

Fixpoint lex_run (q : lstate) (s : jsstring) : option (list token) :=
  match s with
  | [] => lex_flush q
  | c :: s' =>
      match lex_step q c with
      | Some (q', out) =>
          match lex_run q' s' with
          | Some rest => Some (out ++ rest)
          | None => None
          end
      | None => None
      end
  end.

Definition lex (s : jsstring) : option (list token) := lex_run LDefault s.

(** The parser.  A frame is an enclosing array or object under
    construction, waiting for the value being read. *)
Inductive frame : Type :=
| FArr (done : list value)
| FObj (props : list (jsstring * value)) (key : jsstring).

Inductive pstate : Type :=
| PValue (stack : list frame)
| PArrOpen (stack : list frame)
| PArrNext (done : list value) (stack : list frame)
| PObjOpen (stack : list frame)
| PObjKey (props : list (jsstring * value)) (stack : list frame)
| PObjColon (props : list (jsstring * value)) (key : jsstring) (stack : list frame)
| PObjNext (props : list (jsstring * value)) (stack : list frame)
| PDone (v : value).

Definition value_of_literal (l : literal) : value :=
  match l with
  | LitTrue => VBool true
  | LitFalse => VBool false
  | LitNull => VNull
  end.

(** A value is complete: hand it to the innermost frame. *)
Definition complete (v : value) (stack : list frame) : pstate :=
  match stack with
  | [] => PDone v
  | FArr done :: stack' => PArrNext (v :: done) stack'
  | FObj props key :: stack' => PObjNext (obj_set props key v) stack'
  end.

(** A token where a value must start. *)
Definition begin_value (t : token) (stack : list frame) : option pstate :=
  match t with
  | TLBrace => Some (PObjOpen stack)
  | TLBracket => Some (PArrOpen stack)
  | TString s => Some (complete (VStr s) stack)
  | TNumber l => Some (complete (VNum (number_of_lexeme l)) stack)
  | TLiteral l => Some (complete (value_of_literal l) stack)
  | TRBrace | TRBracket | TColon | TComma => None
  end.

Definition parse_step (q : pstate) (t : token) : option pstate :=
  match q with
  | PValue stack => begin_value t stack
  | PArrOpen stack =>
      match t with
      | TRBracket => Some (complete (VArr []) stack)
      | _ => begin_value t (FArr [] :: stack)
      end
  | PArrNext done stack =>
      match t with
      | TComma => Some (PValue (FArr done :: stack))
      | TRBracket => Some (complete (VArr (rev done)) stack)
      | _ => None
      end
  | PObjOpen stack =>
      match t with
      | TRBrace => Some (complete (VObj []) stack)
      | TString k => Some (PObjColon [] k stack)
      | _ => None
      end
  | PObjKey props stack =>
      match t with
      | TString k => Some (PObjColon props k stack)
      | _ => None
      end
  | PObjColon props k stack =>
      match t with
      | TColon => Some (PValue (FObj props k :: stack))
      | _ => None
      end
  | PObjNext props stack =>
      match t with
      | TComma => Some (PObjKey props stack)
      | TRBrace => Some (complete (VObj props) stack)
      | _ => None
      end
  | PDone _ => None
  end.

Fixpoint parse_run (q : pstate) (ts : list token) : option pstate :=
  match ts with
  | [] => Some q
  | t :: ts' =>
      match parse_step q t with
      | Some q' => parse_run q' ts'
      | None => None
      end
  end.

(** [JSON.parse(text)]; [None] is a [SyntaxError]. *)
Definition JSON_parse (text : jsstring) : option value :=
  match lex text with
  | Some ts =>
      match parse_run (PValue []) ts with
      | Some (PDone v) => Some v
      | _ => None
      end
  | None => None
  end.

(** ** Formatting built-ins

    [JSON.stringify] (with its indentation argument, if any; [None] is the
    answer [undefined]) and [String] are built-ins of the platform whose
    output no result below depends on. *)
Class Runtime : Type := {
  JSON_stringify : option nat -> value -> option jsstring;
  String_of : value -> jsstring
}.

Context {RT : Runtime}.

(** [v === "literal"] *)
Definition strict_eq_str (v : value) (s : jsstring) : bool :=
  match v with
  | VStr x => jsstring_eqb x s
  | _ => false
  end.

Definition is_typeof (v : value) (t : string) : bool :=
  jsstring_eqb (typeof v) (js t).

(** [v.length] of an array *)
Definition array_length (v : value) : nat :=
  match v with
  | VArr items => length items
  | _ => 0
  end.

(** ** The review output parser (orchestrator.js, 337-394) *)

(** [isFindingsEmpty(reviewJson)] *)
Definition isFindingsEmpty (reviewJson : value) : result bool :=
  if negb (truthy reviewJson) || negb (is_typeof reviewJson "object") then
    Throw (Error (js "Review JSON was not an object."))
  else if negb (isArray (get reviewJson (js "findings"))) then
    Throw (Error (js "Review JSON is missing a findings array."))
  else Ret (Nat.eqb (array_length (get reviewJson (js "findings"))) 0).

(** The code unit of the opening brace. *)
Definition brace : code_unit := 123%N.

(** The [while (index !== -1)] loop of [extractReviewJson].  Nothing in
    the source bounds its iterations, so it takes fuel. *)
Fixpoint extractReviewJson_scan (fuel : nat) (trimmed : jsstring) (index : Z)
  : result value :=
  match fuel with
  | O => Diverge
  | S fuel' =>
      if (index =? -1)%Z then
        Throw (Error (js "Failed to parse review JSON from command output."))
      else
        let slice_ := trim (slice trimmed index None) in
        let next := lastIndexOf trimmed brace (Some (index - 1)%Z) in
        match JSON_parse slice_ with
        | Some parsed =>
            if truthy parsed && is_typeof parsed "object"
               && has_property (js "findings") parsed
            then Ret parsed
            else extractReviewJson_scan fuel' trimmed next
        | None => extractReviewJson_scan fuel' trimmed next
        end
  end.

(** [extractReviewJson(output)] *)
Definition extractReviewJson (fuel : nat) (output : jsstring) : result value :=
  let trimmed := trim output in
  if str_falsy trimmed then
    Throw (Error (js "Review command produced no output."))
  else extractReviewJson_scan fuel trimmed (lastIndexOf trimmed brace None).

(** The chunk one part contributes to the output, if any. *)
Definition part_chunk (part : value) : option jsstring :=
  if negb (truthy part) || negb (is_typeof part "object") then None
  else if strict_eq_str (get part (js "type")) (js "text")
          && is_typeof (get part (js "text")) "string" then
    match get part (js "text") with VStr t => Some t | _ => None end
  else if strict_eq_str (get part (js "type")) (js "tool")
          && truthy (get part (js "state"))
          && is_typeof (get part (js "state")) "object" then
    let state := get part (js "state") in
    if strict_eq_str (get state (js "status")) (js "completed")
       && is_typeof (get state (js "output")) "string" then
      match get state (js "output") with VStr t => Some t | _ => None end
    else if strict_eq_str (get state (js "status")) (js "error")
            && is_typeof (get state (js "error")) "string" then
      match get state (js "error") with VStr t => Some t | _ => None end
    else None
  else None.

Fixpoint collect_chunks (parts : list value) : list jsstring :=
  match parts with
  | [] => []
  | part :: rest =>
      match part_chunk part with
      | Some chunk => chunk :: collect_chunks rest
      | None => collect_chunks rest
      end
  end.

(** [collectCommandOutput(parts)] *)
Definition collectCommandOutput (parts : value) : jsstring :=
  match parts with
  | VArr items => join [10%N] (collect_chunks items)
  | _ => []
  end.

(** ** Configuration helpers (orchestrator.js, 396-426) *)

(** What [Number.parseInt] answers. *)
Inductive parsed_number : Type :=
| PNaN
| PInfinity (negative : bool)
| PFinite (z : Z).

(** An integer as the nearest double (ties to even), or an infinity. *)
Definition to_double (z : Z) : parsed_number :=
  let a := Z.abs z in
  let bits := (Z.log2 a + 1)%Z in
  if (bits <=? 53)%Z then PFinite z
  else
    let sh := (bits - 53)%Z in
    let q := Z.shiftr a sh in
    let r := (a - Z.shiftl q sh)%Z in
    let half := Z.shiftl 1 (sh - 1) in
    let q' := if (half <? r)%Z || ((r =? half)%Z && Z.odd q) then (q + 1)%Z else q in
    let a' := Z.shiftl q' sh in
    if (2 ^ 1024 <=? a')%Z then PInfinity (z <? 0)%Z
    else PFinite (Z.sgn z * a').

(** The integer a run of leading decimal digits denotes. *)
Fixpoint digits_value (acc : Z) (s : jsstring) : Z :=
  match s with
  | c :: s' =>
      if is_digit c then digits_value (10 * acc + Z.of_N (c - 48)) s' else acc
  | [] => acc
  end.

Definition starts_with_digit (s : jsstring) : bool :=
  match s with
  | c :: _ => is_digit c
  | [] => false
  end.

(** The integer a text denotes for [Number.parseInt(text, 10)]: leading
    white space is skipped, one sign is read, then the longest run of
    decimal digits; with no digit there is none. *)
Definition int_negative (s : jsstring) : bool :=
  match s with
  | c :: _ => (c =? 45)%N
  | [] => false
  end.

Definition int_unsigned (s : jsstring) : jsstring :=
  match s with
  | c :: s' => if (c =? 45)%N || (c =? 43)%N then s' else s
  | [] => s
  end.

Definition integer_read (text : jsstring) : option Z :=
  let s := trimStart text in
  if starts_with_digit (int_unsigned s) then
    let n := digits_value 0 (int_unsigned s) in
    Some (if int_negative s then (- n)%Z else n)
  else None.

(** [Number.parseInt(text, 10)]: the integer read, as a double, or NaN. *)
Definition Number_parseInt (text : jsstring) : parsed_number :=
  match integer_read text with
  | Some z => to_double z
  | None => PNaN
  end.

(** [Number.isFinite(parsed)] *)
Definition Number_isFinite (parsed : parsed_number) : bool :=
  match parsed with
  | PFinite _ => true
  | _ => false
  end.

(** [parsed > 0] *)
Definition greater_than_zero (parsed : parsed_number) : bool :=
  match parsed with
  | PFinite z => (0 <? z)%Z
  | PInfinity negative => negb negative
  | PNaN => false
  end.

(** [parseNumber(value, fallback)]; an unset variable is [None]. *)
Definition parseNumber (value_ : option jsstring) (fallback : Z) : Z :=
  match value_ with
  | None => fallback
  | Some text =>
      if str_falsy text then fallback
      else
        let parsed := Number_parseInt text in
        if Number_isFinite parsed && greater_than_zero parsed then
          match parsed with
          | PFinite z => z
          | _ => fallback
          end
        else fallback
  end.

Definition DEFAULT_MODEL := js "github-copilot/gpt-5.2-codex".
Definition DEFAULT_AGENT := js "build-gpt-5.2-codex".
Definition DEFAULT_REVIEW_COMMAND_NAME := js "review-uncommited".
Definition DEFAULT_REVIEW_COMMAND_ARGUMENTS : jsstring := [].
Definition DEFAULT_REVIEW_TIMEOUT_MS : Z := 60 * 60 * 1000.
Definition DEFAULT_SESSION_TIMEOUT_MS : Z := 2 * 60 * 60 * 1000.
Definition DEFAULT_STATUS_POLL_INTERVAL_MS : Z := 2000.
Definition DEFAULT_MAX_REVIEW_ITERATIONS : Z := 20.

Record model_spec : Type := { providerID : jsstring; modelID : jsstring }.

(** The code unit of the separator, the slash. *)
Definition slash : code_unit := 47%N.

(** [parseModelSpec(spec)] *)
Definition parseModelSpec (spec : jsstring) : result model_spec :=
  let separatorIndex := indexOf spec slash in
  if (separatorIndex =? -1)%Z then
    Throw (Error (js "Invalid model spec: " ++ spec))
  else
    let providerID := trim (slice spec 0 (Some separatorIndex)) in
    let modelID := trim (slice spec (separatorIndex + 1) None) in
    if str_falsy providerID || str_falsy modelID then
      Throw (Error (js "Invalid model spec: " ++ spec))
    else Ret {| providerID := providerID; modelID := modelID |}.

(** ** The session client adapter (orchestrator.js, 449-511) *)

(** [formatError(error)], as a template literal prints its answer. *)
Definition formatError (error : value) : jsstring :=
  if negb (truthy error) then js "Unknown error"
  else
    match error with
    | VError message => message
    | _ =>
        match JSON_stringify None error with
        | Some text => text
        | None => js "undefined"
        end
    end.

(** [unwrap(result, label)] *)
Definition unwrap (result_ : value) (label : jsstring) : result value :=
  if truthy result_ && is_typeof result_ "object"
     && has_property (js "data") result_ then
    if truthy (get result_ (js "error")) then
      Throw (Error (label ++ js " failed: " ++ formatError (get result_ (js "error"))))
    else Ret (get result_ (js "data"))
  else Ret result_.

(** [safeStringify(value)] with the default [maxLength] of 1000 *)
Definition safeStringify (v : value) : jsstring :=
  match JSON_stringify None v with
  | Some json =>
      if Nat.ltb 0 (length json) then
        if Nat.ltb 1000 (length json) then firstn 1000 json ++ js "..." else json
      else String_of v
  | None => String_of v
  end.

Definition session_id_candidates (session : value) : list value :=
  [ get session (js "id");
    get session (js "sessionID");
    get_opt (get session (js "info")) (js "id");
    get_opt (get session (js "info")) (js "sessionID");
    get_opt (get session (js "properties")) (js "id");
    get_opt (get session (js "properties")) (js "sessionID");
    get_opt (get_opt (get session (js "properties")) (js "info")) (js "id");
    get_opt (get_opt (get session (js "properties")) (js "info")) (js "sessionID");
    get session (js "slug") ].

Fixpoint first_session_id (candidates : list value) : option jsstring :=
  match candidates with
  | [] => None
  | VStr s :: rest =>
      if negb (str_falsy (trim s)) then Some s else first_session_id rest
  | _ :: rest => first_session_id rest
  end.

(** [extractSessionID(session, context)] *)
Definition extractSessionID (session : value) (context : jsstring) : result jsstring :=
  if negb (truthy session) || negb (is_typeof session "object") then
    Throw (Error (context ++ js " did not return a session object."))
  else
    match first_session_id (session_id_candidates session) with
    | Some id => Ret id
    | None =>
        Throw (Error (context ++ js " returned a session without an id. Response: "
                        ++ safeStringify session))
    end.

(** [buildFindingsPrompt(reviewJson)] *)
Definition buildFindingsPrompt (reviewJson : value) : jsstring :=
  let jsonBlock := match JSON_stringify (Some 2) reviewJson with
                   | Some text => text
                   | None => []
                   end in
  join [10%N]
    [ js "The review command reported issues. Address the findings below.";
      [];
      jsonBlock;
      [];
      js "After fixing the issues, wait for the next instruction." ].

(** ** The checklist predicate (orchestrator.js, 332-335) *)

(** The fragment of regular expressions the program uses: the assertion
    [^] (under the [m] flag), a character class, and a class under the
    greedy quantifiers [*] and [+]. *)
Inductive atom : Type :=
| ABol
| AClass (p : code_unit -> bool)
| AStar (p : code_unit -> bool)
| APlus (p : code_unit -> bool).

(** [^] under the [m] flag: at the start of the input or just after a
    line terminator.  [prev] is the code unit before the position. *)
Definition at_line_start (prev : option code_unit) : bool :=
  match prev with
  | None => true
  | Some c => is_line_terminator c
  end.

(** A greedy run of [p]: take as many as match, give back one at a time
    until the rest of the pattern ([k]) matches. *)
Fixpoint match_star (p : code_unit -> bool)
  (k : option code_unit -> jsstring -> bool)
  (prev : option code_unit) (s : jsstring) : bool :=
  match s with
  | c :: s' => (p c && match_star p k (Some c) s') || k prev s
  | [] => k prev s
  end.

(** The backtracking matcher, anchored at the current position. *)
Fixpoint match_here (pattern : list atom) (prev : option code_unit) (s : jsstring)
  : bool :=
  match pattern with
  | [] => true
  | ABol :: rest => at_line_start prev && match_here rest prev s
  | AClass p :: rest =>
      match s with
      | c :: s' => p c && match_here rest (Some c) s'
      | [] => false
      end
  | AStar p :: rest => match_star p (match_here rest) prev s
  | APlus p :: rest =>
      match s with
      | c :: s' => p c && match_star p (match_here rest) (Some c) s'
      | [] => false
      end
  end.

(** [pattern.test(s)] without the [g] flag: a match starting at any
    position. *)
Fixpoint regex_search (pattern : list atom) (prev : option code_unit) (s : jsstring)
  : bool :=
  match_here pattern prev s
  || match s with
     | c :: s' => regex_search pattern (Some c) s'
     | [] => false
     end.

Definition regex_test (pattern : list atom) (s : jsstring) : bool :=
  regex_search pattern None s.

(** The class of the bullet markers: minus, star and plus. *)
Definition is_bullet (c : code_unit) : bool :=
  ((c =? 45) || (c =? 42) || (c =? 43))%N.

(** The pattern of [hasUnfinishedTasks]: line start, any white space, a
    bullet, white space, an opening bracket, one white space, a closing
    bracket. *)
Definition unchecked_pattern : list atom :=
  [ ABol; AStar is_js_space; AClass is_bullet; APlus is_js_space;
    AClass (N.eqb 91); AClass is_js_space; AClass (N.eqb 93) ].

(** The test [hasUnfinishedTasks] makes on the content it has read. *)
Definition has_unchecked (content : jsstring) : bool :=
  regex_test unchecked_pattern content.

(** ** The world outside the program

    Everything the program does to the outside is an event; the history
    is the list of the events so far, the latest first.  The provider,
    the clock and the file system answer as functions of the history, so
    that a fake provider which scripts its answers and the real one are
    both instances. *)
Inductive event : Type :=
| CreateOpencode (config : value)
| SessionCreate (instance : nat) (directory title : jsstring)
| SessionCommand (instance : nat)
    (sessionID directory command arguments agent model : jsstring)
| SessionMessage (instance : nat) (sessionID : jsstring) (messageID : value)
    (directory : jsstring)
| SessionPrompt (instance : nat) (sessionID directory agent : jsstring)
    (model : model_spec) (text : jsstring)
| SessionStatus (instance : nat) (directory : jsstring)
| InstanceDispose (instance : nat) (directory : jsstring)
| ServerClose (instance : nat)
| DateNow
| Delay (ms : Z)
| Log (line : jsstring)
| ReadFile (path : jsstring).

Definition history := list event.

(** The capability interface of the outside world.
    - [provider h call]: what a call of the client (or [server.close()])
      does when made after the history [h]: it returns a value, possibly
      a promise, or throws.
    - [open_instance h config]: [await createOpencode({ config })], a
      handle for the new client and server pair, or the error thrown.
    - [clock h]: [Date.now()].
    - [read_file h path]: [await fs.readFile(path, "utf8")].
    - [process_env name]: [process.env[name]]. *)
Class World : Type := {
  provider : history -> event -> result value;
  open_instance : history -> value -> result nat;
  clock : history -> Z;
  read_file : history -> jsstring -> result jsstring;
  process_env : jsstring -> option jsstring
}.

Context {W : World}.

(** ** The monad of the program: a history threaded through outcomes *)

Definition M (A : Type) : Type := history -> result A * history.

Definition ret {A} (a : A) : M A := fun h => (Ret a, h).

Definition throw {A} (e : value) : M A := fun h => (Throw e, h).

Definition diverge {A} : M A := fun h => (Diverge, h).

Definition bind {A B} (m : M A) (f : A -> M B) : M B :=
  fun h =>
    match m h with
    | (Ret a, h') => f a h'
    | (Throw e, h') => (Throw e, h')
    | (Diverge, h') => (Diverge, h')
    end.

Notation "x <- m ;; k" := (bind m (fun x => k))
  (at level 61, m at next level, right associativity).
Notation "m ;;; k" := (bind m (fun _ => k))
  (at level 61, right associativity).

(** A pure computation that may throw. *)
Definition lift {A} (o : result A) : M A := fun h => (o, h).

(** [try { body } catch (error) { handler }] *)
Definition try_catch {A} (body : M A) (handler : value -> M A) : M A :=
  fun h =>
    match body h with
    | (Throw e, h') => handler e h'
    | other => other
    end.

(** [try { body } finally { cleanup }]: the cleanup runs once the body
    has returned or thrown, and the body's outcome stands unless the
    cleanup itself throws. *)
Definition try_finally {A} (body : M A) (cleanup : M unit) : M A :=
  fun h =>
    match body h with
    | (Diverge, h') => (Diverge, h')
    | (o, h') =>
        match cleanup h' with
        | (Ret _, h'') => (o, h'')
        | (Throw e, h'') => (Throw e, h'')
        | (Diverge, h'') => (Diverge, h'')
        end
    end.

(** A call of the client: recorded, then answered by the provider. *)
Definition client_call (req : event) : M value :=
  fun h => (provider h req, req :: h).

(** [await v]: a settled promise gives its value or throws its reason;
    any other value is itself. *)
Fixpoint settle (v : value) : result value :=
  match v with
  | VPromise false x => settle x
  | VPromise true reason => Throw reason
  | _ => Ret v
  end.

Definition await (v : value) : M value := lift (settle v).

(** [await unwrap(call, label)]: the call is made, [unwrap] is applied
    to what it returned, and the answer of [unwrap] is awaited. *)
Definition await_unwrap (req : event) (label : string) : M value :=
  r <- client_call req ;;
  u <- lift (unwrap r (js label)) ;;
  await u.

Definition Date_now : M Z := fun h => (Ret (clock h), DateNow :: h).

(** [await delay(ms)] *)
Definition delay (ms : Z) : M unit := fun h => (Ret tt, Delay ms :: h).

(** [logStep(message)] *)
Definition logStep (message : jsstring) : M unit :=
  fun h => (Ret tt, Log (js "[orchestrator] " ++ message) :: h).

Definition readFile (path : jsstring) : M jsstring :=
  fun h => (read_file h path, ReadFile path :: h).

(** [await createOpencode({ config })] *)
Definition createOpencode (config : value) : M nat :=
  fun h => (open_instance h config, CreateOpencode config :: h).

(** [process.env[name] || fallback] *)
Definition env_or (name : string) (fallback : jsstring) : jsstring :=
  match process_env (js name) with
  | Some text => if str_falsy text then fallback else text
  | None => fallback
  end.

(** [a ?? b] *)
Definition nullish_or (a b : value) : value :=
  match a with
  | VUndefined | VNull => b
  | _ => a
  end.

(** [buildConfig(model)] *)
Definition buildConfig (model : jsstring) : value :=
  VObj [ (js "model", VStr model);
         (js "permission",
          VObj [ (js "edit", VStr (js "allow"));
                 (js "bash", VStr (js "allow"));
                 (js "webfetch", VStr (js "allow")) ]) ].

(** [hasUnfinishedTasks(planPath)] *)
Definition hasUnfinishedTasks (planPath : jsstring) : M bool :=
  content <- readFile planPath ;;
  ret (has_unchecked content).

(** ** Prompts and the status poller (orchestrator.js, 199-255) *)

(** [sendPrompt(client, sessionID, text, root, modelSpec, agentSpec)] *)
Definition sendPrompt (client : nat) (sessionID text root : jsstring)
  (modelSpec agentSpec : jsstring) : M unit :=
  model <- lift (parseModelSpec modelSpec) ;;
  await_unwrap (SessionPrompt client sessionID root agentSpec model text)
    "session.prompt" ;;;
  ret tt.

(** The list of known sessions in the message of a missing status. *)
Definition known_list (statusMap : value) : jsstring :=
  let knownSessions := if truthy statusMap then Object_keys statusMap else [] in
  if Nat.ltb 0 (length knownSessions) then join (js ", ") knownSessions
  else js "none".

(** The [while (Date.now() - start < timeoutMs)] loop of
    [waitForSessionIdle]; it ends when the clock says so, which nothing
    in the program forces, so it takes fuel. *)
Fixpoint waitForSessionIdle_loop (fuel : nat) (client : nat)
  (sessionID root : jsstring) (timeoutMs pollIntervalMs start : Z) : M unit :=
  match fuel with
  | O => diverge
  | S fuel' =>
      now <- Date_now ;;
      if (now - start <? timeoutMs)%Z then
        statusMap <- await_unwrap (SessionStatus client root) "session.status" ;;
        let status := get_opt statusMap sessionID in
        if negb (truthy status) then
          throw (Error (js "Session status missing for " ++ sessionID
                          ++ js ". Known sessions: " ++ known_list statusMap
                          ++ js "."))
        else if strict_eq_str (get status (js "type")) (js "idle") then ret tt
        else
          delay pollIntervalMs ;;;
          waitForSessionIdle_loop fuel' client sessionID root
            timeoutMs pollIntervalMs start
      else
        throw (Error (js "Timed out waiting for session " ++ sessionID
                        ++ js " to go idle."))
  end.

Definition session_timeout (timeoutOverrideMs : option Z) : Z :=
  match timeoutOverrideMs with
  | Some t => t
  | None =>
      parseNumber (process_env (js "ORCHESTRATOR_SESSION_TIMEOUT_MS"))
        DEFAULT_SESSION_TIMEOUT_MS
  end.

Definition poll_interval : Z :=
  parseNumber (process_env (js "ORCHESTRATOR_STATUS_POLL_INTERVAL_MS"))
    DEFAULT_STATUS_POLL_INTERVAL_MS.

(** [waitForSessionIdle(client, sessionID, root, timeoutOverrideMs)] *)
Definition waitForSessionIdle (fuel : nat) (client : nat)
  (sessionID root : jsstring) (timeoutOverrideMs : option Z) : M unit :=
  let timeoutMs := session_timeout timeoutOverrideMs in
  let pollIntervalMs := poll_interval in
  start <- Date_now ;;
  waitForSessionIdle_loop fuel client sessionID root timeoutMs pollIntervalMs start.

(** ** Disposal and the review command (orchestrator.js, 135-197, 428-438) *)

(** The guarded part of [disposeInstance]. *)
Definition dispose_call (client : nat) (root : jsstring) : M unit :=
  await_unwrap (InstanceDispose client root) "instance.dispose" ;;;
  ret tt.

(** [disposeInstance(client, server, root)]; the handle stands for both
    the client and its server. *)
Definition disposeInstance (instance : nat) (root : jsstring) : M unit :=
  try_catch (dispose_call instance root)
    (fun error => logStep (js "Instance dispose failed: " ++ formatError error)) ;;;
  client_call (ServerClose instance) ;;;
  ret tt.

Definition review_timeout : Z :=
  parseNumber (process_env (js "ORCHESTRATOR_REVIEW_TIMEOUT_MS"))
    DEFAULT_REVIEW_TIMEOUT_MS.

(** The [try] block of [runReviewCommand]; one supply of fuel serves
    both the poller and the scan of the output. *)
Definition runReviewCommand_body (fuel : nat) (client : nat) (root : jsstring)
  : M value :=
  let commandName := env_or "ORCHESTRATOR_REVIEW_COMMAND" DEFAULT_REVIEW_COMMAND_NAME in
  let commandArguments :=
    env_or "ORCHESTRATOR_REVIEW_ARGUMENTS" DEFAULT_REVIEW_COMMAND_ARGUMENTS in
  let timeoutMs := review_timeout in
  session <- await_unwrap (SessionCreate client root (js "Review")) "session.create" ;;
  sessionID <- lift (extractSessionID session (js "session.create (review instance)")) ;;
  commandResult <-
    await_unwrap
      (SessionCommand client sessionID root commandName commandArguments
         DEFAULT_AGENT DEFAULT_MODEL)
      "session.command" ;;
  waitForSessionIdle fuel client sessionID root (Some timeoutMs) ;;;
  let parts0 := nullish_or (get_opt commandResult (js "parts")) (VArr []) in
  let messageID := get_opt (get_opt commandResult (js "info")) (js "id") in
  parts <-
    (if truthy messageID then
       message <-
         await_unwrap (SessionMessage client sessionID messageID root)
           "session.message" ;;
       ret (nullish_or (get_opt message (js "parts")) parts0)
     else ret parts0) ;;
  let output := collectCommandOutput parts in
  if str_falsy (trim output) then
    throw (Error (js "Review command produced no output."))
  else lift (extractReviewJson fuel output).

(** [runReviewCommand(createOpencode, root)] *)
Definition runReviewCommand (fuel : nat) (root : jsstring) : M value :=
  instance <- createOpencode (buildConfig DEFAULT_MODEL) ;;
  try_finally (runReviewCommand_body fuel instance root)
    (disposeInstance instance root).

(** ** The review convergence loop (orchestrator.js, 103-133) *)

Definition max_review_iterations : Z :=
  parseNumber (process_env (js "ORCHESTRATOR_MAX_REVIEW_ITERATIONS"))
    DEFAULT_MAX_REVIEW_ITERATIONS.

(** [findingsCount], as the log line prints it. *)
Definition findings_count (reviewResult : value) : jsstring :=
  if isArray (get reviewResult (js "findings")) then
    string_of_Z (Z.of_nat (array_length (get reviewResult (js "findings"))))
  else js "unknown".

(** The [for (iteration = 1; iteration <= maxIterations; iteration += 1)]
    loop and the [throw] after it; [remaining] counts the iterations
    still allowed, [maxIterations - iteration + 1]. *)
Fixpoint runReviewLoop_from (remaining : nat) (iteration maxIterations : Z)
  (fuel : nat) (client : nat) (sessionID root : jsstring) : M unit :=
  match remaining with
  | O =>
      throw (Error (js "Review loop exceeded " ++ string_of_Z maxIterations
                      ++ js " iterations without clean results."))
  | S remaining' =>
      logStep (js "Running review (" ++ string_of_Z iteration ++ js "/"
                 ++ string_of_Z maxIterations ++ js ")") ;;;
      reviewResult <- runReviewCommand fuel root ;;
      empty <- lift (isFindingsEmpty reviewResult) ;;
      if empty then
        logStep (js "Review clean; no findings.") ;;;
        ret tt
      else
        logStep (js "Review found " ++ findings_count reviewResult
                   ++ js " issues; requesting fixes.") ;;;
        sendPrompt client sessionID (buildFindingsPrompt reviewResult) root
          DEFAULT_MODEL DEFAULT_AGENT ;;;
        waitForSessionIdle fuel client sessionID root None ;;;
        runReviewLoop_from remaining' (iteration + 1) maxIterations
          fuel client sessionID root
  end.

(** [runReviewLoop(createOpencode, client, sessionID, root)] *)
Definition runReviewLoop (fuel : nat) (client : nat) (sessionID root : jsstring)
  : M unit :=
  let maxIterations := max_review_iterations in
  runReviewLoop_from (Z.to_nat maxIterations) 1 maxIterations
    fuel client sessionID root.

End Orchestrator.

(** ** The rest of the program

    The documents of the repository, the prompts, the work and commit
    instances and the milestone loop (orchestrator.js, 16-101, 257-330,
    440-447 and 521-524). *)

Definition COMMIT_MODEL := js "github-copilot/gpt-5-mini".
Definition COMMIT_AGENT := js "build".

(** [path.join] and [path.relative] are built-ins of the platform whose
    answers no result below depends on. *)
Class Paths : Type := {
  path_join : list jsstring -> jsstring;
  path_relative : jsstring -> jsstring -> jsstring
}.

(** What the program does before its first request: it asks the file
    system about a path and it loads the client library.  The log holds
    these steps, the latest first. *)
Inductive setup_event : Type :=
| FsStat (path : jsstring)
| ImportSdk.

Definition setup_log := list setup_event.

(** The paths of the three documents, of [resolveDocs] and of
    [buildPromptPaths]. *)
Record doc_paths : Type := { prd : jsstring; spec : jsstring; plan : jsstring }.

(** What the process shows when it ends: the lines on the error stream,
    the exit code if one was set, the steps of the setup and the events. *)
Record report (event : Type) : Type := {
  stderr : list jsstring;
  exitCode : option Z;
  steps : setup_log;
  events : list event
}.

(** The host of the process.
    - [process_cwd]: [process.cwd()].
    - [fs_stat log path]: [(await fs.stat(path)).isFile()] asked after
      the steps of [log], or the error [fs.stat] throws.
    - [import_sdk log]: [await import(...)] of the client library, which
      gives the [createOpencode] of the world or throws. *)
Class Host {Num : Numbers} : Type := {
  process_cwd : result jsstring;
  fs_stat : setup_log -> jsstring -> result bool;
  import_sdk : setup_log -> result unit
}.

Section Milestones.

Context {Num : Numbers} {RT : Runtime} {W : World} {P : Paths} {H : Host}.

Notation "x <- m ;; k" := (bind m (fun x => k))
  (at level 61, m at next level, right associativity).
Notation "m ;;; k" := (bind m (fun _ => k))
  (at level 61, right associativity).

(** *** The documents (orchestrator.js, 257-286 and 440-447) *)

(** The steps before the first request thread the log of the setup. *)
Definition Setup (A : Type) : Type := setup_log -> result A * setup_log.

Definition setup_ret {A} (a : A) : Setup A := fun s => (Ret a, s).

Definition setup_bind {A B} (m : Setup A) (f : A -> Setup B) : Setup B :=
  fun s =>
    match m s with
    | (Ret a, s') => f a s'
    | (Throw e, s') => (Throw e, s')
    | (Diverge, s') => (Diverge, s')
    end.

(** [fileExists(filePath)]: whatever [fs.stat] throws is caught and
    answered with [false]. *)
Definition fileExists (filePath : jsstring) : Setup bool :=
  fun s =>
    (match fs_stat s filePath with
     | Ret isFile => Ret isFile
     | Throw _ => Ret false
     | Diverge => Diverge
     end, FsStat filePath :: s).

(** The error of [resolveDocPath]. *)
Definition RequiredFileNotFound (fileName rootPath docsPath : jsstring) : value :=
  Error (js "Required file not found: " ++ fileName ++ js " (checked "
           ++ rootPath ++ js " and " ++ docsPath ++ js ").").

(** [resolveDocPath(root, fileName)] *)
Definition resolveDocPath (root fileName : jsstring) : Setup jsstring :=
  let rootPath := path_join [root; fileName] in
  setup_bind (fileExists rootPath) (fun atRoot =>
  if atRoot then setup_ret rootPath
  else
    let docsPath := path_join [root; js "docs"; fileName] in
    setup_bind (fileExists docsPath) (fun atDocs =>
    if atDocs then setup_ret docsPath
    else fun s => (Throw (RequiredFileNotFound fileName rootPath docsPath), s))).

(** [resolveDocs(root)] *)
Definition resolveDocs (root : jsstring) : Setup doc_paths :=
  setup_bind (resolveDocPath root (js "PRD.md")) (fun prd_ =>
  setup_bind (resolveDocPath root (js "SPEC.md")) (fun spec_ =>
  setup_bind (resolveDocPath root (js "PLAN.md")) (fun plan_ =>
  setup_ret {| prd := prd_; spec := spec_; plan := plan_ |}))).

(** [text || fallback] for strings *)
Definition or_default (text fallback : jsstring) : jsstring :=
  if str_falsy text then fallback else text.

(** [buildPromptPaths(docs, root)] *)
Definition buildPromptPaths (docs : doc_paths) (root : jsstring) : doc_paths :=
  {| prd := or_default (path_relative root (prd docs)) (js "PRD.md");
     spec := or_default (path_relative root (spec docs)) (js "SPEC.md");
     plan := or_default (path_relative root (plan docs)) (js "PLAN.md") |}.

(** *** The prompts (orchestrator.js, 288-330) *)

(** [buildMilestonePrompt(paths)] *)
Definition buildMilestonePrompt (paths : doc_paths) : jsstring :=
  join [10%N]
    [ js "Read the product documents and implement the next unchecked milestone.";
      [];
      js "Docs:";
      js "- PRD: " ++ prd paths;
      js "- SPEC: " ++ spec paths;
      js "- PLAN: " ++ plan paths;
      [];
      js "Requirements:";
      js "- Implement one unchecked milestone and its tasks from PLAN.md.";
      js "- Do not update PLAN.md checkboxes yet.";
      js "- Do not commit or push.";
      js "- When finished, briefly confirm completion." ].

(** [buildMarkTasksPrompt(planPath)] *)
Definition buildMarkTasksPrompt (planPath : jsstring) : jsstring :=
  join [10%N]
    [ js "Update " ++ planPath ++ js " by marking completed tasks with [x].";
      js "Leave incomplete tasks unchecked.";
      js "Do not commit or push yet.";
      js "When done, confirm the PLAN.md updates." ].

(** [buildCommitPrompt()] *)
Definition buildCommitPrompt : jsstring :=
  join [10%N]
    [ js "Commit the changes with an appropriate commit message and git push.";
      js "After pushing, confirm completion." ].

(** *** The work and commit instances (orchestrator.js, 32-101) *)

(** The [try] block of [runWorkInstance]. *)
Definition runWorkInstance_body (fuel : nat) (client : nat) (docs : doc_paths)
  (root : jsstring) : M unit :=
  session <-
    await_unwrap (SessionCreate client root (js "Milestone Orchestrator"))
      "session.create" ;;
  sessionID <- lift (extractSessionID session (js "session.create (work instance)")) ;;
  let promptPaths := buildPromptPaths docs root in
  sendPrompt client sessionID (buildMilestonePrompt promptPaths) root
    DEFAULT_MODEL DEFAULT_AGENT ;;;
  waitForSessionIdle fuel client sessionID root None ;;;
  runReviewLoop fuel client sessionID root ;;;
  sendPrompt client sessionID (buildMarkTasksPrompt (plan promptPaths)) root
    DEFAULT_MODEL DEFAULT_AGENT ;;;
  waitForSessionIdle fuel client sessionID root None.

(** [runWorkInstance(createOpencode, docs, root)] *)
Definition runWorkInstance (fuel : nat) (docs : doc_paths) (root : jsstring)
  : M unit :=
  instance <- createOpencode (buildConfig DEFAULT_MODEL) ;;
  try_finally (runWorkInstance_body fuel instance docs root)
    (disposeInstance instance root).

(** The [try] block of [runCommitInstance]. *)
Definition runCommitInstance_body (fuel : nat) (client : nat) (root : jsstring)
  : M unit :=
  session <-
    await_unwrap (SessionCreate client root (js "Commit & Push")) "session.create" ;;
  sessionID <- lift (extractSessionID session (js "session.create (commit instance)")) ;;
  sendPrompt client sessionID buildCommitPrompt root COMMIT_MODEL COMMIT_AGENT ;;;
  waitForSessionIdle fuel client sessionID root None.

(** [runCommitInstance(createOpencode, root)] *)
Definition runCommitInstance (fuel : nat) (root : jsstring) : M unit :=
  instance <- createOpencode (buildConfig COMMIT_MODEL) ;;
  try_finally (runCommitInstance_body fuel instance root)
    (disposeInstance instance root).

(** [runMilestoneCycle(createOpencode, docs, root)] *)
Definition runMilestoneCycle (fuel : nat) (docs : doc_paths) (root : jsstring)
  : M unit :=
  runWorkInstance fuel docs root ;;;
  runCommitInstance fuel root.

(** *** The milestone loop (orchestrator.js, 16-30 and 521-524) *)

(** The [while (await hasUnfinishedTasks(planPath))] loop of [main] and
    the line logged after it.  The loop ends when the plan says so, which
    nothing in the program forces, so it takes fuel ([cycles]); [fuel] is
    the supply of the loops inside a cycle.  The index counts in [Z] (the
    count of the source is exact below 2^53). *)
Fixpoint main_loop (cycles fuel : nat) (docs : doc_paths) (root : jsstring)
  (milestoneIndex : Z) : M unit :=
  match cycles with
  | O => diverge
  | S cycles' =>
      unfinished <- hasUnfinishedTasks (plan docs) ;;
      if unfinished then
        let milestoneIndex := (milestoneIndex + 1)%Z in
        logStep (js "Starting milestone " ++ string_of_Z milestoneIndex) ;;;
        runMilestoneCycle fuel docs root ;;;
        main_loop cycles' fuel docs root milestoneIndex
      else logStep (js "All milestones completed.")
  end.

(** [main()], from the log [s] of the setup and the history [h]: the
    documents are resolved, the client library is loaded, and the loop
    runs. *)
Definition main (fuel : nat) (s : setup_log) (h : history)
  : result unit * setup_log * history :=
  match process_cwd with
  | Ret root =>
      match resolveDocs root s with
      | (Ret docs, s1) =>
          match import_sdk s1 with
          | Ret _ =>
              let (o, h') := main_loop fuel fuel docs root 0 h in
              (o, ImportSdk :: s1, h')
          | Throw e => (Throw e, ImportSdk :: s1, h)
          | Diverge => (Diverge, ImportSdk :: s1, h)
          end
      | (Throw e, s1) => (Throw e, s1, h)
      | (Diverge, s1) => (Diverge, s1, h)
      end
  | Throw e => (Throw e, s, h)
  | Diverge => (Diverge, s, h)
  end.

(** The last statement of the file, which [bin/orchestrar.js] loads:
    [main().catch(...)] prints the failure on the error stream and sets
    the exit code. *)
Definition orchestrar (fuel : nat) : result unit * report event :=
  let '(o, s, h) := main fuel [] [] in
  (o,
   match o with
   | Throw error =>
       {| stderr := [js "[orchestrator] Failed: " ++ formatError error];
          exitCode := Some 1%Z; steps := s; events := h |}
   | _ => {| stderr := []; exitCode := None; steps := s; events := h |}
   end).

End Milestones.

(** ** Definitions used to state the theorems

    The properties of the specification in its own words, the shapes and
    relations the theorems speak of, and the concrete platform and
    providers of the example runs. *)

(** The shape of a trimmed string: empty, or with a first and a last
    code unit that are not white space. *)
Inductive trimmed_shape : jsstring -> Prop :=
| shape_empty : trimmed_shape []
| shape_one c : is_js_space c = false -> trimmed_shape [c]
| shape_more c s d :
    is_js_space c = false -> is_js_space d = false ->
    trimmed_shape (c :: s ++ [d]).

(** [parseModelSpec] in the words of the specification: split on the
    first separator, fail without one or with an empty half, and answer
    the two halves. *)
Fixpoint split_first (c : code_unit) (s : jsstring) : option (jsstring * jsstring) :=
  match s with
  | [] => None
  | x :: s' =>
      if N.eqb x c then Some ([], s')
      else match split_first c s' with
           | Some (a, b) => Some (x :: a, b)
           | None => None
           end
  end.

Definition spec_parseModelSpec (spec : jsstring) : option model_spec :=
  match split_first slash spec with
  | Some (a, b) =>
      if str_falsy a || str_falsy b then None
      else Some {| providerID := a; modelID := b |}
  | None => None
  end.

(** A platform for the example runs: a number is kept as its lexeme, and
    every value prints as an ellipsis. *)
#[export] Instance lexeme_numbers : Numbers := {|
  number := jsstring;
  number_of_lexeme := fun lexeme => lexeme;
  number_falsy := fun lexeme => jsstring_eqb lexeme (js "0")
|}.

#[export] Instance ellipsis_runtime : Runtime := {|
  JSON_stringify := fun _ _ => Some (js "...");
  String_of := fun _ => js "..."
|}.

(** The code unit before a position, given the one before the text that
    precedes it. *)
Definition last_before (prev : option code_unit) (pre : jsstring) : option code_unit :=
  fold_left (fun _ c => Some c) pre prev.

(** A text after which a line starts: the empty text, or one that ends
    with a line terminator. *)
Definition ends_line (pre : jsstring) : Prop :=
  pre = [] \/ exists pre' t, pre = pre' ++ [t] /\ is_line_terminator t = true.

(** What the pattern of [hasUnfinishedTasks] matches at a position: any
    white space, a bullet, one or more white space, an opening bracket,
    one white space, a closing bracket.  White space includes the line
    terminators. *)
Definition unchecked_here (s : jsstring) : Prop :=
  exists ws m ws1 w rest,
    s = ws ++ m :: ws1 ++ 91%N :: w :: 93%N :: rest
    /\ forallb is_js_space ws = true
    /\ is_bullet m = true
    /\ ws1 <> [] /\ forallb is_js_space ws1 = true
    /\ is_js_space w = true.

(** The unchecked-bullet pattern in the words of the specification,
    line by line: after leading white space, a bullet marker, white
    space, and a bracket pair that holds only white space (read
    generously: any amount of it). *)
Fixpoint split_lines (cur : jsstring) (s : jsstring) : list jsstring :=
  match s with
  | [] => [rev cur]
  | c :: s' =>
      if is_line_terminator c then rev cur :: split_lines [] s'
      else split_lines (c :: cur) s'
  end.

Definition spec_line_unchecked (line : jsstring) : bool :=
  match trimStart line with
  | m :: w :: rest =>
      is_bullet m && is_js_space w
      && match trimStart rest with
         | c :: inner =>
             N.eqb c 91
             && match trimStart inner with
                | d :: _ => N.eqb d 93
                | [] => false
                end
         | [] => false
         end
  | _ => false
  end.

Definition spec_hasUnfinishedTasks (content : jsstring) : bool :=
  existsb spec_line_unchecked (split_lines [] content).

Section ParserNotions.

Context {Num : Numbers}.

(** Lexer states between tokens or inside a number or a word, and the
    state inside a string. *)
Definition lex_plain (q : lstate) : Prop :=
  match q with
  | LDefault | LNumber _ | LWord _ => True
  | _ => False
  end.

Definition lex_in_string (q : lstate) : Prop :=
  match q with
  | LString _ => True
  | _ => False
  end.

(** Two lexer states of which exactly one is inside a string. *)
Definition lex_opposite (q1 q2 : lstate) : Prop :=
  (lex_in_string q1 /\ lex_plain q2) \/ (lex_plain q1 /\ lex_in_string q2).

(** A parser state with further frames below its stack. *)
Definition on_frames (below : list frame) (q : pstate) : pstate :=
  match q with
  | PValue stack => PValue (stack ++ below)
  | PArrOpen stack => PArrOpen (stack ++ below)
  | PArrNext done stack => PArrNext done (stack ++ below)
  | PObjOpen stack => PObjOpen (stack ++ below)
  | PObjKey props stack => PObjKey props (stack ++ below)
  | PObjColon props key stack => PObjColon props key (stack ++ below)
  | PObjNext props stack => PObjNext props (stack ++ below)
  | PDone v => complete v below
  end.

Definition parse_done (q : pstate) : Prop :=
  match q with
  | PDone _ => True
  | _ => False
  end.

(** The test [extractReviewJson] makes on the text from a brace on: the
    object it accepts, if any. *)
Definition candidate (text : jsstring) : option value :=
  match JSON_parse (trim text) with
  | Some parsed =>
      if truthy parsed && is_typeof parsed "object"
         && has_property (js "findings") parsed
      then Some parsed
      else None
  | None => None
  end.

End ParserNotions.

Section RunNotions.

Context {Num : Numbers} {RT : Runtime} {W : World}.

(** *** The status poller *)

(** The events of one round of the poller that finds the session busy,
    the latest first: the clock is read, the status is asked, and the
    poller sleeps. *)
Definition poll_round (client : nat) (root : jsstring) (interval : Z) : history :=
  [Delay interval; SessionStatus client root; DateNow].

(** The history after [n] such rounds. *)
Fixpoint busy_history (client : nat) (root : jsstring) (interval : Z)
  (n : nat) (h : history) : history :=
  match n with
  | O => h
  | S n' => poll_round client root interval ++ busy_history client root interval n' h
  end.

(** What the poll made after the history [h] takes for the status map:
    the clock is read, then the status is asked. *)
Definition status_answer (client : nat) (root : jsstring) (h : history) : result value :=
  fst (await_unwrap (SessionStatus client root) "session.status" (DateNow :: h)).




(** The errors of the poller. *)
Definition SessionMissing (sessionID : jsstring) (statusMap : value) : value :=
  Error (js "Session status missing for " ++ sessionID
           ++ js ". Known sessions: " ++ known_list statusMap ++ js ".").

Definition Timeout (sessionID : jsstring) : value :=
  Error (js "Timed out waiting for session " ++ sessionID ++ js " to go idle.").

(** *** Disposal *)

(** What the guarded dispose call does after the history [h]. *)
Definition dispose_answer (instance : nat) (root : jsstring) (h : history) : result unit :=
  fst (dispose_call instance root h).

(** The line logged for it: none unless it threw. *)
Definition dispose_log (answer : result unit) : history :=
  match answer with
  | Throw e => [Log (js "[orchestrator] Instance dispose failed: " ++ formatError e)]
  | _ => []
  end.

(** *** The review loop *)

Definition is_review_command (e : event) : bool :=
  match e with
  | SessionCommand _ _ _ _ _ _ _ => true
  | _ => false
  end.

(** A prompt sent to the session [sessionID] of the client [client]. *)
Definition is_prompt_to (client : nat) (sessionID : jsstring) (e : event) : bool :=
  match e with
  | SessionPrompt c s _ _ _ _ => Nat.eqb c client && jsstring_eqb s sessionID
  | _ => false
  end.

Definition count_events (p : event -> bool) (h : history) : nat :=
  length (filter p h).

Definition running_line (iteration maxIterations : Z) : event :=
  Log (js "[orchestrator] " ++ js "Running review (" ++ string_of_Z iteration
         ++ js "/" ++ string_of_Z maxIterations ++ js ")").

Definition found_line (reviewResult : value) : event :=
  Log (js "[orchestrator] " ++ js "Review found " ++ findings_count reviewResult
         ++ js " issues; requesting fixes.").

Definition clean_line : event :=
  Log (js "[orchestrator] " ++ js "Review clean; no findings.").

Definition ReviewLoopExceeded (maxIterations : Z) : value :=
  Error (js "Review loop exceeded " ++ string_of_Z maxIterations
           ++ js " iterations without clean results.").

(** [fix_rounds n iteration h h']: from the history [h], the [n]
    iterations numbered from [iteration] on each ran the review command
    to a result whose findings are not empty, sent the fix prompt to the
    work session and waited for it to be idle, and left the history
    [h']. *)
Inductive fix_rounds (fuel : nat) (client : nat) (sessionID root : jsstring)
  (maxIterations : Z) : nat -> Z -> history -> history -> Prop :=
| fix_rounds_none iteration h :
    fix_rounds fuel client sessionID root maxIterations 0 iteration h h
| fix_rounds_more n iteration h reviewResult h1 h2 h3 h' :
    runReviewCommand fuel root (running_line iteration maxIterations :: h)
      = (Ret reviewResult, h1) ->
    isFindingsEmpty reviewResult = Ret false ->
    sendPrompt client sessionID (buildFindingsPrompt reviewResult) root
      DEFAULT_MODEL DEFAULT_AGENT (found_line reviewResult :: h1) = (Ret tt, h2) ->
    waitForSessionIdle fuel client sessionID root None h2 = (Ret tt, h3) ->
    fix_rounds fuel client sessionID root maxIterations n (iteration + 1) h3 h' ->
    fix_rounds fuel client sessionID root maxIterations (S n) iteration h h'.

End RunNotions.

(** *** A scripted provider for the example runs

    An in-memory fake of the provider: it answers at once, with a [data]
    envelope, from a script.  The single session is ["ses_1"]; every
    event takes one second of the clock. *)

Definition is_status_call (e : event) : bool :=
  match e with
  | SessionStatus _ _ => true
  | _ => false
  end.

Definition is_create_opencode (e : event) : bool :=
  match e with
  | CreateOpencode _ => true
  | _ => false
  end.

Definition envelope (data : value) : value := VObj [(js "data", data)].

Definition text_part (text : jsstring) : value :=
  VObj [(js "type", VStr (js "text")); (js "text", VStr text)].

Definition status_map (sessionID : jsstring) (state : string) : value :=
  VObj [(sessionID, VObj [(js "type", VStr (js state))])].

(** - [status_script]: the status maps of the successive polls; once
      they are used up, ["ses_1"] is idle.
    - [review_script]: the outputs of the successive review commands.
    - [dispose_script]: what every dispose call does.
    - [plan_script]: the content of every file.
    - [env_script]: the variables of the environment that are set. *)
Record script : Type := {
  status_script : list value;
  review_script : list jsstring;
  dispose_script : result value;
  plan_script : jsstring;
  env_script : list (jsstring * jsstring)
}.

Fixpoint env_lookup (name : jsstring) (env : list (jsstring * jsstring))
  : option jsstring :=
  match env with
  | [] => None
  | (name', text) :: rest =>
      if jsstring_eqb name' name then Some text else env_lookup name rest
  end.

Definition scripted_provider (s : script) (h : history) (call : event) : result value :=
  match call with
  | SessionCreate _ _ _ => Ret (envelope (VObj [(js "id", VStr (js "ses_1"))]))
  | SessionCommand _ _ _ _ _ _ _ =>
      Ret (envelope
             (VObj [(js "parts",
                     VArr [text_part (nth (count_events is_review_command h)
                                        (review_script s) [])])]))
  | SessionStatus _ _ =>
      Ret (envelope (nth (count_events is_status_call h) (status_script s)
                       (status_map (js "ses_1") "idle")))
  | InstanceDispose _ _ => dispose_script s
  | _ => Ret (envelope VUndefined)
  end.

Definition scripted_world (s : script) : World := {|
  provider := scripted_provider s;
  open_instance := fun h _ => Ret (S (count_events is_create_opencode h));
  clock := fun h => (1000 * Z.of_nat (length h))%Z;
  read_file := fun _ _ => Ret (plan_script s);
  process_env := fun name => env_lookup name (env_script s)
|}.


(** One finding at the first two reviews, none at the third. *)
Definition converging_reviews : script := {|
  status_script := [];
  review_script := [ jq "Found one issue. {'findings':[{'title':'missing test'}]}";
                     jq "Still one issue. {'findings':[{'title':'missing test'}]}";
                     jq "All good. {'findings':[]}" ];
  dispose_script := Ret (envelope VUndefined);
  plan_script := js "- [ ] task";
  env_script := []
|}.

(** One finding at every review, and a limit of three iterations. *)
Definition stubborn_reviews : script := {|
  status_script := [];
  review_script := [ jq "{'findings':[{'title':'missing test'}]}";
                     jq "{'findings':[{'title':'missing test'}]}";
                     jq "{'findings':[{'title':'missing test'}]}";
                     jq "{'findings':[{'title':'missing test'}]}" ];
  dispose_script := Ret (envelope VUndefined);
  plan_script := js "- [ ] task";
  env_script := [(js "ORCHESTRATOR_MAX_REVIEW_ITERATIONS", js "3")]
|}.

(** The review finds nothing, and the dispose call fails. *)
Definition failing_dispose : script := {|
  status_script := [];
  review_script := [ jq "{'findings':[]}" ];
  dispose_script := Throw (Error (js "connection reset"));
  plan_script := js "- [ ] task";
  env_script := []
|}.

(** The review command prints nothing, and the dispose call fails. *)
Definition silent_review : script := {|
  status_script := [];
  review_script := [ js "  " ];
  dispose_script := Throw (Error (js "connection reset"));
  plan_script := js "- [ ] task";
  env_script := []
|}.

(** A plan whose bullet marker and brackets stand on two lines. *)
Definition two_line_plan : script := {|
  status_script := [];
  review_script := [];
  dispose_script := Ret (envelope VUndefined);
  plan_script := js "-" ++ [10%N] ++ js "[ ]";
  env_script := []
|}.

(** A plan whose brackets hold two spaces. *)
Definition wide_bracket_plan : script := {|
  status_script := [];
  review_script := [];
  dispose_script := Ret (envelope VUndefined);
  plan_script := js "- [  ] task";
  env_script := []
|}.

(** A plan with one open task under a finished one. *)
Definition open_task_plan : script := {|
  status_script := [];
  review_script := [];
  dispose_script := Ret (envelope VUndefined);
  plan_script := js "- [x] done" ++ [10%N] ++ js "  + [ ] next";
  env_script := []
|}.

(** *** Counting events *)

Section Counting.

Context {Num : Numbers}.

Variables (A : Type) (p : event -> bool).

(** A computation that adds no event that [p] counts, however it ends. *)
Definition silent (m : M A) : Prop :=
  forall h o h', m h = (o, h') ->
  exists new, h' = new ++ h /\ count_events p new = 0%nat.

(** A computation that, when it returns, has added [k] events that [p]
    counts. *)
Definition adds (k : nat) (m : M A) : Prop :=
  forall h a h', m h = (Ret a, h') ->
  exists new, h' = new ++ h /\ count_events p new = k.

End Counting.

(** ** Definitions used to state the further theorems *)

Section AdapterNotions.

Context {Num : Numbers}.

(** A candidate that [extractSessionID] takes: a string that holds more
    than white space. *)
Definition usable_id (candidate : value) : bool :=
  match candidate with
  | VStr s => negb (str_falsy (trim s))
  | _ => false
  end.



End AdapterNotions.

Section RunNotionsMore.

Context {Num : Numbers}.

(** A request for the status map. *)
Definition is_status_request (e : event) : bool :=
  match e with
  | SessionStatus _ _ => true
  | _ => false
  end.

End RunNotionsMore.

Section MilestoneNotions.

Context {Num : Numbers} {RT : Runtime} {W : World} {P : Paths} {H : Host}.

(** What [fs.stat] says of a path that [fileExists] takes for absent:
    it is there and no regular file, or the request fails. *)
Definition not_a_file (answer : result bool) : Prop :=
  answer = Ret false \/ exists e, answer = Throw e.

(** The last line of a run that ends well. *)
Definition completed_line : event :=
  Log (js "[orchestrator] " ++ js "All milestones completed.").

(** The names of the three documents, in the order [resolveDocs] looks
    for them. *)
Definition document_names : list jsstring :=
  [js "PRD.md"; js "SPEC.md"; js "PLAN.md"].

End MilestoneNotions.

Section InstanceNotions.

Context {Num : Numbers} {RT : Runtime} {W : World}.

(** The instance a request is addressed to. *)
Definition instance_of (e : event) : option nat :=
  match e with
  | SessionCreate i _ _ => Some i
  | SessionCommand i _ _ _ _ _ _ => Some i
  | SessionMessage i _ _ _ => Some i
  | SessionPrompt i _ _ _ _ _ => Some i
  | SessionStatus i _ => Some i
  | InstanceDispose i _ => Some i
  | ServerClose i => Some i
  | _ => None
  end.

(** The instances [createOpencode] has handed out in a history. *)
Fixpoint opened (h : history) : list nat :=
  match h with
  | [] => []
  | CreateOpencode config :: h' =>
      match open_instance h' config with
      | Ret i => i :: opened h'
      | _ => opened h'
      end
  | _ :: h' => opened h'
  end.

(** No request goes to an instance after its server was closed. *)
Definition no_use_after_close (h : history) : Prop :=
  forall after i before, h = after ++ ServerClose i :: before ->
  forall e, In e after -> instance_of e <> Some i.

(** Every request goes to an instance that was handed out. *)
Definition only_opened_used (h : history) : Prop :=
  forall e i, In e h -> instance_of e = Some i -> In i (opened h).

(** Every instance handed out has had its server closed. *)
Definition all_closed (h : history) : Prop :=
  forall i, In i (opened h) -> In (ServerClose i) h.

(** The provider hands out an instance once. *)
Definition fresh_instances : Prop :=
  forall h config i, open_instance h config = Ret i -> ~ In i (opened h).

(** An event that neither opens an instance nor closes a server, and
    that is addressed, if to any, to one of the instances [live]. *)
Definition calm (live : list nat) (e : event) : bool :=
  match e with
  | CreateOpencode _ | ServerClose _ => false
  | _ =>
      match instance_of e with
      | Some c => existsb (Nat.eqb c) live
      | None => true
      end
  end.

Definition restless (live : list nat) (e : event) : bool := negb (calm live e).

(** A history in good order while the instances [live] are in use:
    nothing was sent to a closed instance, everything was sent to an
    instance handed out, and the instances in use were handed out and
    are not closed. *)
Definition tidy (live : list nat) (h : history) : Prop :=
  no_use_after_close h
  /\ only_opened_used h
  /\ forall i, In i live -> In i (opened h) /\ ~ In (ServerClose i) h.

(** A history in which every instance handed out is closed or among
    the instances [live]. *)
Definition settled (live : list nat) (h : history) : Prop :=
  forall i, In i (opened h) -> In i live \/ In (ServerClose i) h.

(** A computation that keeps a property [I] of the history and the
    instances in use: also when it does not end, if [unending] is set. *)
Definition keeps (I : list nat -> history -> Prop) (unending : bool)
  (live : list nat) (A : Type) (m : M A) : Prop :=
  forall h o h', m h = (o, h') -> unending = true \/ o <> Diverge ->
  I live h -> I live h'.

End InstanceNotions.

Section InstanceTraces.

Context {Num : Numbers} {RT : Runtime} {W : World} {P : Paths}.

(** A prompt, to whatever session. *)
Definition is_prompt (e : event) : bool :=
  match e with
  | SessionPrompt _ _ _ _ _ _ => true
  | _ => false
  end.

(** The model of the work and review instances, and that of the commit
    instance, as [parseModelSpec] reads them. *)
Definition default_model : model_spec :=
  {| providerID := js "github-copilot"; modelID := js "gpt-5.2-codex" |}.

Definition commit_model : model_spec :=
  {| providerID := js "github-copilot"; modelID := js "gpt-5-mini" |}.

(** The prompts of a work instance and of a commit instance. *)
Definition milestone_prompt (instance : nat) (sessionID root : jsstring)
  (docs : doc_paths) : event :=
  SessionPrompt instance sessionID root DEFAULT_AGENT default_model
    (buildMilestonePrompt (buildPromptPaths docs root)).

Definition mark_tasks_prompt (instance : nat) (sessionID root : jsstring)
  (docs : doc_paths) : event :=
  SessionPrompt instance sessionID root DEFAULT_AGENT default_model
    (buildMarkTasksPrompt (plan (buildPromptPaths docs root))).

Definition commit_prompt (instance : nat) (sessionID root : jsstring) : event :=
  SessionPrompt instance sessionID root COMMIT_AGENT commit_model buildCommitPrompt.

End InstanceTraces.

(** *** Platforms and providers for the further example runs *)

(** Paths are joined with a slash, and a path under the root is made
    relative by dropping the root and the slash. *)
Definition plain_paths : Paths := {|
  path_join := join (js "/");
  path_relative := fun from to => skipn (S (length from)) to
|}.

(** A host in [/repo] on which the paths [files] are regular files and
    every other request to the file system fails. *)
Definition scripted_host (files : list jsstring) : Host := {|
  process_cwd := Ret (js "/repo");
  fs_stat := fun _ path =>
    if existsb (jsstring_eqb path) files then Ret true
    else Throw (Error (js "ENOENT"));
  import_sdk := fun _ => Ret tt
|}.

(** The documents at the root, but for the plan, which is in [docs/]. *)
Definition repo_files : list jsstring :=
  [js "/repo/PRD.md"; js "/repo/SPEC.md"; js "/repo/docs/PLAN.md"].

Definition is_commit_prompt (e : event) : bool :=
  match e with
  | SessionPrompt _ _ _ agent _ _ => jsstring_eqb agent COMMIT_AGENT
  | _ => false
  end.

(** The provider of a script, with a plan whose one task is checked
    once a commit prompt has been sent. *)
Definition milestone_world (s : script) : World := {|
  provider := scripted_provider s;
  open_instance := fun h _ => Ret (S (count_events is_create_opencode h));
  clock := fun h => (1000 * Z.of_nat (length h))%Z;
  read_file := fun h _ =>
    Ret (if Nat.ltb 0 (count_events is_commit_prompt h)
         then js "- [x] task" else js "- [ ] task");
  process_env := fun name => env_lookup name (env_script s)
|}.

(** A provider that answers every call with a promise, fulfilled with
    an envelope whose [error] is set. *)
Definition failed_envelope : value :=
  VObj [(js "data", VNull); (js "error", VObj [(js "message", VStr (js "boom"))])].

Definition promising_world : World := {|
  provider := fun _ _ => Ret (VPromise false failed_envelope);
  open_instance := fun _ _ => Ret 1%nat;
  clock := fun _ => 0%Z;
  read_file := fun _ _ => Ret [];
  process_env := fun _ => None
|}.

(** The session is busy at two polls; the poll interval is the second
    that every event takes on the clock of the scripted world. *)
Definition patient_session : script := {|
  status_script := [ status_map (js "ses_1") "busy";
                     status_map (js "ses_1") "busy" ];
  review_script := [];
  dispose_script := Ret (envelope VUndefined);
  plan_script := js "- [ ] task";
  env_script := [(js "ORCHESTRATOR_STATUS_POLL_INTERVAL_MS", js "1000")]
|}.

(** A plan with nothing left to do. *)
Definition finished_plan : script := {|
  status_script := [];
  review_script := [];
  dispose_script := Ret (envelope VUndefined);
  plan_script := js "- [x] done";
  env_script := []
|}.

(* ================================================================== *)
(** * Part II. Theorems                                                *)
(* ================================================================== *)

(** ** Strings *)

Lemma jsstring_eqb_eq (a b : jsstring) : jsstring_eqb a b = true <-> a = b.
Proof.
  revert b; induction a as [|x a IH]; intros [|y b]; simpl; split;
    try congruence; try reflexivity.
  - intros H. apply andb_true_iff in H as [Hx Hab].
    apply N.eqb_eq in Hx. apply IH in Hab. congruence.
  - intros H. injection H as -> ->. rewrite N.eqb_refl. simpl. now apply IH.
Qed.

Lemma jsstring_eqb_refl (a : jsstring) : jsstring_eqb a a = true.
Proof. now apply jsstring_eqb_eq. Qed.


Lemma trimStart_head (s : jsstring) :
  match trimStart s with
  | c :: _ => is_js_space c = false
  | [] => True
  end.
Proof.
  induction s as [|c s IH]; simpl; [exact I|].
  destruct (is_js_space c) eqn:E; [exact IH|exact E].
Qed.

Lemma trimStart_fixed (c : code_unit) (s : jsstring) :
  is_js_space c = false -> trimStart (c :: s) = c :: s.
Proof. intros H. simpl. now rewrite H. Qed.

Lemma trimStart_suffix (s : jsstring) :
  exists ws, s = ws ++ trimStart s /\ forallb is_js_space ws = true.
Proof.
  induction s as [|c s (ws & E & F)]; simpl.
  - now exists [].
  - destruct (is_js_space c) eqn:Ec.
    + exists (c :: ws). simpl. rewrite Ec, F. split; [congruence|reflexivity].
    + now exists [].
Qed.

Lemma trimEnd_fixed (s : jsstring) (d : code_unit) :
  is_js_space d = false -> trimEnd (s ++ [d]) = s ++ [d].
Proof.
  intros Hd. unfold trimEnd. rewrite rev_app_distr. simpl.
  rewrite Hd. simpl. now rewrite rev_involutive.
Qed.

Lemma trim_fixed (c : code_unit) (s : jsstring) (d : code_unit) :
  is_js_space c = false -> is_js_space d = false ->
  trim (c :: s ++ [d]) = c :: s ++ [d].
Proof.
  intros Hc Hd. unfold trim. rewrite trimStart_fixed by assumption.
  apply (trimEnd_fixed (c :: s) d Hd).
Qed.

Lemma trim_single (c : code_unit) :
  is_js_space c = false -> trim [c] = [c].
Proof. intros Hc. unfold trim, trimEnd. simpl. rewrite Hc. simpl. now rewrite Hc. Qed.

Lemma list_ends (A : Type) (s : list A) :
  s = [] \/ exists t d, s = t ++ [d].
Proof.
  destruct s as [|x s]; [now left|right].
  destruct (@exists_last _ (x :: s)) as (t & d & E); [discriminate|].
  now exists t, d.
Qed.

Lemma shape_ends (s : jsstring) :
  match s with c :: _ => is_js_space c = false | [] => True end ->
  match rev s with d :: _ => is_js_space d = false | [] => True end ->
  trimmed_shape s.
Proof.
  intros H1 H2. destruct s as [|c s]; [constructor|].
  destruct (list_ends s) as [->|(t & d & ->)].
  - now constructor.
  - change (c :: t ++ [d]) with ((c :: t) ++ [d]) in H2.
    rewrite rev_app_distr in H2. simpl in H2. now constructor.
Qed.

Lemma trim_shape (s : jsstring) : trimmed_shape (trim s).
Proof.
  unfold trim, trimEnd. apply shape_ends.
  - pose proof (trimStart_head s) as H1.
    pose proof (trimStart_suffix (rev (trimStart s))) as (ws & E & _).
    destruct (rev (trimStart (rev (trimStart s)))) as [|c r] eqn:Er; [exact I|].
    assert (Ets : trimStart s = (c :: r) ++ rev ws).
    { rewrite <- (rev_involutive (trimStart s)), E, rev_app_distr. now rewrite Er. }
    rewrite Ets in H1. exact H1.
  - rewrite rev_involutive. apply trimStart_head.
Qed.

Lemma trim_of_shape (s : jsstring) : trimmed_shape s -> trim s = s.
Proof.
  intros [|c Hc|c t d Hc Hd].
  - reflexivity.
  - now apply trim_single.
  - now apply trim_fixed.
Qed.

Lemma trim_idempotent (s : jsstring) : trim (trim s) = trim s.
Proof. apply trim_of_shape, trim_shape. Qed.

(** ** Configuration helpers *)

Lemma to_double_sign (n : Z) :
  (n <= 0)%Z ->
  match to_double n with
  | PFinite z => (z <= 0)%Z
  | _ => True
  end.
Proof.
  intros Hn. unfold to_double.
  destruct (Z.log2 (Z.abs n) + 1 <=? 53)%Z; [exact Hn|].
  set (sh := (Z.log2 (Z.abs n) + 1 - 53)%Z).
  set (q := Z.shiftr (Z.abs n) sh).
  set (q' := if _ : bool then (q + 1)%Z else q).
  destruct (2 ^ 1024 <=? Z.shiftl q' sh)%Z; [exact I|].
  assert (Hq : (0 <= q)%Z) by (apply Z.shiftr_nonneg, Z.abs_nonneg).
  assert (Hq' : (0 <= q')%Z) by (subst q'; destruct (_ : bool); lia).
  assert (Ha : (0 <= Z.shiftl q' sh)%Z) by (now apply Z.shiftl_nonneg).
  assert (Hs : (Z.sgn n <= 0)%Z) by (destruct n; simpl; lia).
  nia.
Qed.

Lemma parseNumber_unfold (text : jsstring) (fallback : Z) :
  parseNumber (Some text) fallback =
  match Number_parseInt text with
  | PFinite z => if (0 <? z)%Z then z else fallback
  | _ => fallback
  end.
Proof.
  unfold parseNumber. destruct text as [|c t]; [reflexivity|].
  simpl str_falsy. cbv iota.
  destruct (Number_parseInt (c :: t)) as [| |z]; simpl; reflexivity.
Qed.

(** A fallback that is positive gives a positive answer, whatever the
    environment holds. *)
Lemma parseNumber_positive (value_ : option jsstring) (fallback : Z) :
  (0 < fallback)%Z -> (0 < parseNumber value_ fallback)%Z.
Proof.
  intros Hf. destruct value_ as [text|]; [|exact Hf].
  rewrite parseNumber_unfold.
  destruct (Number_parseInt text) as [| |z]; try exact Hf.
  destruct (0 <? z)%Z eqn:E; [now apply Z.ltb_lt in E|exact Hf].
Qed.

(** C10. [parseNumber] never fails, and it answers the fallback when
    the variable is unset, empty, denotes no integer, or denotes zero or
    a negative integer; in every case the answer is the fallback unless
    [Number.parseInt] gives a finite number greater than zero, which is
    then the answer.  The four numeric keys are read this way, with the
    documented defaults. *)
Theorem parseNumber_fallback (value_ : option jsstring) (fallback : Z) :
  (value_ = None -> parseNumber value_ fallback = fallback)
  /\ (value_ = Some [] -> parseNumber value_ fallback = fallback)
  /\ (forall text, value_ = Some text -> integer_read text = None ->
        parseNumber value_ fallback = fallback)
  /\ (forall text n, value_ = Some text -> integer_read text = Some n ->
        (n <= 0)%Z -> parseNumber value_ fallback = fallback)
  /\ (parseNumber value_ fallback = fallback
      \/ exists text z, value_ = Some text /\ Number_parseInt text = PFinite z
                        /\ (0 < z)%Z /\ parseNumber value_ fallback = z)
  /\ (forall (Num : Numbers) (W : World),
        review_timeout
          = parseNumber (process_env (js "ORCHESTRATOR_REVIEW_TIMEOUT_MS")) 3600000
        /\ session_timeout None
          = parseNumber (process_env (js "ORCHESTRATOR_SESSION_TIMEOUT_MS")) 7200000
        /\ poll_interval
          = parseNumber (process_env (js "ORCHESTRATOR_STATUS_POLL_INTERVAL_MS")) 2000
        /\ max_review_iterations
          = parseNumber (process_env (js "ORCHESTRATOR_MAX_REVIEW_ITERATIONS")) 20).
Proof.
  repeat split.
  - now intros ->.
  - now intros ->.
  - intros text -> H. rewrite parseNumber_unfold. unfold Number_parseInt.
    now rewrite H.
  - intros text n -> H Hn. rewrite parseNumber_unfold. unfold Number_parseInt.
    rewrite H. pose proof (to_double_sign Hn) as Hd.
    destruct (to_double n) as [| |z]; try reflexivity.
    destruct (0 <? z)%Z eqn:E; [apply Z.ltb_lt in E; lia|reflexivity].
  - destruct value_ as [text|]; [|now left].
    rewrite parseNumber_unfold.
    destruct (Number_parseInt text) as [| |z] eqn:E; try now left.
    destruct (0 <? z)%Z eqn:Ez; [|now left].
    right. exists text, z. apply Z.ltb_lt in Ez. now repeat split.
Qed.

Example parseNumber_examples :
  parseNumber None 20 = 20%Z
  /\ parseNumber (Some (js "")) 20 = 20%Z
  /\ parseNumber (Some (js "abc")) 20 = 20%Z
  /\ parseNumber (Some (js "0")) 20 = 20%Z
  /\ parseNumber (Some (js "-5")) 20 = 20%Z
  /\ parseNumber (Some (js "3")) 20 = 3%Z
  /\ parseNumber (Some (js " 12abc")) 20 = 12%Z.
Proof. repeat split. Qed.

Lemma indexOf_from_absent (c : code_unit) (s : jsstring) (i : Z) :
  ~ In c s -> indexOf_from c s i = (-1)%Z.
Proof.
  revert i; induction s as [|x s IH]; intros i H; simpl; [reflexivity|].
  destruct (N.eqb_spec x c) as [->|_].
  - exfalso. apply H. now left.
  - apply IH. intros Hin. apply H. now right.
Qed.

Lemma indexOf_from_first (c : code_unit) (a b : jsstring) (i : Z) :
  ~ In c a -> indexOf_from c (a ++ c :: b) i = (i + Z.of_nat (length a))%Z.
Proof.
  revert i; induction a as [|x a IH]; intros i H; simpl.
  - rewrite N.eqb_refl. lia.
  - destruct (N.eqb_spec x c) as [->|_].
    + exfalso. apply H. now left.
    + rewrite IH by (intros Hin; apply H; now right). lia.
Qed.

Lemma slice_prefix (a : jsstring) (c : code_unit) (b : jsstring) :
  slice (a ++ c :: b) 0 (Some (Z.of_nat (length a))) = a.
Proof.
  unfold slice, slice_index. rewrite length_app. simpl length.
  replace (0 <? 0)%Z with false by reflexivity.
  destruct (Z.of_nat (length a) <? 0)%Z eqn:E; [apply Z.ltb_lt in E; lia|].
  rewrite Z.min_l by lia.
  rewrite Z.min_l by lia. rewrite Z.sub_0_r, Nat2Z.id.
  change (Z.to_nat 0) with 0%nat. simpl skipn.
  now rewrite firstn_app, Nat.sub_diag, firstn_all, app_nil_r.
Qed.

Lemma slice_suffix (a : jsstring) (c : code_unit) (b : jsstring) :
  slice (a ++ c :: b) (Z.of_nat (length a) + 1) None = b.
Proof.
  unfold slice, slice_index. rewrite length_app. simpl length.
  destruct (Z.of_nat (length a) + 1 <? 0)%Z eqn:E; [apply Z.ltb_lt in E; lia|].
  rewrite Z.min_l by lia.
  replace (Z.to_nat (Z.of_nat (length a) + 1)) with (length a + 1)%nat by lia.
  replace (a ++ c :: b) with ((a ++ [c]) ++ b) by (now rewrite <- app_assoc).
  rewrite skipn_app, skipn_all2 by (rewrite length_app; simpl; lia).
  rewrite length_app. simpl. replace (length a + 1 - (length a + 1))%nat with 0%nat by lia.
  simpl. apply firstn_all2. lia.
Qed.

(** The suffix of a string from an index on. *)
Lemma slice_from (s : jsstring) (i : nat) :
  (i <= length s)%nat -> slice s (Z.of_nat i) None = skipn i s.
Proof.
  intros Hi. unfold slice, slice_index.
  destruct (Z.of_nat i <? 0)%Z eqn:E; [apply Z.ltb_lt in E; lia|].
  rewrite Z.min_l by lia. rewrite Nat2Z.id.
  apply firstn_all2. rewrite length_skipn. lia.
Qed.

Section Pure.

Context {Num : Numbers} {RT : Runtime}.

(** ** [parseModelSpec] *)

Lemma parseModelSpec_split (a b : jsstring) :
  ~ In slash a ->
  parseModelSpec (a ++ slash :: b) =
  if str_falsy (trim a) || str_falsy (trim b)
  then Throw (Error (js "Invalid model spec: " ++ a ++ slash :: b))
  else Ret {| providerID := trim a; modelID := trim b |}.
Proof.
  intros H. unfold parseModelSpec, indexOf.
  rewrite indexOf_from_first by assumption. rewrite Z.add_0_l.
  destruct (Z.of_nat (length a) =? -1)%Z eqn:E; [apply Z.eqb_eq in E; lia|].
  now rewrite slice_prefix, slice_suffix.
Qed.

(** C7, as the code has it.  [parseModelSpec] splits on the first
    slash and answers the two halves, each trimmed of surrounding white
    space; it fails when there is no slash and when a trimmed half is
    empty (so also when a half is empty). *)
Theorem parseModelSpec_trimmed_halves (spec : jsstring) :
  (~ In slash spec ->
   parseModelSpec spec = Throw (Error (js "Invalid model spec: " ++ spec)))
  /\ (forall a b, spec = a ++ slash :: b -> ~ In slash a ->
      (trim a = [] \/ trim b = [] ->
       parseModelSpec spec = Throw (Error (js "Invalid model spec: " ++ spec)))
      /\ (a = [] \/ b = [] ->
          parseModelSpec spec = Throw (Error (js "Invalid model spec: " ++ spec)))
      /\ (trim a <> [] -> trim b <> [] ->
          parseModelSpec spec = Ret {| providerID := trim a; modelID := trim b |}))
  /\ parseModelSpec (js "provider/model-id")
     = Ret {| providerID := js "provider"; modelID := js "model-id" |}.
Proof.
  split; [|split].
  - intros H. unfold parseModelSpec, indexOf.
    now rewrite indexOf_from_absent.
  - intros a b -> H. rewrite parseModelSpec_split by assumption.
    split; [|split].
    + intros [-> | ->]; simpl; [reflexivity|].
      now rewrite orb_true_r.
    + intros [-> | ->]; simpl; [reflexivity|].
      now rewrite orb_true_r.
    + intros Ha Hb. destruct (trim a); [contradiction|].
      destruct (trim b); [contradiction|]. reflexivity.
  - reflexivity.
Qed.

End Pure.

(** ** The checklist predicate *)

Lemma match_star_fallback (p : code_unit -> bool)
  (k : option code_unit -> jsstring -> bool) prev s :
  k prev s = true -> match_star p k prev s = true.
Proof. intros H. destruct s; simpl; rewrite H; [reflexivity|apply orb_true_r]. Qed.

Lemma match_star_spec (p : code_unit -> bool)
  (k : option code_unit -> jsstring -> bool) prev s :
  match_star p k prev s = true <->
  exists ws rest, s = ws ++ rest /\ forallb p ws = true
                  /\ k (last_before prev ws) rest = true.
Proof.
  split.
  - revert prev. induction s as [|c s IH]; intros prev H; simpl in H.
    + now exists [], [].
    + apply orb_true_iff in H as [H|H].
      * apply andb_true_iff in H as [Hc H].
        destruct (IH _ H) as (ws & rest & -> & Hws & Hk).
        exists (c :: ws), rest. simpl. rewrite Hc, Hws. now repeat split.
      * now exists [], (c :: s).
  - intros (ws & rest & -> & Hws & Hk). revert prev Hk.
    induction ws as [|c ws IH]; intros prev Hk.
    + now apply match_star_fallback.
    + simpl in Hws. apply andb_true_iff in Hws as [Hc Hws].
      simpl. rewrite Hc, (IH Hws (Some c) Hk). reflexivity.
Qed.

Lemma regex_search_spec (pattern : list atom) prev s :
  regex_search pattern prev s = true <->
  exists pre post, s = pre ++ post
                   /\ match_here pattern (last_before prev pre) post = true.
Proof.
  split.
  - revert prev. induction s as [|c s IH]; intros prev H; simpl in H.
    + rewrite orb_false_r in H. now exists [], [].
    + apply orb_true_iff in H as [H|H].
      * now exists [], (c :: s).
      * destruct (IH _ H) as (pre & post & -> & Hm). now exists (c :: pre), post.
  - intros (pre & post & -> & Hm). revert prev Hm.
    induction pre as [|c pre IH]; intros prev Hm.
    + simpl in *. destruct post; simpl; now rewrite Hm.
    + simpl. rewrite (IH (Some c) Hm). apply orb_true_r.
Qed.

Lemma at_line_start_ends_line (pre : jsstring) :
  at_line_start (last_before None pre) = true <-> ends_line pre.
Proof.
  unfold ends_line. destruct (list_ends pre) as [->|(t & d & ->)].
  - simpl. split; [now left|reflexivity].
  - unfold last_before. rewrite fold_left_app. simpl. split.
    + intros H. right. now exists t, d.
    + intros [H|(t' & d' & E & H)].
      * destruct t; discriminate.
      * apply app_inj_tail in E as [_ ->]. exact H.
Qed.

Lemma nonempty_run (p : code_unit -> bool) (c : code_unit) (ws : jsstring) :
  p c = true -> forallb p ws = true ->
  c :: ws <> [] /\ forallb p (c :: ws) = true.
Proof. intros Hc Hws. split; [discriminate|]. simpl. now rewrite Hc, Hws. Qed.

(** The pattern, anchored: it matches exactly when the position is at a
    line start and continues as [unchecked_here] says. *)
Lemma match_unchecked_pattern prev s :
  match_here unchecked_pattern prev s = true <->
  at_line_start prev = true /\ unchecked_here s.
Proof.
  unfold unchecked_pattern, unchecked_here.
  cbn [match_here]. rewrite andb_true_iff, match_star_spec. split.
  - intros (Hl & ws & r1 & -> & Hws & H). split; [exact Hl|].
    destruct r1 as [|m r1]; [discriminate|].
    apply andb_true_iff in H as [Hm H].
    destruct r1 as [|x r1]; [discriminate|].
    apply andb_true_iff in H as [Hx H].
    apply match_star_spec in H as (ws1 & r2 & -> & Hws1 & H).
    destruct r2 as [|b1 r2]; [discriminate|].
    apply andb_true_iff in H as [Hb1 H]. apply N.eqb_eq in Hb1. subst b1.
    destruct r2 as [|w r2]; [discriminate|].
    apply andb_true_iff in H as [Hw H].
    destruct r2 as [|b2 r2]; [discriminate|].
    apply andb_true_iff in H as [Hb2 _]. apply N.eqb_eq in Hb2. subst b2.
    exists ws, m, (x :: ws1), w, r2.
    destruct (nonempty_run is_js_space x ws1 Hx Hws1) as [Hne Hall].
    now repeat split.
  - intros (Hl & ws & m & ws1 & w & rest & -> & Hws & Hm & Hne & Hws1 & Hw).
    split; [exact Hl|]. exists ws, (m :: ws1 ++ 91%N :: w :: 93%N :: rest).
    repeat split; [exact Hws|]. rewrite Hm. simpl.
    destruct ws1 as [|x ws1]; [contradiction|]. simpl in Hws1.
    apply andb_true_iff in Hws1 as [Hx Hws1]. simpl. rewrite Hx. simpl.
    apply match_star_spec. exists ws1, (91%N :: w :: 93%N :: rest).
    repeat split; [exact Hws1|]. now rewrite Hw.
Qed.

(** The test of [hasUnfinishedTasks], on the content: it holds exactly
    when the pattern matches at the start of some line. *)
Lemma has_unchecked_spec (content : jsstring) :
  has_unchecked content = true <->
  exists pre post, content = pre ++ post /\ ends_line pre /\ unchecked_here post.
Proof.
  unfold has_unchecked, regex_test. rewrite regex_search_spec. split.
  - intros (pre & post & -> & H). apply match_unchecked_pattern in H as [Hl H].
    exists pre, post. repeat split; [|exact H]. now apply at_line_start_ends_line.
  - intros (pre & post & -> & Hl & H). exists pre, post. split; [reflexivity|].
    apply match_unchecked_pattern. split; [|exact H].
    now apply at_line_start_ends_line.
Qed.

Section Checklist.

Context {Num : Numbers} {W : World}.

(** [hasUnfinishedTasks] reads the file once and answers the test of
    its content; a failure to read is thrown on. *)
Lemma hasUnfinishedTasks_runs (planPath : jsstring) (h : history) :
  hasUnfinishedTasks planPath h =
  (match read_file h planPath with
   | Ret content => Ret (has_unchecked content)
   | Throw e => Throw e
   | Diverge => Diverge
   end, ReadFile planPath :: h).
Proof.
  unfold hasUnfinishedTasks, bind, readFile, ret.
  now destruct (read_file h planPath).
Qed.

(** C3, as the code has it.  On the content read from the checklist
    file, [hasUnfinishedTasks] returns true exactly when, at the start of
    some line, the content continues with any white space, a bullet
    marker, at least one white space, an opening bracket, exactly one
    white space and a closing bracket; white space includes the line
    terminators, so a match may run over several lines.  The four
    examples of the claim come out as stated. *)
Theorem hasUnfinishedTasks_iff (planPath : jsstring) (h : history) (content : jsstring) :
  read_file h planPath = Ret content ->
  hasUnfinishedTasks planPath h = (Ret (has_unchecked content), ReadFile planPath :: h)
  /\ (has_unchecked content = true <->
      exists pre post, content = pre ++ post /\ ends_line pre /\ unchecked_here post)
  /\ has_unchecked (js "- [ ] task") = true
  /\ has_unchecked (js "- [x] task") = false
  /\ has_unchecked (js "  * [ ] nested") = true
  /\ has_unchecked (js "no bracket tasks at all") = false.
Proof.
  intros Hread. split; [|split; [apply has_unchecked_spec|now repeat split]].
  now rewrite hasUnfinishedTasks_runs, Hread.
Qed.

End Checklist.


Section Adapter.

Context {Num : Numbers} {RT : Runtime}.

(** ** [isFindingsEmpty] *)

Lemma object_test (v : value) :
  negb (truthy v) || negb (is_typeof v "object") = negb (is_object v).
Proof.
  destruct v as [| |b|n|s| | | |]; try reflexivity.
  - now destruct b.
  - simpl. now rewrite orb_true_r.
  - simpl. now rewrite orb_true_r.
Qed.

(** C6.  [isFindingsEmpty] throws on a value that is not an object and
    on an object whose [findings] is not an array (so also on one with
    no [findings] at all); on an object with a [findings] array it
    answers whether the array has no element. *)
Theorem isFindingsEmpty_spec (v : value) :
  (is_object v = false ->
   isFindingsEmpty v = Throw (Error (js "Review JSON was not an object.")))
  /\ (is_object v = true -> isArray (get v (js "findings")) = false ->
      isFindingsEmpty v = Throw (Error (js "Review JSON is missing a findings array.")))
  /\ (forall props, v = VObj props -> lookup (js "findings") props = None ->
      isFindingsEmpty v = Throw (Error (js "Review JSON is missing a findings array.")))
  /\ (forall items, is_object v = true -> get v (js "findings") = VArr items ->
      isFindingsEmpty v = Ret (match items with [] => true | _ :: _ => false end)).
Proof.
  unfold isFindingsEmpty. rewrite object_test. repeat split.
  - now intros ->.
  - intros -> ->. reflexivity.
  - intros props -> H. simpl. now rewrite H.
  - intros items -> ->. simpl. now destruct items.
Qed.

(** ** [unwrap] *)

(** What [unwrap] does, case by case. *)
Lemma unwrap_cases (r : value) (label : jsstring) :
  unwrap r label =
  if has_property (js "data") r then
    if truthy (get r (js "error")) then
      Throw (Error (label ++ js " failed: " ++ formatError (get r (js "error"))))
    else Ret (get r (js "data"))
  else Ret r.
Proof.
  unfold unwrap. destruct r; try reflexivity.
  all: simpl; try (destruct b; reflexivity); try now rewrite andb_false_r.
Qed.

(** A promise goes through [unwrap] untouched, whatever it settles to. *)
Lemma unwrap_promise (rejected : bool) (settled : value) (label : jsstring) :
  unwrap (VPromise rejected settled) label = Ret (VPromise rejected settled).
Proof. reflexivity. Qed.

(** C8 fails on the code.  A result that carries an error payload and
    has no [data] field is returned as it is: [unwrap] looks for the
    error only inside the test for a [data] field. *)
Theorem unwrap_returns_error_payload (error : value) (label : jsstring) :
  unwrap (VObj [(js "error", error)]) label = Ret (VObj [(js "error", error)]).
Proof. reflexivity. Qed.

End Adapter.

(** ** [JSON.parse]: no text holds a second text from an inner brace on *)

Section Json.

Context {Num : Numbers}.

Ltac split_ifs H :=
  repeat match type of H with
         | context [if ?b then _ else _] => destruct b eqn:?
         end.

Lemma lex_default_plain (c : code_unit) q out :
  c <> 34%N -> lex_default c = Some (q, out) -> lex_plain q.
Proof.
  intros Hc H. unfold lex_default in H. split_ifs H; inversion H; subst;
    try exact I.
  match goal with
  | E : (c =? 34)%N = true |- _ => apply N.eqb_eq in E; contradiction
  end.
Qed.

Lemma lex_default_brace : lex_default brace = Some (LDefault, [TLBrace]).
Proof. reflexivity. Qed.

Lemma lex_step_default_brace :
  lex_step LDefault brace = Some (LDefault, [TLBrace]).
Proof. reflexivity. Qed.

Lemma plain_step (q : lstate) (c : code_unit) q' out :
  lex_plain q -> c <> 34%N -> lex_step q c = Some (q', out) -> lex_plain q'.
Proof.
  intros Hq Hc H. destruct q; try contradiction; simpl in H.
  - eapply lex_default_plain; eassumption.
  - destruct (is_number_char c); [now inversion H|].
    unfold after_flush in H. destruct (lex_flush (LNumber acc)); [|discriminate].
    destruct (lex_default c) as [[q1 o1]|] eqn:E; [|discriminate].
    inversion H; subst. eapply lex_default_plain; eassumption.
  - destruct (is_lower c); [now inversion H|].
    unfold after_flush in H. destruct (lex_flush (LWord acc)); [|discriminate].
    destruct (lex_default c) as [[q1 o1]|] eqn:E; [|discriminate].
    inversion H; subst. eapply lex_default_plain; eassumption.
Qed.

Lemma plain_step_quote (q : lstate) q' out :
  lex_plain q -> lex_step q 34%N = Some (q', out) -> lex_in_string q'.
Proof.
  intros Hq H. destruct q; try contradiction; simpl in H.
  - inversion H. exact I.
  - unfold after_flush in H. destruct (lex_flush (LNumber acc)); [|discriminate].
    inversion H. exact I.
  - unfold after_flush in H. destruct (lex_flush (LWord acc)); [|discriminate].
    inversion H. exact I.
Qed.

Lemma plain_step_backslash (q : lstate) :
  lex_plain q -> lex_step q 92%N = None.
Proof.
  intros Hq. destruct q; try contradiction; simpl.
  - reflexivity.
  - unfold after_flush. now destruct (lex_flush (LNumber acc)).
  - unfold after_flush. now destruct (lex_flush (LWord acc)).
Qed.

Lemma string_step (acc : jsstring) (c : code_unit) q' out :
  c <> 34%N -> c <> 92%N ->
  lex_step (LString acc) c = Some (q', out) -> lex_in_string q'.
Proof.
  intros H1 H2 H. simpl in H.
  destruct (N.eqb_spec c 34); [contradiction|].
  destruct (N.eqb_spec c 92); [contradiction|].
  destruct (c <? 32)%N; [discriminate|]. inversion H. exact I.
Qed.

Lemma string_step_quote (acc : jsstring) :
  lex_step (LString acc) 34%N = Some (LDefault, [TString (rev acc)]).
Proof. reflexivity. Qed.

Lemma lex_run_step (q : lstate) (c : code_unit) (s : jsstring) :
  lex_run q (c :: s) =
  match lex_step q c with
  | Some (q', out) =>
      match lex_run q' s with
      | Some rest => Some (out ++ rest)
      | None => None
      end
  | None => None
  end.
Proof. reflexivity. Qed.

(** Two runs of the lexer over the same text, one begun inside a string
    and one outside: if the first succeeds, the second fails. *)
Lemma lex_parity (s : jsstring) :
  forall q1 q2, lex_opposite q1 q2 ->
  lex_run q1 s <> None -> lex_run q2 s = None.
Proof.
  induction s as [|c s IH]; intros q1 q2 Hop H1.
  - destruct Hop as [[Hs _]|[_ Hs]].
    + destruct q1; simpl in *; try contradiction; congruence.
    + destruct q2; simpl in *; try contradiction; reflexivity.
  - rewrite lex_run_step in *.
    destruct (lex_step q1 c) as [[q1' o1]|] eqn:E1; [|now contradiction H1].
    destruct (lex_step q2 c) as [[q2' o2]|] eqn:E2; [|reflexivity].
    assert (H1' : lex_run q1' s <> None)
      by (intros E; rewrite E in H1; now apply H1).
    enough (Hop' : lex_opposite q1' q2') by (now rewrite (IH _ _ Hop' H1')).
    destruct Hop as [[Hs Hp]|[Hp Hs]].
    + destruct q1 as [|acc| | | |]; try contradiction.
      destruct (N.eq_dec c 34) as [->|Hq].
      * right. split; [|eapply plain_step_quote; eassumption].
        rewrite string_step_quote in E1. now inversion E1.
      * destruct (N.eq_dec c 92) as [->|Hb].
        -- now rewrite plain_step_backslash in E2.
        -- left. split; [eapply string_step; eassumption|].
           eapply plain_step; eassumption.
    + destruct q2 as [|acc| | | |]; try contradiction.
      destruct (N.eq_dec c 34) as [->|Hq].
      * left. split; [eapply plain_step_quote; eassumption|].
        rewrite string_step_quote in E2. now inversion E2.
      * destruct (N.eq_dec c 92) as [->|Hb].
        -- now rewrite plain_step_backslash in E1.
        -- right. split; [eapply plain_step; eassumption|].
           eapply string_step; eassumption.
Qed.

(** The tokens of a text that continues with a brace end with the tokens
    of the text from the brace on, unless that text has none. *)
Lemma lex_split (b : jsstring) (a : jsstring) :
  forall q ts, lex_run q (a ++ brace :: b) = Some ts ->
  lex_run LDefault (brace :: b) = None
  \/ exists ts1 ts2, ts = ts1 ++ ts2 /\ lex_run LDefault (brace :: b) = Some ts2.
Proof.
  induction a as [|c a IH]; intros q ts H.
  - simpl app in H. destruct q as [|acc|acc|acc ds|acc|acc].
    + right. now exists [], ts.
    + left. apply (@lex_parity _ (LString acc) LDefault).
      * left. now split.
      * now rewrite H.
    + discriminate.
    + discriminate.
    + right. rewrite lex_run_step in H. simpl lex_step in H.
      change (is_number_char brace) with false in H. cbv iota in H.
      unfold after_flush in H.
      destruct (lex_flush (LNumber acc)) as [o|]; [|discriminate].
      rewrite lex_default_brace in H.
      destruct (lex_run LDefault b) as [rest|] eqn:E; [|discriminate].
      inversion H; subst. exists o, (TLBrace :: rest). split.
      * now rewrite <- app_assoc.
      * rewrite lex_run_step, lex_step_default_brace, E. reflexivity.
    + right. rewrite lex_run_step in H. simpl lex_step in H.
      change (is_lower brace) with false in H. cbv iota in H.
      unfold after_flush in H.
      destruct (lex_flush (LWord acc)) as [o|]; [|discriminate].
      rewrite lex_default_brace in H.
      destruct (lex_run LDefault b) as [rest|] eqn:E; [|discriminate].
      inversion H; subst. exists o, (TLBrace :: rest). split.
      * now rewrite <- app_assoc.
      * rewrite lex_run_step, lex_step_default_brace, E. reflexivity.
  - simpl app in H. rewrite lex_run_step in H.
    destruct (lex_step q c) as [[q' o]|]; [|discriminate].
    destruct (lex_run q' (a ++ brace :: b)) as [rest|] eqn:E; [|discriminate].
    inversion H; subst.
    destruct (IH _ _ E) as [Hn|(ts1 & ts2 & -> & H2)]; [now left|right].
    exists (o ++ ts1), ts2. split; [now rewrite app_assoc|exact H2].
Qed.

(** *** The parser *)

Lemma parse_run_app (ts1 ts2 : list token) :
  forall q, parse_run q (ts1 ++ ts2) =
            match parse_run q ts1 with
            | Some q' => parse_run q' ts2
            | None => None
            end.
Proof.
  induction ts1 as [|t ts1 IH]; intros q; simpl; [reflexivity|].
  destruct (parse_step q t); [apply IH|reflexivity].
Qed.

Lemma parse_run_done (v : value) (ts : list token) q :
  parse_run (PDone v) ts = Some q -> ts = [] /\ q = PDone v.
Proof. destruct ts; simpl; [intros H; now inversion H|discriminate]. Qed.

Lemma complete_on_frames (below : list frame) (v : value) (stack : list frame) :
  on_frames below (complete v stack) = complete v (stack ++ below).
Proof. destruct stack as [|[done|props key] stack]; reflexivity. Qed.

Lemma begin_value_on_frames (below : list frame) (t : token) (stack : list frame) q :
  begin_value t stack = Some q ->
  begin_value t (stack ++ below) = Some (on_frames below q).
Proof.
  destruct t; simpl; intros H; inversion H; subst; try reflexivity;
    now rewrite complete_on_frames.
Qed.

(** A step made above further frames is the same step. *)
Lemma parse_step_on_frames (below : list frame) (q : pstate) (t : token) q' :
  ~ parse_done q -> parse_step q t = Some q' ->
  parse_step (on_frames below q) t = Some (on_frames below q').
Proof.
  intros Hq H. destruct q; simpl in *; try contradiction.
  - now apply begin_value_on_frames.
  - destruct t; try (apply (begin_value_on_frames below _ (FArr [] :: stack)); exact H).
    inversion H. now rewrite complete_on_frames.
  - destruct t; inversion H; subst; try reflexivity.
    now rewrite complete_on_frames.
  - destruct t; inversion H; subst; try reflexivity.
    now rewrite complete_on_frames.
  - destruct t; inversion H; subst; reflexivity.
  - destruct t; inversion H; subst; reflexivity.
  - destruct t; inversion H; subst; try reflexivity.
    now rewrite complete_on_frames.
Qed.

(** A run that ends with a complete value, made above further frames,
    ends with that value handed to the frames. *)
Lemma parse_run_on_frames (below : list frame) (v : value) (ts : list token) :
  forall q, ~ parse_done q -> parse_run q ts = Some (PDone v) ->
  parse_run (on_frames below q) ts = Some (complete v below).
Proof.
  induction ts as [|t ts IH]; intros q Hq H; simpl in H.
  - inversion H; subst. now contradiction Hq.
  - destruct (parse_step q t) as [q'|] eqn:E; [|discriminate].
    simpl. rewrite (parse_step_on_frames below _ _ Hq E).
    destruct q'; try (apply IH; [exact (fun f => f)|exact H]).
    apply parse_run_done in H as [-> H]. inversion H; subst. reflexivity.
Qed.

Lemma complete_not_done (v : value) (stack : list frame) :
  stack <> [] -> ~ parse_done (complete v stack).
Proof. destruct stack as [|[done|props key] stack]; simpl; auto. Qed.

(** After a step, a state that awaits a value has a frame below it. *)
Lemma parse_step_value_stack (q : pstate) (t : token) (stack : list frame) :
  parse_step q t = Some (PValue stack) -> stack <> [].
Proof.
  destruct q; simpl.
  - destruct t; simpl; intros H; inversion H;
      destruct stack0 as [|[|] ?]; discriminate.
  - destruct t; simpl; intros H; inversion H;
      destruct stack0 as [|[|] ?]; discriminate.
  - destruct t; intros H; inversion H; subst; try discriminate.
    destruct stack0 as [|[|] ?]; discriminate.
  - destruct t; intros H; inversion H; subst; try discriminate.
    destruct stack0 as [|[|] ?]; discriminate.
  - destruct t; intros H; inversion H.
  - destruct t; intros H; inversion H; subst; discriminate.
  - destruct t; intros H; inversion H; subst; try discriminate.
    destruct stack0 as [|[|] ?]; discriminate.
  - discriminate.
Qed.

(** The tokens of a complete text, cut before an inner opening brace:
    what follows the cut is no complete text. *)
Lemma parse_suffix_fails (ts1 ts2 : list token) (v v' : value) :
  ts1 <> [] ->
  parse_run (PValue []) (ts1 ++ TLBrace :: ts2) = Some (PDone v) ->
  parse_run (PValue []) (TLBrace :: ts2) <> Some (PDone v').
Proof.
  intros Hne H Hin.
  destruct (list_ends ts1) as [->|(ts0 & t & ->)]; [contradiction|].
  rewrite <- app_assoc, parse_run_app in H.
  destruct (parse_run (PValue []) ts0) as [q0|]; [|discriminate].
  simpl app in H. cbn [parse_run] in H.
  destruct (parse_step q0 t) as [q1|] eqn:E1; [|discriminate].
  destruct (parse_step q1 TLBrace) as [q2|] eqn:E2; [|discriminate].
  simpl in Hin.
  assert (Hq2 : exists below, below <> [] /\ q2 = on_frames below (PObjOpen [])).
  { destruct q1; simpl in E2; try discriminate.
    - inversion E2. exists stack. split; [|reflexivity].
      eapply parse_step_value_stack; eassumption.
    - inversion E2. exists (FArr [] :: stack). split; [discriminate|reflexivity]. }
  destruct Hq2 as (below & Hb & ->).
  rewrite (@parse_run_on_frames below _ _ (PObjOpen []) (fun f => f) Hin) in H.
  inversion H as [H']. apply (complete_not_done v' Hb). now rewrite H'.
Qed.

(** A text that parses holds no second text that parses from an inner
    brace on. *)
Lemma inner_suffix_rejected (a b : jsstring) (v : value) :
  JSON_parse (brace :: a ++ brace :: b) = Some v ->
  JSON_parse (brace :: b) = None.
Proof.
  unfold JSON_parse, lex. intros H.
  destruct (lex_run LDefault (brace :: a ++ brace :: b)) as [ts|] eqn:E;
    [|discriminate].
  rewrite lex_run_step, lex_step_default_brace in E.
  destruct (lex_run LDefault (a ++ brace :: b)) as [rest|] eqn:Er; [|discriminate].
  inversion E; subst ts. clear E.
  destruct (lex_split _ _ _ Er) as [Hn|(ts1 & ts2 & -> & H2)].
  - now rewrite Hn.
  - rewrite H2.
    assert (Hts2 : exists ts3, ts2 = TLBrace :: ts3).
    { rewrite lex_run_step, lex_step_default_brace in H2.
      destruct (lex_run LDefault b) as [r|]; [|discriminate].
      inversion H2. now exists r. }
    destruct Hts2 as (ts3 & ->).
    simpl app in H.
    destruct (parse_run (PValue []) (TLBrace :: ts1 ++ TLBrace :: ts3))
      as [q|] eqn:Ep; [|discriminate H].
    destruct q as [?|?|? ?|?|? ?|? ? ?|? ?|w]; try discriminate H.
    destruct (parse_run (PValue []) (TLBrace :: ts3)) as [q'|] eqn:Ei;
      [|reflexivity].
    destruct q' as [?|?|? ?|?|? ?|? ? ?|? ?|w']; try reflexivity.
    exfalso. apply (@parse_suffix_fails (TLBrace :: ts1) ts3 w w').
    + discriminate.
    + exact Ep.
    + exact Ei.
Qed.

End Json.

(** ** The backward scan of [extractReviewJson] *)

(** The search downwards finds a position at or above any position that
    holds the code unit. *)
Lemma lastIndexOf_down_found (c : code_unit) (s : jsstring) (p : nat) :
  nth p s 0%N = c ->
  forall k, (p <= k)%nat ->
  exists r, lastIndexOf_down c s k = Z.of_nat r
            /\ (p <= r <= k)%nat /\ nth r s 0%N = c.
Proof.
  intros Hp. induction k as [|k IH]; intros Hk.
  - assert (p = 0)%nat by lia. subst p. exists 0%nat. simpl.
    rewrite Hp, N.eqb_refl. now repeat split.
  - simpl. destruct (N.eqb_spec (nth (S k) s 0%N) c) as [E|E].
    + exists (S k). repeat split; [lia|lia|exact E].
    + destruct (Nat.eq_dec p (S k)) as [->|Hne]; [contradiction|].
      destruct IH as (r & Hr & Hrange & Hnth); [lia|].
      exists r. repeat split; [exact Hr|lia|lia|exact Hnth].
Qed.

(** The position from which [lastIndexOf(c, p)] searches. *)
Lemma lastIndexOf_position (c : code_unit) (s : jsstring) (p : nat) :
  (p < length s)%nat ->
  lastIndexOf s c (Some (Z.of_nat p)) = lastIndexOf_down c s p.
Proof.
  intros Hp. unfold lastIndexOf. destruct s as [|x s]; [simpl in Hp; lia|].
  f_equal. simpl length in *. lia.
Qed.

Lemma lastIndexOf_whole (c : code_unit) (s : jsstring) :
  s <> [] -> lastIndexOf s c None = lastIndexOf_down c s (length s - 1).
Proof.
  intros Hs. unfold lastIndexOf. destruct s as [|x s]; [contradiction|].
  f_equal. simpl length. lia.
Qed.

(** Below index 0 the search starts again at index 0. *)
Lemma lastIndexOf_before_zero (c : code_unit) (s : jsstring) :
  lastIndexOf (c :: s) c (Some (0 - 1)%Z) = 0%Z.
Proof.
  unfold lastIndexOf. simpl length.
  replace (Z.to_nat (Z.max 0 (Z.min (0 - 1) (Z.of_nat (S (length s)) - 1)))) with 0%nat by lia.
  simpl. now rewrite N.eqb_refl.
Qed.

Section Scan.

Context {Num : Numbers}.

(** One turn of the loop, in terms of [candidate]. *)
Lemma scan_step (fuel : nat) (trimmed : jsstring) (index : Z) :
  index <> (-1)%Z ->
  extractReviewJson_scan (S fuel) trimmed index =
  match candidate (slice trimmed index None) with
  | Some parsed => Ret parsed
  | None =>
      extractReviewJson_scan fuel trimmed
        (lastIndexOf trimmed brace (Some (index - 1)%Z))
  end.
Proof.
  intros Hi. simpl. destruct (Z.eqb_spec index (-1)); [contradiction|].
  unfold candidate. destruct (JSON_parse (trim (slice trimmed index None))); [|reflexivity].
  now destruct (_ && _).
Qed.

(** C5 fails on the code.  When the trimmed output begins with a brace
    and the loop accepts no candidate, the loop never ends: from index
    0 the next index, [lastIndexOf("{", -1)], is 0 again.  No amount of
    fuel gives an answer, so nothing is thrown. *)
Theorem extractReviewJson_never_returns (output rest : jsstring) :
  trim output = brace :: rest ->
  (forall i, nth i (trim output) 0%N = brace ->
             candidate (slice (trim output) (Z.of_nat i) None) = None) ->
  forall fuel, extractReviewJson fuel output = Diverge.
Proof.
  intros Ht Hrej fuel. unfold extractReviewJson. rewrite Ht. simpl str_falsy. cbv iota.
  rewrite <- Ht.
  assert (Hfound : forall k, exists r, lastIndexOf_down brace (trim output) k = Z.of_nat r
                                       /\ (r <= k)%nat /\ nth r (trim output) 0%N = brace).
  { intros k. destruct (@lastIndexOf_down_found brace (trim output) 0) with (k := k)
      as (r & Hr & Hrange & Hn); [now rewrite Ht|lia|].
    exists r. repeat split; [exact Hr|lia|exact Hn]. }
  assert (Hloop : forall fuel r, nth r (trim output) 0%N = brace ->
            extractReviewJson_scan fuel (trim output) (Z.of_nat r) = Diverge).
  { clear fuel. induction fuel as [|fuel IH]; intros r Hr; [reflexivity|].
    assert (Hlen : (r < length (trim output))%nat).
    { destruct (Nat.lt_ge_cases r (length (trim output))) as [Hl|Hl]; [exact Hl|].
      rewrite nth_overflow in Hr by assumption. discriminate Hr. }
    rewrite scan_step by lia. rewrite Hrej by assumption.
    destruct r as [|r].
    - replace (lastIndexOf (trim output) brace (Some (Z.of_nat 0 - 1)%Z)) with 0%Z
        by (rewrite Ht; symmetry; apply lastIndexOf_before_zero).
      apply (IH 0%nat). exact Hr.
    - replace (Z.of_nat (S r) - 1)%Z with (Z.of_nat r) by lia.
      rewrite lastIndexOf_position by lia.
      destruct (Hfound r) as (r' & -> & Hle & Hn). now apply IH. }
  rewrite lastIndexOf_whole by (rewrite Ht; discriminate).
  destruct (Hfound (length (trim output) - 1)%nat) as (r & -> & Hle & Hn).
  now apply Hloop.
Qed.

(** What holds of C5: an output that is empty or white space only is
    refused before the scan, and an output without any brace fails to
    parse at once. *)
Lemma extractReviewJson_empty (fuel : nat) (output : jsstring) :
  trim output = [] ->
  extractReviewJson fuel output = Throw (Error (js "Review command produced no output.")).
Proof. intros H. unfold extractReviewJson. now rewrite H. Qed.

Lemma lastIndexOf_down_none (c : code_unit) (s : jsstring) :
  c <> 0%N -> ~ In c s -> forall k, lastIndexOf_down c s k = (-1)%Z.
Proof.
  intros Hc H. assert (Hn : forall i, nth i s 0%N <> c).
  { intros i E. destruct (Nat.lt_ge_cases i (length s)) as [Hi|Hi].
    - apply H. rewrite <- E. now apply nth_In.
    - rewrite nth_overflow in E by assumption. congruence. }
  induction k as [|k IH]; simpl.
  - destruct (N.eqb_spec (nth 0 s 0%N) c) as [E|_]; [now apply Hn in E|reflexivity].
  - destruct (N.eqb_spec (nth (S k) s 0%N) c) as [E|_]; [now apply Hn in E|exact IH].
Qed.

Lemma extractReviewJson_no_brace (fuel : nat) (output : jsstring) :
  trim output <> [] -> ~ In brace (trim output) ->
  extractReviewJson (S fuel) output
  = Throw (Error (js "Failed to parse review JSON from command output.")).
Proof.
  intros Hne Hb. unfold extractReviewJson.
  destruct (trim output) as [|c t] eqn:E; [contradiction|]. simpl str_falsy. cbv iota.
  rewrite lastIndexOf_whole by discriminate.
  rewrite lastIndexOf_down_none; [reflexivity|discriminate|exact Hb].
Qed.

Lemma lastIndexOf_down_cases (c : code_unit) (s : jsstring) (k : nat) :
  lastIndexOf_down c s k = (-1)%Z
  \/ exists r, lastIndexOf_down c s k = Z.of_nat r
               /\ (r <= k)%nat /\ nth r s 0%N = c.
Proof.
  induction k as [|k IH]; simpl.
  - destruct (N.eqb_spec (nth 0 s 0%N) c) as [E|_]; [right|now left].
    exists 0%nat. now repeat split.
  - destruct (N.eqb_spec (nth (S k) s 0%N) c) as [E|_].
    + right. exists (S k). now repeat split.
    + destruct IH as [IH|(r & Hr & Hle & Hn)]; [now left|right].
      exists r. repeat split; [exact Hr|lia|exact Hn].
Qed.

(** When the trimmed output does not begin with a brace and no
    candidate is accepted, the scan runs out of braces and throws. *)
Lemma extractReviewJson_parse_failure (output : jsstring) (c : code_unit) (t : jsstring) :
  trim output = c :: t -> c <> brace ->
  (forall i, nth i (trim output) 0%N = brace ->
             candidate (slice (trim output) (Z.of_nat i) None) = None) ->
  forall fuel, (length (trim output) < fuel)%nat ->
  extractReviewJson fuel output
  = Throw (Error (js "Failed to parse review JSON from command output.")).
Proof.
  intros Ht Hc Hrej fuel Hfuel. unfold extractReviewJson. rewrite Ht.
  simpl str_falsy. cbv iota. rewrite <- Ht.
  assert (Hscan : forall fuel k, (k < fuel)%nat -> (k < length (trim output))%nat ->
            extractReviewJson_scan fuel (trim output)
              (lastIndexOf_down brace (trim output) k)
            = Throw (Error (js "Failed to parse review JSON from command output."))).
  { clear fuel Hfuel. induction fuel as [|fuel IH]; intros k Hk Hlen; [lia|].
    destruct (lastIndexOf_down_cases brace (trim output) k)
      as [->|(r & -> & Hle & Hn)]; [reflexivity|].
    rewrite scan_step by lia. rewrite Hrej by assumption.
    destruct r as [|r]; [rewrite Ht in Hn; simpl in Hn; contradiction|].
    replace (Z.of_nat (S r) - 1)%Z with (Z.of_nat r) by lia.
    rewrite lastIndexOf_position by lia. apply IH; lia. }
  rewrite lastIndexOf_whole by (rewrite Ht; discriminate).
  apply Hscan; rewrite Ht in *; simpl length in *; lia.
Qed.

(** *** The scan finds the object the output ends with *)

Lemma shape_last (u : jsstring) (d : code_unit) :
  trimmed_shape (u ++ [d]) -> is_js_space d = false.
Proof.
  intros H. inversion H as [E|c Hc E|c s d' Hc Hd E].
  - destruct u; discriminate.
  - destruct u as [|x [|y u]]; inversion E; subst; assumption.
  - change (c :: s ++ [d']) with ((c :: s) ++ [d']) in E.
    apply app_inj_tail in E as [_ ->]. exact Hd.
Qed.

Lemma suffix_shape (a : jsstring) (c : code_unit) (t : jsstring) :
  trimmed_shape (a ++ c :: t) -> is_js_space c = false -> trimmed_shape (c :: t).
Proof.
  intros H Hc. destruct (list_ends t) as [->|(t' & d & ->)]; [now constructor|].
  constructor; [exact Hc|]. apply (@shape_last (a ++ c :: t') d).
  now rewrite <- app_assoc.
Qed.

Lemma nth_split_at (s : jsstring) (r : nat) (c : code_unit) :
  c <> 0%N -> nth r s 0%N = c ->
  (r < length s)%nat /\ s = firstn r s ++ c :: skipn (S r) s.
Proof.
  intros Hc. revert r. induction s as [|x s IH]; intros r H.
  - destruct r; simpl in H; congruence.
  - destruct r as [|r]; simpl in *.
    + subst. split; [lia|reflexivity].
    + destruct (IH _ H) as [Hl E]. split; [lia|]. now rewrite <- E.
Qed.

Lemma accepted_object (text : jsstring) (obj : value) :
  trimmed_shape text -> JSON_parse text = Some obj ->
  has_property (js "findings") obj = true -> candidate text = Some obj.
Proof.
  intros Hs Hp Hf. unfold candidate. rewrite (trim_of_shape Hs), Hp, Hf.
  destruct obj; try discriminate. reflexivity.
Qed.

(** The scan accepts the rightmost candidate that passes the test: the
    candidates are taken from the last brace down, and the first one
    accepted is returned. *)
Lemma extractReviewJson_rightmost (output : jsstring) (p : nat) (obj : value) :
  nth p (trim output) 0%N = brace ->
  candidate (slice (trim output) (Z.of_nat p) None) = Some obj ->
  (forall r, (p < r)%nat -> nth r (trim output) 0%N = brace ->
             candidate (slice (trim output) (Z.of_nat r) None) = None) ->
  forall fuel, (length (trim output) - p <= fuel)%nat ->
  extractReviewJson fuel output = Ret obj.
Proof.
  intros Hnth Hacc Hrej fuel Hfuel.
  destruct (@nth_split_at (trim output) p brace) as [Hp _];
    [discriminate|exact Hnth|].
  assert (Hscan : forall fuel k, (p <= k)%nat -> (k < length (trim output))%nat ->
            (k - p < fuel)%nat ->
            extractReviewJson_scan fuel (trim output)
              (lastIndexOf_down brace (trim output) k) = Ret obj).
  { clear fuel Hfuel. induction fuel as [|fuel IH]; intros k Hpk Hk Hf'; [lia|].
    destruct (@lastIndexOf_down_found brace (trim output) p Hnth k Hpk)
      as (r & -> & Hrange & Hn).
    rewrite scan_step by lia.
    destruct (Nat.eq_dec r p) as [->|Hne]; [now rewrite Hacc|].
    rewrite Hrej by (assumption || lia).
    replace (Z.of_nat r - 1)%Z with (Z.of_nat (r - 1)) by lia.
    rewrite lastIndexOf_position by lia. apply IH; lia. }
  unfold extractReviewJson.
  destruct (trim output) as [|c t] eqn:ET; [simpl in Hp; lia|].
  simpl str_falsy. cbv iota.
  rewrite lastIndexOf_whole by discriminate.
  apply Hscan; simpl length in *; lia.
Qed.

(** C2.  When the trimmed output ends with a text that starts at a
    brace and parses as an object with a [findings] key, the scan
    returns that object, whatever stands before it, unmatched braces
    included: the candidates are taken from the rightmost brace to the
    leftmost, no brace inside the final text gives a text that parses,
    and the final text is the first candidate accepted.  Fuel beyond the
    length of the final text is enough. *)
Theorem extractReviewJson_final_object
  (output prose json : jsstring) (obj : value) :
  trim output = prose ++ brace :: json ->
  JSON_parse (brace :: json) = Some obj ->
  has_property (js "findings") obj = true ->
  forall fuel, (length json < fuel)%nat ->
  extractReviewJson fuel output = Ret obj.
Proof.
  intros Ht Hp Hf fuel Hfuel.
  pose proof (trim_shape output) as Hshape.
  set (p := length prose).
  assert (Hlen : length (trim output) = (p + S (length json))%nat)
    by (rewrite Ht, length_app; reflexivity).
  assert (Hbrace : is_js_space brace = false) by reflexivity.
  apply extractReviewJson_rightmost with (p := p); [| | |lia].
  - rewrite Ht. unfold p. now rewrite nth_middle.
  - (* the final text is accepted *)
    rewrite slice_from by lia. rewrite Ht. unfold p.
    rewrite skipn_app, skipn_all, Nat.sub_diag. simpl.
    apply accepted_object; try assumption.
    apply (@suffix_shape prose brace json); [now rewrite <- Ht|exact Hbrace].
  - (* every brace inside it is rejected *)
    intros r Hr Hn.
    destruct (@nth_split_at (trim output) r brace) as [Hl E];
      [discriminate|exact Hn|].
    rewrite slice_from by lia.
    assert (Ea : firstn r (trim output)
                 = prose ++ brace :: firstn (r - p - 1) json).
    { rewrite Ht, firstn_app. fold p.
      rewrite firstn_all2 by (unfold p; lia).
      remember (r - p - 1)%nat as m eqn:Em.
      replace (r - p)%nat with (S m) by lia. reflexivity. }
    assert (Es : skipn r (trim output) = brace :: skipn (S r) (trim output)).
    { rewrite E at 1. rewrite skipn_app, skipn_all2 by (rewrite length_firstn; lia).
      rewrite length_firstn, Nat.min_l by lia. now rewrite Nat.sub_diag. }
    assert (Ej : brace :: json
                 = brace :: firstn (r - p - 1) json
                     ++ brace :: skipn (S r) (trim output)).
    { apply (app_inv_head prose). rewrite <- Ht, E at 1. rewrite Ea.
      now rewrite <- app_assoc. }
    rewrite Es. unfold candidate.
    rewrite trim_of_shape.
    + rewrite Ej in Hp. now rewrite (inner_suffix_rejected _ _ Hp).
    + apply (@suffix_shape (firstn r (trim output)) brace (skipn (S r) (trim output)));
        [now rewrite <- E|exact Hbrace].
Qed.

End Scan.

(** ** The status poller *)

Section Poller.

Context {Num : Numbers} {RT : Runtime} {W : World}.

(** A call of the client adds its one event, whatever it answers. *)
Lemma await_unwrap_history (req : event) (label : string) (h : history) :
  snd (await_unwrap req label h) = req :: h.
Proof.
  unfold await_unwrap, bind, client_call, lift, await.
  destruct (provider h req) as [r| |]; try reflexivity.
  simpl. destruct (unwrap r (js label)) as [u| |]; try reflexivity.
Qed.

Lemma await_unwrap_run (req : event) (label : string) (h : history) :
  await_unwrap req label h = (fst (await_unwrap req label h), req :: h).
Proof.
  pose proof (await_unwrap_history req label h) as E.
  destruct (await_unwrap req label h) as [o h']. simpl in *. now subst.
Qed.

Lemma status_poll (client : nat) (root : jsstring) (h : history) :
  await_unwrap (SessionStatus client root) "session.status" (DateNow :: h)
  = (status_answer client root h, SessionStatus client root :: DateNow :: h).
Proof. apply await_unwrap_run. Qed.




Section Loop.

Variables (client : nat) (sessionID root : jsstring).
Variables (timeoutMs pollIntervalMs start : Z).

Let loop (fuel : nat) : M unit :=
  waitForSessionIdle_loop fuel client sessionID root timeoutMs pollIntervalMs start.

Let after (n : nat) (h : history) : history :=
  busy_history client root pollIntervalMs n h.







End Loop.


(** The list of known sessions: the keys of the map, or ["none"]. *)
Lemma known_list_keys (props : list (jsstring * value)) :
  known_list (VObj props)
  = match props with
    | [] => js "none"
    | _ :: _ => join (js ", ") (map fst props)
    end.
Proof. now destruct props. Qed.

Lemma known_list_none : known_list VUndefined = js "none".
Proof. reflexivity. Qed.

(** The test for a missing entry is [!status]: an entry that is there
    but falsy ([null], say) is taken for a missing one.  The provider
    gives an object for every session it knows. *)
Lemma falsy_entry_is_missing (fuel client : nat) (sessionID root : jsstring)
  (timeoutMs pollIntervalMs start : Z) (h : history) (statusMap : value) :
  (clock h - start < timeoutMs)%Z ->
  status_answer client root h = Ret statusMap ->
  truthy (get_opt statusMap sessionID) = false ->
  waitForSessionIdle_loop (S fuel) client sessionID root
    timeoutMs pollIntervalMs start h
  = (Throw (SessionMissing sessionID statusMap),
     SessionStatus client root :: DateNow :: h).
Proof.
  intros Ht Ha Hm. simpl waitForSessionIdle_loop.
  unfold bind at 1. unfold Date_now.
  apply Z.ltb_lt in Ht. rewrite Ht.
  unfold bind at 1. rewrite status_poll, Ha, Hm. reflexivity.
Qed.

End Poller.

(** ** Disposal and the review command *)

Section Review.

Context {Num : Numbers} {RT : Runtime} {W : World}.

Lemma dispose_call_run (instance : nat) (root : jsstring) (h : history) :
  dispose_call instance root h
  = (dispose_answer instance root h, InstanceDispose instance root :: h).
Proof.
  unfold dispose_answer, dispose_call, bind.
  rewrite await_unwrap_run.
  now destruct (fst (await_unwrap (InstanceDispose instance root) "instance.dispose" h)).
Qed.

(** [disposeInstance] asks for the disposal, logs a failure of it
    without raising it, and closes the server. *)
Lemma disposeInstance_run (instance : nat) (root : jsstring) (h : history) :
  dispose_answer instance root h <> Diverge ->
  let h' := dispose_log (dispose_answer instance root h)
            ++ InstanceDispose instance root :: h in
  disposeInstance instance root h
  = (match provider h' (ServerClose instance) with
     | Ret _ => Ret tt
     | Throw e => Throw e
     | Diverge => Diverge
     end, ServerClose instance :: h').
Proof.
  intros Hd h'. subst h'. unfold disposeInstance, bind, try_catch.
  rewrite dispose_call_run.
  destruct (dispose_answer instance root h) as [[]|e|]; [| |contradiction].
  - simpl. unfold client_call.
    now destruct (provider (InstanceDispose instance root :: h) (ServerClose instance)).
  - simpl. unfold client_call.
    now destruct (provider _ (ServerClose instance)).
Qed.

(** C9.  Once the instance of the review command exists, whatever the
    guarded phase does, return a review result or throw, the disposal is
    asked next, a failure of it is logged and not raised, the server is
    closed, and the outcome of the phase stands (unless closing the
    server itself throws). *)
Theorem runReviewCommand_disposes
  (fuel : nat) (root : jsstring) (h : history) (instance : nat)
  (o : result value) (h2 : history) :
  open_instance h (buildConfig DEFAULT_MODEL) = Ret instance ->
  runReviewCommand_body fuel instance root
    (CreateOpencode (buildConfig DEFAULT_MODEL) :: h) = (o, h2) ->
  o <> Diverge ->
  dispose_answer instance root h2 <> Diverge ->
  let h3 := dispose_log (dispose_answer instance root h2)
            ++ InstanceDispose instance root :: h2 in
  runReviewCommand fuel root h
  = (match provider h3 (ServerClose instance) with
     | Ret _ => o
     | Throw e => Throw e
     | Diverge => Diverge
     end, ServerClose instance :: h3)
  /\ (forall v, provider h3 (ServerClose instance) = Ret v ->
      runReviewCommand fuel root h = (o, ServerClose instance :: h3))
  /\ (forall e, dispose_answer instance root h2 = Throw e ->
      h3 = Log (js "[orchestrator] Instance dispose failed: " ++ formatError e)
             :: InstanceDispose instance root :: h2).
Proof.
  intros Hopen Hbody Ho Hd h3.
  assert (Hrun : runReviewCommand fuel root h
                 = (match provider h3 (ServerClose instance) with
                    | Ret _ => o
                    | Throw e => Throw e
                    | Diverge => Diverge
                    end, ServerClose instance :: h3)).
  { unfold runReviewCommand, bind, createOpencode. rewrite Hopen.
    unfold try_finally. rewrite Hbody.
    rewrite (@disposeInstance_run instance root h2 Hd). fold h3.
    destruct o as [r|e|]; [| |contradiction];
      now destruct (provider h3 (ServerClose instance)). }
  split; [exact Hrun|split].
  - intros v Hv. now rewrite Hrun, Hv.
  - intros e He. subst h3. now rewrite He.
Qed.

(** Without an instance there is nothing to dispose of: the failure to
    create it is the outcome. *)
Lemma runReviewCommand_no_instance (fuel : nat) (root : jsstring) (h : history) e :
  open_instance h (buildConfig DEFAULT_MODEL) = Throw e ->
  runReviewCommand fuel root h
  = (Throw e, [CreateOpencode (buildConfig DEFAULT_MODEL)] ++ h).
Proof.
  intros Hopen. unfold runReviewCommand, bind, createOpencode. now rewrite Hopen.
Qed.

End Review.

(** ** The review convergence loop *)

Section Counts.

Context {Num : Numbers} {RT : Runtime} {W : World}.

Variable p : event -> bool.

Lemma count_events_app (a b : history) :
  count_events p (a ++ b) = (count_events p a + count_events p b)%nat.
Proof. unfold count_events. now rewrite filter_app, length_app. Qed.

Lemma count_events_cons (e : event) (h : history) :
  count_events p (e :: h) = ((if p e then 1 else 0) + count_events p h)%nat.
Proof. unfold count_events. simpl. now destruct (p e). Qed.

Lemma silent_adds A (m : M A) : silent p m -> adds p 0 m.
Proof. intros H h a h' E. exact (H _ _ _ E). Qed.

Lemma silent_ret A (a : A) : silent p (ret a).
Proof. intros h o h' E. inversion E. now exists []. Qed.

Lemma silent_throw A (e : value) : silent p (@throw _ A e).
Proof. intros h o h' E. inversion E. now exists []. Qed.

Lemma silent_diverge A : silent p (@diverge _ A).
Proof. intros h o h' E. inversion E. now exists []. Qed.

Lemma silent_lift A (o : result A) : silent p (lift o).
Proof. intros h o' h' E. inversion E. now exists []. Qed.

Lemma silent_event A (f : history -> result A) (e : event) :
  p e = false -> silent p (fun h => (f h, e :: h)).
Proof.
  intros He h o h' E. inversion E. exists [e]. split; [reflexivity|].
  unfold count_events. simpl. now rewrite He.
Qed.

Lemma silent_bind A B (m : M A) (f : A -> M B) :
  silent p m -> (forall a, silent p (f a)) -> silent p (bind m f).
Proof.
  intros Hm Hf h o h' E. unfold bind in E.
  destruct (m h) as [[a|e|] h1] eqn:Em; destruct (Hm _ _ _ Em) as (n1 & -> & C1).
  - destruct (Hf a _ _ _ E) as (n2 & -> & C2). exists (n2 ++ n1).
    split; [now rewrite app_assoc|]. rewrite count_events_app. lia.
  - inversion E; subst. now exists n1.
  - inversion E; subst. now exists n1.
Qed.

Lemma silent_try_catch A (body : M A) (handler : value -> M A) :
  silent p body -> (forall e, silent p (handler e)) ->
  silent p (try_catch body handler).
Proof.
  intros Hb Hh h o h' E. unfold try_catch in E.
  destruct (body h) as [[a|e|] h1] eqn:Eb; destruct (Hb _ _ _ Eb) as (n1 & -> & C1).
  - inversion E; subst. now exists n1.
  - destruct (Hh e _ _ _ E) as (n2 & -> & C2). exists (n2 ++ n1).
    split; [now rewrite app_assoc|]. rewrite count_events_app. lia.
  - inversion E; subst. now exists n1.
Qed.

Lemma adds_bind A B (m : M A) (f : A -> M B) (k1 k2 : nat) :
  adds p k1 m -> (forall a, adds p k2 (f a)) -> adds p (k1 + k2) (bind m f).
Proof.
  intros Hm Hf h b h' E. unfold bind in E.
  destruct (m h) as [[a|e|] h1] eqn:Em; try discriminate.
  destruct (Hm _ _ _ Em) as (n1 & -> & C1).
  destruct (Hf a _ _ _ E) as (n2 & -> & C2). exists (n2 ++ n1).
  split; [now rewrite app_assoc|]. rewrite count_events_app. lia.
Qed.

Lemma adds_event A (f : history -> result A) (e : event) :
  adds p (if p e then 1 else 0) (fun h => (f h, e :: h)).
Proof.
  intros h a h' E. inversion E. exists [e]. split; [reflexivity|].
  unfold count_events. simpl. now destruct (p e).
Qed.

Lemma adds_try_finally A (body : M A) (cleanup : M unit) (k : nat) :
  adds p k body -> silent p cleanup -> adds p k (try_finally body cleanup).
Proof.
  intros Hb Hc h a h' E. unfold try_finally in E.
  destruct (body h) as [[b|e|] h1] eqn:Eb; try discriminate.
  - destruct (Hb _ _ _ Eb) as (n1 & -> & C1).
    destruct (cleanup (n1 ++ h)) as [[u|e|] h2] eqn:Ec; try discriminate.
    destruct (Hc _ _ _ Ec) as (n2 & -> & C2). inversion E; subst.
    exists (n2 ++ n1). split; [now rewrite app_assoc|].
    rewrite count_events_app. lia.
  - destruct (cleanup h1) as [[u|e'|] h2]; discriminate.
Qed.

Lemma silent_await_unwrap (req : event) (label : string) :
  p req = false -> silent p (await_unwrap req label).
Proof.
  intros He. unfold await_unwrap. apply silent_bind.
  - unfold client_call. now apply silent_event.
  - intros r. apply silent_bind; [apply silent_lift|].
    intros u. apply silent_lift.
Qed.

Lemma adds_await_unwrap (req : event) (label : string) :
  adds p (if p req then 1 else 0) (await_unwrap req label).
Proof.
  unfold await_unwrap. rewrite <- (Nat.add_0_r (if p req then 1 else 0)%nat).
  apply adds_bind.
  - unfold client_call. apply adds_event.
  - intros r. apply silent_adds, silent_bind; [apply silent_lift|].
    intros u. apply silent_lift.
Qed.

End Counts.

Section LoopCounts.

Context {Num : Numbers} {RT : Runtime} {W : World}.

Variable p : event -> bool.

(** The predicate counts no event but commands and prompts. *)
Hypothesis p_status : forall c r, p (SessionStatus c r) = false.
Hypothesis p_now : p DateNow = false.
Hypothesis p_delay : forall ms, p (Delay ms) = false.
Hypothesis p_log : forall l, p (Log l) = false.
Hypothesis p_create : forall c r t, p (SessionCreate c r t) = false.
Hypothesis p_message : forall c s m r, p (SessionMessage c s m r) = false.
Hypothesis p_dispose : forall c r, p (InstanceDispose c r) = false.
Hypothesis p_close : forall c, p (ServerClose c) = false.
Hypothesis p_open : forall c, p (CreateOpencode c) = false.

Lemma silent_logStep (message : jsstring) : silent p (logStep message).
Proof. unfold logStep. apply silent_event, p_log. Qed.

Lemma silent_wait_loop (fuel : nat) client sessionID root timeoutMs pollIntervalMs start :
  silent p (waitForSessionIdle_loop fuel client sessionID root
              timeoutMs pollIntervalMs start).
Proof.
  induction fuel as [|fuel IH]; simpl; [apply silent_diverge|].
  apply silent_bind; [now apply silent_event|]. intros now_.
  destruct (now_ - start <? timeoutMs)%Z; [|apply silent_throw].
  apply silent_bind; [apply silent_await_unwrap, p_status|]. intros statusMap.
  destruct (negb _); [apply silent_throw|].
  destruct (strict_eq_str _ _); [apply silent_ret|].
  apply silent_bind; [|intros _; exact IH].
  unfold delay. apply silent_event, p_delay.
Qed.

Lemma silent_wait (fuel : nat) client sessionID root timeoutOverrideMs :
  silent p (waitForSessionIdle fuel client sessionID root timeoutOverrideMs).
Proof.
  unfold waitForSessionIdle. apply silent_bind; [now apply silent_event|].
  intros start. apply silent_wait_loop.
Qed.

Lemma silent_disposeInstance (instance : nat) (root : jsstring) :
  silent p (disposeInstance instance root).
Proof.
  unfold disposeInstance. apply silent_bind.
  - apply silent_try_catch.
    + unfold dispose_call. apply silent_bind;
        [apply silent_await_unwrap, p_dispose|intros _; apply silent_ret].
    + intros e. apply silent_logStep.
  - intros _. apply silent_bind; [|intros _; apply silent_ret].
    unfold client_call. apply silent_event, p_close.
Qed.

Lemma adds_sendPrompt client sessionID text root modelSpec agentSpec (b : bool) :
  (forall model, p (SessionPrompt client sessionID root agentSpec model text) = b) ->
  adds p (if b then 1 else 0) (sendPrompt client sessionID text root modelSpec agentSpec).
Proof.
  intros Hp. unfold sendPrompt.
  change (if b then 1 else 0)%nat with (0 + (if b then 1 else 0))%nat.
  apply adds_bind; [apply silent_adds, silent_lift|]. intros model.
  rewrite <- (Nat.add_0_r (if b then 1 else 0)%nat).
  apply adds_bind; [|intros _; apply silent_adds, silent_ret].
  rewrite <- (Hp model). apply adds_await_unwrap.
Qed.

Lemma adds_runReviewCommand (fuel : nat) (root : jsstring) (b : bool) :
  (forall c s r n a ag m, p (SessionCommand c s r n a ag m) = b) ->
  adds p (if b then 1 else 0) (runReviewCommand fuel root).
Proof.
  intros Hp. unfold runReviewCommand.
  change (if b then 1 else 0)%nat with (0 + (if b then 1 else 0))%nat.
  apply adds_bind; [apply silent_adds; unfold createOpencode; apply silent_event, p_open|].
  intros instance. apply adds_try_finally; [|apply silent_disposeInstance].
  unfold runReviewCommand_body.
  change (if b then 1 else 0)%nat with (0 + (0 + (if b then 1 else 0)))%nat.
  apply adds_bind; [apply silent_adds, silent_await_unwrap, p_create|]. intros session.
  apply adds_bind; [apply silent_adds, silent_lift|]. intros sessionID.
  rewrite <- (Nat.add_0_r (if b then 1 else 0)%nat).
  apply adds_bind.
  - match goal with
    | |- adds _ _ (await_unwrap ?req _) => rewrite <- (Hp _ _ _ _ _ _ _ : p req = b)
    end.
    apply adds_await_unwrap.
  - intros commandResult. apply silent_adds.
    apply silent_bind; [apply silent_wait|]. intros _.
    apply silent_bind.
    + destruct (truthy _); [|apply silent_ret].
      apply silent_bind; [apply silent_await_unwrap, p_message|].
      intros message. apply silent_ret.
    + intros parts. destruct (str_falsy _); [apply silent_throw|apply silent_lift].
Qed.

(** Rounds of review and fix: each adds one command and one prompt;
    [c] and [q] say whether the predicate counts them. *)
Lemma fix_rounds_adds (fuel client : nat) (sessionID root : jsstring)
  (maxIterations : Z) (c q : bool) :
  (forall c' s r n a ag m, p (SessionCommand c' s r n a ag m) = c) ->
  (forall ag model text, p (SessionPrompt client sessionID root ag model text) = q) ->
  forall n iteration h h',
  fix_rounds fuel client sessionID root maxIterations n iteration h h' ->
  exists new, h' = new ++ h
              /\ count_events p new
                 = (n * ((if c then 1 else 0) + (if q then 1 else 0)))%nat.
Proof.
  intros Hc Hq n iteration h h' H.
  induction H as [iteration h|n iteration h r h1 h2 h3 h' Hrun Hne Hsend Hwait _ IH].
  - now exists [].
  - destruct (adds_runReviewCommand fuel root Hc _ Hrun) as (n1 & -> & C1).
    destruct (@adds_sendPrompt client sessionID _ root _ _ q (fun m => Hq _ m _) _ _ _ Hsend)
      as (n2 & -> & C2).
    destruct (silent_wait _ _ _ _ _ _ Hwait) as (n3 & -> & C3).
    destruct IH as (n4 & -> & C4).
    exists (n4 ++ n3 ++ n2 ++ [found_line r] ++ n1 ++ [running_line iteration maxIterations]).
    split; [now repeat (rewrite <- app_assoc; simpl)|].
    repeat rewrite count_events_app. rewrite C1, C2, C3, C4.
    unfold count_events, running_line, found_line. simpl. rewrite !p_log. simpl. lia.
Qed.

End LoopCounts.

Section ReviewLoop.

Context {Num : Numbers} {RT : Runtime} {W : World}.

Variables (fuel client : nat) (sessionID root : jsstring).

(** The limit is at least 1, whatever the environment holds. *)
Lemma max_review_iterations_positive : (1 <= max_review_iterations)%Z.
Proof.
  unfold max_review_iterations.
  pose proof (@parseNumber_positive
                (process_env (js "ORCHESTRATOR_MAX_REVIEW_ITERATIONS"))
                DEFAULT_MAX_REVIEW_ITERATIONS eq_refl). lia.
Qed.

Ltac side_conditions L :=
  repeat (specialize (L ltac:(intros; reflexivity))).

(** Rounds of review and fix run the review command once each and send
    one prompt each to the work session. *)
Lemma fix_rounds_commands (maxIterations : Z) (n : nat) (iteration : Z) (h h' : history) :
  fix_rounds fuel client sessionID root maxIterations n iteration h h' ->
  exists new, h' = new ++ h /\ count_events is_review_command new = n.
Proof.
  intros H. pose proof (@fix_rounds_adds _ _ _ is_review_command) as L.
  side_conditions L.
  destruct (L fuel client sessionID root maxIterations true false
              ltac:(reflexivity) ltac:(reflexivity) _ _ _ _ H) as (new & E & C).
  exists new. split; [exact E|]. rewrite C. simpl. lia.
Qed.

Lemma fix_rounds_prompts (maxIterations : Z) (n : nat) (iteration : Z) (h h' : history) :
  fix_rounds fuel client sessionID root maxIterations n iteration h h' ->
  exists new, h' = new ++ h
              /\ count_events (is_prompt_to client sessionID) new = n.
Proof.
  intros H. pose proof (@fix_rounds_adds _ _ _ (is_prompt_to client sessionID)) as L.
  side_conditions L.
  destruct (L fuel client sessionID root maxIterations false true
              ltac:(reflexivity)
              ltac:(intros; simpl; now rewrite Nat.eqb_refl, jsstring_eqb_refl)
              _ _ _ _ H) as (new & E & C).
  exists new. split; [exact E|]. rewrite C. simpl. lia.
Qed.

Lemma review_command_commands (h h' : history) (r : value) :
  runReviewCommand fuel root h = (Ret r, h') ->
  exists new, h' = new ++ h
              /\ count_events is_review_command new = 1%nat
              /\ count_events (is_prompt_to client sessionID) new = 0%nat.
Proof.
  intros H.
  pose proof (@adds_runReviewCommand _ _ _ is_review_command) as L1.
  side_conditions L1.
  pose proof (@adds_runReviewCommand _ _ _ (is_prompt_to client sessionID)) as L2.
  side_conditions L2.
  destruct (L1 fuel root true ltac:(reflexivity) _ _ _ H) as (new & E & C).
  destruct (L2 fuel root false ltac:(reflexivity) _ _ _ H) as (new' & E' & C').
  exists new. split; [exact E|split; [exact C|]].
  rewrite E in E'. apply app_inv_tail in E'. now subst new'.
Qed.

(** The loop goes through the rounds of review and fix. *)
Lemma loop_fix_rounds (maxIterations : Z) (n : nat) (iteration : Z) (h h' : history) :
  fix_rounds fuel client sessionID root maxIterations n iteration h h' ->
  forall m,
  runReviewLoop_from (n + m) iteration maxIterations fuel client sessionID root h
  = runReviewLoop_from m (iteration + Z.of_nat n) maxIterations
      fuel client sessionID root h'.
Proof.
  induction 1 as [iteration h|n iteration h r h1 h2 h3 h' Hrun Hne Hsend Hwait _ IH];
    intros m.
  - simpl. now rewrite Z.add_0_r.
  - simpl Nat.add. cbn [runReviewLoop_from].
    unfold bind at 1. unfold logStep at 1.
    unfold bind at 1. fold (running_line iteration maxIterations). rewrite Hrun.
    unfold bind at 1. unfold lift at 1. rewrite Hne.
    unfold bind at 1. unfold logStep at 1.
    unfold bind at 1. fold (found_line r). rewrite Hsend.
    unfold bind at 1. rewrite Hwait.
    rewrite IH. f_equal. lia.
Qed.

(** C1.  The limit is at least 1.  If the first [k - 1] iterations
    each find findings (the review command runs, its result has a
    non-empty findings array, the fix prompt goes to the work session and
    the session is waited for) and iteration [k], within the limit, finds
    none, the loop returns, having run the review command [k] times and
    sent [k - 1] prompts to the work session.  If every iteration up to
    the limit finds findings, the loop throws ReviewLoopExceeded, having
    run the review command as many times as the limit says. *)
Theorem runReviewLoop_counts (h : history) :
  let maxIterations := max_review_iterations in
  (1 <= maxIterations)%Z
  /\ (forall k h1 reviewResult h2,
      (1 <= k <= Z.to_nat maxIterations)%nat ->
      fix_rounds fuel client sessionID root maxIterations (k - 1) 1 h h1 ->
      runReviewCommand fuel root (running_line (Z.of_nat k) maxIterations :: h1)
        = (Ret reviewResult, h2) ->
      isFindingsEmpty reviewResult = Ret true ->
      runReviewLoop fuel client sessionID root h = (Ret tt, clean_line :: h2)
      /\ count_events is_review_command (clean_line :: h2)
         = (count_events is_review_command h + k)%nat
      /\ count_events (is_prompt_to client sessionID) (clean_line :: h2)
         = (count_events (is_prompt_to client sessionID) h + (k - 1))%nat)
  /\ (forall h1,
      fix_rounds fuel client sessionID root maxIterations
        (Z.to_nat maxIterations) 1 h h1 ->
      runReviewLoop fuel client sessionID root h
        = (Throw (ReviewLoopExceeded maxIterations), h1)
      /\ count_events is_review_command h1
         = (count_events is_review_command h + Z.to_nat maxIterations)%nat).
Proof.
  intros maxIterations. split; [apply max_review_iterations_positive|split].
  - intros k h1 r h2 Hk Hrounds Hrun Hempty.
    destruct (fix_rounds_commands Hrounds) as (n1 & E1 & C1).
    destruct (fix_rounds_prompts Hrounds) as (n2 & E2 & C2).
    edestruct review_command_commands as (n3 & E3 & C3 & C4); [exact Hrun|].
    split; [|split].
    + unfold runReviewLoop. fold maxIterations.
      replace (Z.to_nat maxIterations)
        with ((k - 1) + S (Z.to_nat maxIterations - k))%nat by lia.
      rewrite (loop_fix_rounds Hrounds).
      replace (1 + Z.of_nat (k - 1))%Z with (Z.of_nat k) by lia.
      cbn [runReviewLoop_from].
      unfold bind at 1. unfold logStep at 1.
      unfold bind at 1. fold (running_line (Z.of_nat k) maxIterations). rewrite Hrun.
      unfold bind at 1. unfold lift at 1. rewrite Hempty.
      reflexivity.
    + subst h2 h1. unfold clean_line, running_line.
      rewrite count_events_cons, count_events_app, count_events_cons,
        count_events_app, C3, C1.
      cbn [is_review_command]. lia.
    + subst h2. rewrite E2. unfold clean_line, running_line.
      rewrite count_events_cons, count_events_app, count_events_cons,
        count_events_app, C4, C2.
      cbn [is_prompt_to]. lia.
  - intros h1 Hrounds.
    destruct (fix_rounds_commands Hrounds) as (n1 & E1 & C1).
    split.
    + unfold runReviewLoop. fold maxIterations.
      rewrite <- (Nat.add_0_r (Z.to_nat maxIterations)).
      rewrite (loop_fix_rounds Hrounds). reflexivity.
    + rewrite E1, count_events_app, C1. simpl. lia.
Qed.

End ReviewLoop.

(** ** Further properties of the helpers *)

Section Session.

Context {Num : Numbers} {RT : Runtime}.

Lemma first_session_id_some (candidates : list value) (id : jsstring) :
  first_session_id candidates = Some id <->
  exists before after,
    candidates = before ++ VStr id :: after
    /\ trim id <> []
    /\ forallb (fun c => negb (usable_id c)) before = true.
Proof.
  split.
  - induction candidates as [|c cs IH]; simpl; [discriminate|].
    intros E.
    assert (Hskip : first_session_id cs = Some id -> usable_id c = false ->
                    exists before after,
                      c :: cs = before ++ VStr id :: after
                      /\ trim id <> []
                      /\ forallb (fun c => negb (usable_id c)) before = true).
    { intros E' Hc. destruct (IH E') as (b & a & -> & Ht & Hb).
      exists (c :: b), a. simpl. rewrite Hc, Hb. now repeat split. }
    destruct c as [| |b|n|s|items|props|m|r v]; try (apply Hskip; [exact E|reflexivity]).
    destruct (trim s) as [|x t] eqn:Es; simpl in E.
    + apply Hskip; [exact E|]. simpl. now rewrite Es.
    + injection E as <-. exists [], cs. rewrite Es. repeat split. discriminate.
  - intros (before & after & -> & Ht & Hb).
    induction before as [|c b IH]; simpl in *.
    + destruct (trim id); [contradiction|reflexivity].
    + apply andb_true_iff in Hb as [Hc Hb]. apply negb_true_iff in Hc.
      destruct c as [| |b'|n|s|items|props|m|r v]; try (now apply IH).
      simpl in Hc. apply negb_false_iff in Hc. rewrite Hc. simpl. now apply IH.
Qed.

Lemma first_session_id_none (candidates : list value) :
  first_session_id candidates = None <->
  forallb (fun c => negb (usable_id c)) candidates = true.
Proof.
  induction candidates as [|c cs IH]; simpl; [tauto|].
  destruct c as [| |b|n|s|items|props|m|r v]; simpl; try exact IH.
  destruct (str_falsy (trim s)); simpl; [exact IH|].
  split; discriminate.
Qed.

Lemma extractSessionID_object (session : value) (context : jsstring) :
  is_object session = true ->
  extractSessionID session context
  = match first_session_id (session_id_candidates session) with
    | Some id => Ret id
    | None =>
        Throw (Error (context ++ js " returned a session without an id. Response: "
                        ++ safeStringify session))
    end.
Proof. intros Ho. unfold extractSessionID. now rewrite object_test, Ho. Qed.

(** X1.  [extractSessionID] refuses what is not an object; of an object
    it answers the first of the nine candidates, in their order, that is
    a string with more than white space in it, as it stands (untrimmed);
    it throws exactly when no candidate is one. *)
Theorem extractSessionID_first_usable (session : value) (context : jsstring) :
  (is_object session = false ->
   extractSessionID session context
   = Throw (Error (context ++ js " did not return a session object.")))
  /\ (is_object session = true ->
      (forall id,
         extractSessionID session context = Ret id <->
         exists before after,
           session_id_candidates session = before ++ VStr id :: after
           /\ trim id <> []
           /\ forallb (fun c => negb (usable_id c)) before = true)
      /\ (forallb (fun c => negb (usable_id c)) (session_id_candidates session) = true
          <->
          extractSessionID session context
          = Throw (Error (context ++ js " returned a session without an id. Response: "
                            ++ safeStringify session)))).
Proof.
  split.
  - intros Ho. unfold extractSessionID. now rewrite object_test, Ho.
  - intros Ho. rewrite extractSessionID_object by assumption. split.
    + intros id. rewrite <- first_session_id_some.
      destruct (first_session_id (session_id_candidates session)) as [id'|].
      * split; [now intros [= ->]|now intros [= ->]].
      * split; discriminate.
    + rewrite <- first_session_id_none.
      destruct (first_session_id (session_id_candidates session)) as [id'|].
      * split; discriminate.
      * split; reflexivity.
Qed.

(** X2.  An object that has none of the keys [id], [sessionID], [info],
    [properties] and [slug] gives no session id, whatever else it holds:
    the answer of a call still inside its envelope, with the session
    under [data], is refused. *)
Theorem extractSessionID_needs_top_level_key
  (props : list (jsstring * value)) (context : jsstring) :
  lookup (js "id") props = None ->
  lookup (js "sessionID") props = None ->
  lookup (js "info") props = None ->
  lookup (js "properties") props = None ->
  lookup (js "slug") props = None ->
  extractSessionID (VObj props) context
  = Throw (Error (context ++ js " returned a session without an id. Response: "
                    ++ safeStringify (VObj props))).
Proof.
  intros H1 H2 H3 H4 H5.
  rewrite extractSessionID_object by reflexivity.
  cbv beta iota delta [session_id_candidates get_opt get].
  rewrite H1, H2, H3, H4, H5. reflexivity.
Qed.

End Session.

(** ** The scan of [extractReviewJson], whatever it is given *)

(** The search downwards answers the greatest position, at or below its
    start, that holds the code unit. *)
Lemma lastIndexOf_down_greatest (c : code_unit) (s : jsstring) (k : nat) :
  (lastIndexOf_down c s k = (-1)%Z
   /\ forall j, (j <= k)%nat -> nth j s 0%N <> c)
  \/ exists r, lastIndexOf_down c s k = Z.of_nat r
               /\ (r <= k)%nat /\ nth r s 0%N = c
               /\ forall j, (r < j <= k)%nat -> nth j s 0%N <> c.
Proof.
  induction k as [|k IH]; simpl.
  - destruct (N.eqb_spec (nth 0 s 0%N) c) as [E|E].
    + right. exists 0%nat. split; [reflexivity|]. split; [lia|]. split; [exact E|].
      intros j Hj. lia.
    + left. split; [reflexivity|]. intros j Hj.
      now replace j with 0%nat by lia.
  - destruct (N.eqb_spec (nth (S k) s 0%N) c) as [E|E].
    + right. exists (S k). split; [reflexivity|]. split; [lia|]. split; [exact E|].
      intros j Hj. lia.
    + destruct IH as [[IH Hn]|(r & Hr & Hle & Hn & Hg)].
      * left. split; [exact IH|]. intros j Hj.
        destruct (Nat.eq_dec j (S k)) as [->|Hne]; [exact E|apply Hn; lia].
      * right. exists r. split; [exact Hr|]. split; [lia|]. split; [exact Hn|].
        intros j Hj.
        destruct (Nat.eq_dec j (S k)) as [->|Hne]; [exact E|apply Hg; lia].
Qed.

(** A position below 0 is taken for 0. *)
Lemma lastIndexOf_negative (c : code_unit) (s : jsstring) (p : Z) :
  s <> [] -> (p < 0)%Z ->
  lastIndexOf s c (Some p) = lastIndexOf_down c s 0.
Proof.
  intros Hs Hp. unfold lastIndexOf. destruct s as [|x s]; [contradiction|].
  f_equal. simpl length. lia.
Qed.

Section ScanSound.

Context {Num : Numbers}.

Lemma candidate_accepts (text : jsstring) (v : value) :
  candidate text = Some v ->
  JSON_parse (trim text) = Some v
  /\ is_object v = true /\ has_property (js "findings") v = true.
Proof.
  unfold candidate. destruct (JSON_parse (trim text)) as [parsed|]; [|discriminate].
  destruct (truthy parsed && is_typeof parsed "object"
            && has_property (js "findings") parsed) eqn:E; [|discriminate].
  intros [= <-]. apply andb_true_iff in E as [_ Hf].
  repeat split; [|exact Hf]. destruct parsed; try discriminate; reflexivity.
Qed.

Lemma scan_sound (s : jsstring) (v : value) :
  forall fuel k, (k < length s)%nat ->
  (forall j, (k < j)%nat -> nth j s 0%N = brace ->
             candidate (slice s (Z.of_nat j) None) = None) ->
  extractReviewJson_scan fuel s (lastIndexOf_down brace s k) = Ret v ->
  exists i, (i < length s)%nat /\ nth i s 0%N = brace
            /\ candidate (slice s (Z.of_nat i) None) = Some v
            /\ forall j, (i < j)%nat -> nth j s 0%N = brace ->
                         candidate (slice s (Z.of_nat j) None) = None.
Proof.
  induction fuel as [|fuel IH]; intros k Hk Hrej Hrun; [discriminate Hrun|].
  destruct (lastIndexOf_down_greatest brace s k)
    as [[E _]|(r & E & Hle & Hn & Hg)]; rewrite E in Hrun.
  - discriminate Hrun.
  - assert (Hrej' : forall j, (r < j)%nat -> nth j s 0%N = brace ->
                              candidate (slice s (Z.of_nat j) None) = None).
    { intros j Hj Hb. destruct (Nat.le_gt_cases j k) as [Hjk|Hjk].
      - exfalso. now apply (Hg j).
      - now apply Hrej. }
    rewrite scan_step in Hrun by lia.
    destruct (candidate (slice s (Z.of_nat r) None)) as [parsed|] eqn:Ec.
    + injection Hrun as ->. exists r. repeat split; try assumption. lia.
    + destruct r as [|r].
      * rewrite lastIndexOf_negative in Hrun;
          [|intros ->; simpl in Hk; lia|lia].
        apply (IH 0%nat); [lia|exact Hrej'|exact Hrun].
      * replace (Z.of_nat (S r) - 1)%Z with (Z.of_nat r) in Hrun by lia.
        rewrite lastIndexOf_position in Hrun by lia.
        apply (IH r); [lia| |exact Hrun].
        intros j Hj Hb. destruct (Nat.eq_dec j (S r)) as [->|Hne];
          [exact Ec|apply Hrej'; [lia|exact Hb]].
Qed.

(** X3.  Whatever [extractReviewJson] returns, with whatever fuel, is
    an object with a [findings] key that [JSON.parse] read from the part
    of the trimmed output that starts at one of its braces; and no brace
    to the right of that one starts a text the scan accepts. *)
Theorem extractReviewJson_sound (fuel : nat) (output : jsstring) (v : value) :
  extractReviewJson fuel output = Ret v ->
  exists i, (i < length (trim output))%nat
    /\ nth i (trim output) 0%N = brace
    /\ JSON_parse (trim (skipn i (trim output))) = Some v
    /\ is_object v = true
    /\ has_property (js "findings") v = true
    /\ forall j, (i < j)%nat -> nth j (trim output) 0%N = brace ->
                 candidate (skipn j (trim output)) = None.
Proof.
  unfold extractReviewJson. intros Hrun.
  destruct (trim output) as [|c t] eqn:Et; [discriminate Hrun|].
  simpl str_falsy in Hrun. cbv iota in Hrun.
  rewrite lastIndexOf_whole in Hrun by discriminate.
  destruct (@scan_sound (c :: t) v fuel (length (c :: t) - 1)) as (i & Hi & Hb & Hc & Hrej).
  - simpl. lia.
  - intros j Hj Hbj. exfalso.
    assert (Hlen : (length (c :: t) <= j)%nat) by (simpl in *; lia).
    rewrite nth_overflow in Hbj by exact Hlen. discriminate Hbj.
  - exact Hrun.
  - exists i. rewrite slice_from in Hc by lia.
    destruct (candidate_accepts _ Hc) as (Hp & Ho & Hf).
    repeat split; try assumption.
    intros j Hj Hbj.
    assert (Hlen : (j < length (c :: t))%nat).
    { destruct (Nat.lt_ge_cases j (length (c :: t))) as [Hl|Hl]; [exact Hl|].
      rewrite nth_overflow in Hbj by exact Hl. discriminate Hbj. }
    rewrite <- slice_from by lia. now apply Hrej.
Qed.

End ScanSound.

(** ** [parseModelSpec] and its answers *)

Lemma trimStart_In (x : code_unit) (s : jsstring) : In x (trimStart s) -> In x s.
Proof.
  destruct (trimStart_suffix s) as (ws & E & _). intros H.
  rewrite E. apply in_or_app. now right.
Qed.

Lemma trim_In (x : code_unit) (s : jsstring) : In x (trim s) -> In x s.
Proof.
  unfold trim, trimEnd. intros H. apply trimStart_In.
  apply in_rev in H. apply trimStart_In in H. now apply in_rev in H.
Qed.

Lemma first_occurrence (c : code_unit) (s : jsstring) :
  In c s -> exists a b, s = a ++ c :: b /\ ~ In c a.
Proof.
  induction s as [|x s IH]; intros H; [destruct H|].
  destruct (N.eq_dec x c) as [->|Hne].
  - exists [], s. split; [reflexivity|intros []].
  - destruct H as [H|H]; [contradiction|].
    destruct (IH H) as (a & b & -> & Ha). exists (x :: a), b.
    split; [reflexivity|]. intros [E|E]; [contradiction|now apply Ha].
Qed.

Section ModelSpec.

Context {Num : Numbers} {RT : Runtime}.

(** X4.  An answer of [parseModelSpec] is in normal form: neither half
    is empty or has white space at its ends, the provider holds no
    slash, and writing the two halves with a slash between them gives a
    spec that parses to the same answer. *)
Theorem parseModelSpec_round_trip (spec : jsstring) (m : model_spec) :
  parseModelSpec spec = Ret m ->
  parseModelSpec (providerID m ++ slash :: modelID m) = Ret m
  /\ ~ In slash (providerID m)
  /\ providerID m <> [] /\ modelID m <> []
  /\ trim (providerID m) = providerID m /\ trim (modelID m) = modelID m.
Proof.
  intros Hrun.
  destruct (in_dec N.eq_dec slash spec) as [Hin|Hout].
  - destruct (first_occurrence _ _ Hin) as (a & b & -> & Ha).
    rewrite parseModelSpec_split in Hrun by assumption.
    destruct (trim a) as [|x ta] eqn:Ea; [discriminate Hrun|].
    destruct (trim b) as [|y tb] eqn:Eb; [discriminate Hrun|].
    simpl in Hrun. injection Hrun as <-. simpl providerID. simpl modelID.
    assert (Hs : ~ In slash (x :: ta)).
    { rewrite <- Ea. intros H. apply Ha. now apply trim_In. }
    rewrite parseModelSpec_split by assumption.
    rewrite <- Ea, <- Eb, !trim_idempotent. rewrite Ea, Eb. simpl.
    repeat split; try assumption; discriminate.
  - unfold parseModelSpec, indexOf in Hrun.
    rewrite indexOf_from_absent in Hrun by assumption. discriminate Hrun.
Qed.

(** The model specs of the program parse. *)
Lemma parseModelSpec_DEFAULT_MODEL :
  parseModelSpec DEFAULT_MODEL
  = Ret {| providerID := js "github-copilot"; modelID := js "gpt-5.2-codex" |}.
Proof. reflexivity. Qed.

Lemma parseModelSpec_COMMIT_MODEL :
  parseModelSpec COMMIT_MODEL
  = Ret {| providerID := js "github-copilot"; modelID := js "gpt-5-mini" |}.
Proof. reflexivity. Qed.

(** ** [safeStringify] and [collectCommandOutput] *)

(** X5.  When the value has a JSON text, [safeStringify] answers that
    text, cut to its first 1000 code units and followed by three dots
    if it is longer: the answer never exceeds 1003 code units. *)
Theorem safeStringify_bounded (v : value) (json : jsstring) :
  JSON_stringify None v = Some json -> json <> [] ->
  (length (safeStringify v) <= 1003)%nat
  /\ firstn 1000 (safeStringify v) = firstn 1000 json
  /\ ((length json <= 1000)%nat -> safeStringify v = json)
  /\ ((1000 < length json)%nat -> safeStringify v = firstn 1000 json ++ js "...").
Proof.
  intros Hj Hne. unfold safeStringify. rewrite Hj.
  destruct json as [|c t]; [contradiction|].
  replace (Nat.ltb 0 (length (c :: t))) with true by reflexivity.
  destruct (Nat.ltb_spec 1000 (length (c :: t))) as [Hl|Hl].
  - repeat split.
    + rewrite length_app, length_firstn. simpl length at 2. lia.
    + rewrite firstn_app, length_firstn, Nat.min_l by lia.
      rewrite Nat.sub_diag, firstn_firstn, Nat.min_id. simpl firstn at 2.
      apply app_nil_r.
    + intros H. lia.
  - repeat split.
    + lia.
    + intros H. lia.
Qed.




End ModelSpec.

(** ** Calls that answer with a promise *)

Section Promises.

Context {Num : Numbers} {RT : Runtime} {W : World}.

(** X7.  When the call answers with a promise, [unwrap] lets the
    promise through and [await] settles it: the caller gets what the
    promise fulfils with, whole, even if that is an envelope whose
    [error] is set, and the label is never used. *)
Theorem await_unwrap_promise (req : event) (label : string) (h : history)
  (fulfilled : value) :
  provider h req = Ret (VPromise false fulfilled) ->
  (forall rejected settled, fulfilled <> VPromise rejected settled) ->
  await_unwrap req label h = (Ret fulfilled, req :: h).
Proof.
  intros Hp Hv. unfold await_unwrap, bind, client_call. rewrite Hp.
  unfold lift. simpl. unfold await, lift. simpl.
  destruct fulfilled; try reflexivity. exfalso. now apply (Hv rejected fulfilled).
Qed.

End Promises.

(** ** The status poller: how it ends *)

Section PollerEnds.

Context {Num : Numbers} {RT : Runtime} {W : World}.

Lemma strict_eq_str_true (v : value) (s : jsstring) :
  strict_eq_str v s = true <-> v = VStr s.
Proof.
  destruct v; simpl; try (split; [discriminate|congruence]).
  rewrite jsstring_eqb_eq. split; congruence.
Qed.

(** [await] gives a value or throws; it does not hang. *)
Lemma settle_ends (v : value) : settle v <> Diverge.
Proof.
  induction v; simpl; try discriminate.
  destruct rejected; [discriminate|assumption].
Qed.

Lemma unwrap_ends (r : value) (label : jsstring) : unwrap r label <> Diverge.
Proof.
  rewrite unwrap_cases. destruct (has_property (js "data") r); [|discriminate].
  destruct (truthy (get r (js "error"))); discriminate.
Qed.

(** A call that the provider answers is over once it is awaited. *)
Lemma await_unwrap_ends (req : event) (label : string) (h : history) :
  provider h req <> Diverge -> fst (await_unwrap req label h) <> Diverge.
Proof.
  intros Hp. unfold await_unwrap, bind, client_call, lift, await.
  destruct (provider h req) as [r| |]; [|discriminate|contradiction].
  pose proof (unwrap_ends r (js label)) as Hu.
  destruct (unwrap r (js label)) as [u| |]; [|discriminate|contradiction].
  simpl. apply settle_ends.
Qed.

Section Rounds.

Variables (client : nat) (sessionID root : jsstring).
Variables (timeoutMs pollIntervalMs start : Z).

Let loop (fuel : nat) : M unit :=
  waitForSessionIdle_loop fuel client sessionID root timeoutMs pollIntervalMs start.

(** One round of the loop, case by case. *)
Lemma loop_round (fuel : nat) (h : history) :
  loop (S fuel) h =
  if (clock h - start <? timeoutMs)%Z then
    match status_answer client root h with
    | Ret statusMap =>
        if negb (truthy (get_opt statusMap sessionID)) then
          (Throw (SessionMissing sessionID statusMap),
           SessionStatus client root :: DateNow :: h)
        else if strict_eq_str (get (get_opt statusMap sessionID) (js "type")) (js "idle")
        then (Ret tt, SessionStatus client root :: DateNow :: h)
        else loop fuel (Delay pollIntervalMs :: SessionStatus client root :: DateNow :: h)
    | Throw e => (Throw e, SessionStatus client root :: DateNow :: h)
    | Diverge => (Diverge, SessionStatus client root :: DateNow :: h)
    end
  else (Throw (Timeout sessionID), DateNow :: h).
Proof.
  unfold loop. simpl waitForSessionIdle_loop.
  unfold bind at 1. unfold Date_now.
  destruct (clock h - start <? timeoutMs)%Z; [|reflexivity].
  unfold bind at 1. rewrite status_poll.
  destruct (status_answer client root h) as [statusMap|e|]; try reflexivity.
  destruct (negb (truthy (get_opt statusMap sessionID))); [reflexivity|].
  destruct (strict_eq_str _ _); reflexivity.
Qed.

(** How the loop can end, with whatever fuel. *)
Lemma loop_outcomes (fuel : nat) :
  forall h o h', loop fuel h = (o, h') ->
  match o with
  | Ret _ =>
      exists hp statusMap,
        h' = SessionStatus client root :: DateNow :: hp
        /\ (clock hp - start < timeoutMs)%Z
        /\ status_answer client root hp = Ret statusMap
        /\ truthy (get_opt statusMap sessionID) = true
        /\ get (get_opt statusMap sessionID) (js "type") = VStr (js "idle")
  | Throw e =>
      (exists hp, h' = DateNow :: hp /\ (timeoutMs <= clock hp - start)%Z
                  /\ e = Timeout sessionID)
      \/ (exists hp statusMap,
            h' = SessionStatus client root :: DateNow :: hp
            /\ (clock hp - start < timeoutMs)%Z
            /\ status_answer client root hp = Ret statusMap
            /\ truthy (get_opt statusMap sessionID) = false
            /\ e = SessionMissing sessionID statusMap)
      \/ (exists hp,
            h' = SessionStatus client root :: DateNow :: hp
            /\ (clock hp - start < timeoutMs)%Z
            /\ status_answer client root hp = Throw e)
  | Diverge => True
  end.
Proof.
  induction fuel as [|fuel IH]; intros h o h' Hrun.
  - inversion Hrun. exact I.
  - rewrite loop_round in Hrun.
    destruct (Z.ltb_spec (clock h - start) timeoutMs) as [Ht|Ht].
    + destruct (status_answer client root h) as [statusMap|e|] eqn:Ea.
      * destruct (truthy (get_opt statusMap sessionID)) eqn:Et; simpl negb in Hrun;
          cbv iota in Hrun.
        -- destruct (strict_eq_str _ _) eqn:Ei.
           ++ inversion Hrun; subst. exists h, statusMap.
              apply strict_eq_str_true in Ei. now repeat split.
           ++ now apply IH in Hrun.
        -- inversion Hrun; subst. right; left. exists h, statusMap. now repeat split.
      * inversion Hrun; subst. right; right. exists h. now repeat split.
      * inversion Hrun; subst. exact I.
    + inversion Hrun; subst. left. exists h. now repeat split.
Qed.

Hypothesis clock_monotone : forall e h, (clock h <= clock (e :: h))%Z.
Hypothesis sleep_takes_time :
  forall h, (clock h + pollIntervalMs <= clock (Delay pollIntervalMs :: h))%Z.
Hypothesis status_answered :
  forall h, provider h (SessionStatus client root) <> Diverge.

(** With [n] intervals left before the timeout, the loop is over
    within [n] polls. *)
Lemma loop_ends (n : nat) :
  forall fuel h,
  (timeoutMs - (clock h - start) <= pollIntervalMs * Z.of_nat n)%Z ->
  (n <= fuel)%nat ->
  exists o (new : history), loop (S fuel) h = (o, new ++ h)
                /\ o <> Diverge
                /\ (count_events is_status_request new <= n)%nat.
Proof.
  assert (Hstop : forall (h : history) (k : nat),
            exists (o : result unit) (new : history),
              (Throw (Timeout sessionID), DateNow :: h) = (o, new ++ h)
              /\ o <> Diverge /\ (count_events is_status_request new <= k)%nat).
  { intros h k. exists (Throw (Timeout sessionID)), [DateNow].
    split; [reflexivity|]. split; [discriminate|]. unfold count_events. simpl. lia. }
  assert (Hpoll : forall (h : history) (o : result unit) (k : nat), o <> Diverge ->
            exists (o' : result unit) (new : history),
              (o, SessionStatus client root :: DateNow :: h) = (o', new ++ h)
              /\ o' <> Diverge /\ (count_events is_status_request new <= S k)%nat).
  { intros h o k Ho. exists o, [SessionStatus client root; DateNow].
    split; [reflexivity|]. split; [exact Ho|]. unfold count_events. simpl. lia. }
  induction n as [|n IH]; intros fuel h Hleft Hfuel; rewrite loop_round.
  - destruct (Z.ltb_spec (clock h - start) timeoutMs) as [Ht|Ht]; [lia|].
    apply Hstop.
  - destruct (Z.ltb_spec (clock h - start) timeoutMs) as [Ht|Ht]; [|apply Hstop].
    pose proof (await_unwrap_ends (SessionStatus client root) "session.status"
                  (DateNow :: h) (status_answered _)) as Hend.
    fold (status_answer client root h) in Hend.
    destruct (status_answer client root h) as [statusMap|e|]; [| |contradiction].
    + destruct (negb (truthy (get_opt statusMap sessionID))).
      { apply Hpoll. discriminate. }
      destruct (strict_eq_str _ _).
      { apply Hpoll. discriminate. }
      destruct fuel as [|fuel]; [lia|].
      destruct (IH fuel (Delay pollIntervalMs :: SessionStatus client root
                           :: DateNow :: h)) as (o & new & Hrun & Ho & Hc).
      { pose proof (sleep_takes_time (SessionStatus client root :: DateNow :: h)).
        pose proof (clock_monotone (SessionStatus client root) (DateNow :: h)).
        pose proof (clock_monotone DateNow h). lia. }
      { lia. }
      exists o, (new ++ [Delay pollIntervalMs; SessionStatus client root; DateNow]).
      rewrite Hrun. split; [now rewrite <- app_assoc|]. split; [exact Ho|].
      rewrite count_events_app. unfold count_events at 2. simpl. lia.
    + apply Hpoll. discriminate.
Qed.

End Rounds.

Lemma poll_interval_positive : (0 < poll_interval)%Z.
Proof. unfold poll_interval. now apply parseNumber_positive. Qed.

(** X8.  [waitForSessionIdle] returns only from a poll, made before the
    timeout, whose status map holds the session with the type ["idle"];
    and it throws nothing but the timeout (from a reading of the clock
    at or past it), the missing session (from a poll whose map has no
    truthy entry for the session), or what a status request threw. *)
Theorem waitForSessionIdle_outcomes (fuel client : nat) (sessionID root : jsstring)
  (timeoutOverrideMs : option Z) (h : history) (o : result unit) (h' : history) :
  waitForSessionIdle fuel client sessionID root timeoutOverrideMs h = (o, h') ->
  let timeoutMs := session_timeout timeoutOverrideMs in
  match o with
  | Ret _ =>
      exists hp statusMap,
        h' = SessionStatus client root :: DateNow :: hp
        /\ (clock hp - clock h < timeoutMs)%Z
        /\ status_answer client root hp = Ret statusMap
        /\ truthy (get_opt statusMap sessionID) = true
        /\ get (get_opt statusMap sessionID) (js "type") = VStr (js "idle")
  | Throw e =>
      (exists hp, h' = DateNow :: hp /\ (timeoutMs <= clock hp - clock h)%Z
                  /\ e = Timeout sessionID)
      \/ (exists hp statusMap,
            h' = SessionStatus client root :: DateNow :: hp
            /\ (clock hp - clock h < timeoutMs)%Z
            /\ status_answer client root hp = Ret statusMap
            /\ truthy (get_opt statusMap sessionID) = false
            /\ e = SessionMissing sessionID statusMap)
      \/ (exists hp,
            h' = SessionStatus client root :: DateNow :: hp
            /\ (clock hp - clock h < timeoutMs)%Z
            /\ status_answer client root hp = Throw e)
  | Diverge => True
  end.
Proof.
  intros Hrun timeoutMs. unfold waitForSessionIdle in Hrun.
  unfold bind at 1 in Hrun. unfold Date_now in Hrun.
  exact (loop_outcomes _ _ _ _ _ _ _ _ Hrun).
Qed.

(** X9.  With a clock that never runs backwards and on which a sleep
    of the poll interval takes at least that long, and a provider that
    answers every status request, [waitForSessionIdle] is over, with a
    return or a throw, within [timeoutMs / pollIntervalMs + 1] polls:
    fuel for one round more is enough, whatever the session does. *)
Theorem waitForSessionIdle_ends (fuel client : nat) (sessionID root : jsstring)
  (timeoutOverrideMs : option Z) (h : history) :
  let polls := (Z.to_nat (session_timeout timeoutOverrideMs / poll_interval) + 1)%nat in
  (forall e h, (clock h <= clock (e :: h))%Z) ->
  (forall h, (clock h + poll_interval <= clock (Delay poll_interval :: h))%Z) ->
  (forall h, provider h (SessionStatus client root) <> Diverge) ->
  (polls < fuel)%nat ->
  exists o (new : history),
    waitForSessionIdle fuel client sessionID root timeoutOverrideMs h = (o, new ++ h)
    /\ o <> Diverge
    /\ (count_events is_status_request new <= polls)%nat.
Proof.
  intros polls Hmono Hsleep Hans Hfuel.
  pose proof poll_interval_positive as Hpos.
  unfold waitForSessionIdle. unfold bind at 1. unfold Date_now.
  destruct fuel as [|fuel]; [lia|].
  destruct (@loop_ends client sessionID root (session_timeout timeoutOverrideMs)
              poll_interval (clock h) Hmono Hsleep Hans polls fuel (DateNow :: h))
    as (o & new & Hrun & Ho & Hc).
  - pose proof (Hmono DateNow h) as Hm.
    unfold polls.
    destruct (Z.le_gt_cases 0 (session_timeout timeoutOverrideMs)) as [Ht|Ht].
    + pose proof (Z.mul_succ_div_gt (session_timeout timeoutOverrideMs)
                    poll_interval Hpos) as Hd.
      assert (0 <= session_timeout timeoutOverrideMs / poll_interval)%Z
        by (apply Z.div_pos; lia).
      rewrite Nat2Z.inj_add, Z2Nat.id by assumption. simpl Z.of_nat. lia.
    + nia.
  - lia.
  - exists o, (new ++ [DateNow]). rewrite Hrun.
    split; [now rewrite <- app_assoc|]. split; [exact Ho|].
    rewrite count_events_app. unfold count_events at 2. simpl. lia.
Qed.

End PollerEnds.

(** ** Sequencing: what a composite run says of its parts *)

Section Sequencing.

Context {Num : Numbers} {RT : Runtime} {W : World}.

Lemma bind_inv A B (m : M A) (f : A -> M B) (h : history) (o : result B) (h' : history) :
  bind m f h = (o, h') ->
  (exists a h1, m h = (Ret a, h1) /\ f a h1 = (o, h'))
  \/ (exists e, m h = (Throw e, h') /\ o = Throw e)
  \/ (m h = (Diverge, h') /\ o = Diverge).
Proof.
  unfold bind. destruct (m h) as [[a|e|] h1]; intros E.
  - left. now exists a, h1.
  - right; left. inversion E; subst. now exists e.
  - right; right. inversion E; subst. now split.
Qed.

Lemma bind_ret_inv A B (m : M A) (f : A -> M B) (h : history) (b : B) (h' : history) :
  bind m f h = (Ret b, h') ->
  exists a h1, m h = (Ret a, h1) /\ f a h1 = (Ret b, h').
Proof.
  intros E. destruct (bind_inv _ _ _ E) as [Hr|[(e & _ & He)|(_ & He)]];
    [exact Hr|discriminate He|discriminate He].
Qed.

Lemma try_finally_inv A (body : M A) (cleanup : M unit)
  (h : history) (o : result A) (h' : history) :
  try_finally body cleanup h = (o, h') ->
  (body h = (Diverge, h') /\ o = Diverge)
  \/ exists ob h1 oc,
       body h = (ob, h1) /\ ob <> Diverge /\ cleanup h1 = (oc, h')
       /\ o = match oc with
              | Ret _ => ob
              | Throw e => Throw e
              | Diverge => Diverge
              end.
Proof.
  unfold try_finally. destruct (body h) as [[a|e|] h1] eqn:Eb; intros E.
  - right. destruct (cleanup h1) as [oc h2] eqn:Ec.
    exists (Ret a), h1, oc.
    destruct oc as [u|e|]; inversion E; subst;
      (split; [reflexivity|]); (split; [discriminate|]); (split; [exact Ec|reflexivity]).
  - right. destruct (cleanup h1) as [oc h2] eqn:Ec.
    exists (Throw e), h1, oc.
    destruct oc as [u|e'|]; inversion E; subst;
      (split; [reflexivity|]); (split; [discriminate|]); (split; [exact Ec|reflexivity]).
  - left. inversion E; subst. now split.
Qed.

Lemma try_finally_ret_inv A (body : M A) (cleanup : M unit)
  (h : history) (a : A) (h' : history) :
  try_finally body cleanup h = (Ret a, h') ->
  exists h1, body h = (Ret a, h1) /\ cleanup h1 = (Ret tt, h').
Proof.
  intros E. destruct (try_finally_inv _ _ _ E) as [(_ & He)|(ob & h1 & oc & Hb & _ & Hc & Ho)];
    [discriminate He|].
  destruct oc as [[]|e|]; try discriminate Ho. subst ob. now exists h1.
Qed.

Variable p : event -> bool.

Lemma silent_try_finally A (body : M A) (cleanup : M unit) :
  silent p body -> silent p cleanup -> silent p (try_finally body cleanup).
Proof.
  intros Hb Hc h o h' E.
  destruct (try_finally_inv _ _ _ E) as [(Eb & _)|(ob & h1 & oc & Eb & _ & Ec & _)].
  - exact (Hb _ _ _ Eb).
  - destruct (Hb _ _ _ Eb) as (n1 & -> & C1).
    destruct (Hc _ _ _ Ec) as (n2 & -> & C2).
    exists (n2 ++ n1). split; [now rewrite app_assoc|].
    rewrite count_events_app. lia.
Qed.

End Sequencing.

(** ** Events a whole run never adds *)

Section Quiet.

Context {Num : Numbers} {RT : Runtime} {W : World} {P : Paths}.

Variable p : event -> bool.

(** The predicate counts nothing but reads of a file. *)
Hypothesis p_reads : forall e, p e = true -> exists path, e = ReadFile path.

Ltac not_a_read :=
  match goal with
  | |- p ?e = false =>
      destruct (p e) eqn:Hp; [|reflexivity];
      destruct (p_reads Hp) as (path & Hpath); discriminate Hpath
  end.

Lemma quiet_logStep (message : jsstring) : silent p (logStep message).
Proof. unfold logStep. apply silent_event. not_a_read. Qed.

Lemma quiet_await_unwrap (req : event) (label : string) :
  (forall path, req <> ReadFile path) -> silent p (await_unwrap req label).
Proof.
  intros Hreq. apply silent_await_unwrap.
  destruct (p req) eqn:Hp; [|reflexivity].
  destruct (p_reads Hp) as (path & Hpath). now apply Hreq in Hpath.
Qed.

Lemma quiet_wait (fuel client : nat) (sessionID root : jsstring)
  (timeoutOverrideMs : option Z) :
  silent p (waitForSessionIdle fuel client sessionID root timeoutOverrideMs).
Proof. apply silent_wait; intros; not_a_read. Qed.

Lemma quiet_disposeInstance (instance : nat) (root : jsstring) :
  silent p (disposeInstance instance root).
Proof. apply silent_disposeInstance; intros; not_a_read. Qed.

Lemma quiet_sendPrompt (client : nat) (sessionID text root modelSpec agentSpec : jsstring) :
  silent p (sendPrompt client sessionID text root modelSpec agentSpec).
Proof.
  unfold sendPrompt. apply silent_bind; [apply silent_lift|]. intros model.
  apply silent_bind; [|intros _; apply silent_ret].
  apply quiet_await_unwrap. discriminate.
Qed.

Lemma quiet_createOpencode (config : value) : silent p (createOpencode config).
Proof. unfold createOpencode. apply silent_event. not_a_read. Qed.

Lemma quiet_runReviewCommand (fuel : nat) (root : jsstring) :
  silent p (runReviewCommand fuel root).
Proof.
  unfold runReviewCommand. apply silent_bind; [apply quiet_createOpencode|].
  intros instance. apply silent_try_finally; [|apply quiet_disposeInstance].
  unfold runReviewCommand_body.
  apply silent_bind; [apply quiet_await_unwrap; discriminate|]. intros session.
  apply silent_bind; [apply silent_lift|]. intros sessionID.
  apply silent_bind; [apply quiet_await_unwrap; discriminate|]. intros commandResult.
  apply silent_bind; [apply quiet_wait|]. intros _.
  apply silent_bind.
  - destruct (truthy _); [|apply silent_ret].
    apply silent_bind; [apply quiet_await_unwrap; discriminate|].
    intros message. apply silent_ret.
  - intros parts. destruct (str_falsy _); [apply silent_throw|apply silent_lift].
Qed.

Lemma quiet_runReviewLoop_from (remaining : nat) :
  forall (iteration maxIterations : Z) (fuel client : nat) (sessionID root : jsstring),
  silent p (runReviewLoop_from remaining iteration maxIterations
              fuel client sessionID root).
Proof.
  induction remaining as [|remaining IH]; intros; simpl runReviewLoop_from.
  - apply silent_throw.
  - apply silent_bind; [apply quiet_logStep|]. intros _.
    apply silent_bind; [apply quiet_runReviewCommand|]. intros reviewResult.
    apply silent_bind; [apply silent_lift|]. intros empty.
    destruct empty.
    + apply silent_bind; [apply quiet_logStep|]. intros _. apply silent_ret.
    + apply silent_bind; [apply quiet_logStep|]. intros _.
      apply silent_bind; [apply quiet_sendPrompt|]. intros _.
      apply silent_bind; [apply quiet_wait|]. intros _. apply IH.
Qed.

Lemma quiet_runReviewLoop (fuel client : nat) (sessionID root : jsstring) :
  silent p (runReviewLoop fuel client sessionID root).
Proof. unfold runReviewLoop. apply quiet_runReviewLoop_from. Qed.

Lemma quiet_runWorkInstance (fuel : nat) (docs : doc_paths) (root : jsstring) :
  silent p (runWorkInstance fuel docs root).
Proof.
  unfold runWorkInstance. apply silent_bind; [apply quiet_createOpencode|].
  intros instance. apply silent_try_finally; [|apply quiet_disposeInstance].
  unfold runWorkInstance_body.
  apply silent_bind; [apply quiet_await_unwrap; discriminate|]. intros session.
  apply silent_bind; [apply silent_lift|]. intros sessionID.
  apply silent_bind; [apply quiet_sendPrompt|]. intros _.
  apply silent_bind; [apply quiet_wait|]. intros _.
  apply silent_bind; [apply quiet_runReviewLoop|]. intros _.
  apply silent_bind; [apply quiet_sendPrompt|]. intros _.
  apply quiet_wait.
Qed.

Lemma quiet_runCommitInstance (fuel : nat) (root : jsstring) :
  silent p (runCommitInstance fuel root).
Proof.
  unfold runCommitInstance. apply silent_bind; [apply quiet_createOpencode|].
  intros instance. apply silent_try_finally; [|apply quiet_disposeInstance].
  unfold runCommitInstance_body.
  apply silent_bind; [apply quiet_await_unwrap; discriminate|]. intros session.
  apply silent_bind; [apply silent_lift|]. intros sessionID.
  apply silent_bind; [apply quiet_sendPrompt|]. intros _.
  apply quiet_wait.
Qed.

Lemma quiet_runMilestoneCycle (fuel : nat) (docs : doc_paths) (root : jsstring) :
  silent p (runMilestoneCycle fuel docs root).
Proof.
  unfold runMilestoneCycle. apply silent_bind; [apply quiet_runWorkInstance|].
  intros _. apply quiet_runCommitInstance.
Qed.

End Quiet.

(** ** The documents and the milestone loop *)

Section Documents.

Context {Num : Numbers} {RT : Runtime} {W : World} {P : Paths} {H : Host}.

Lemma fileExists_run (filePath : jsstring) (s : setup_log) :
  (fs_stat s filePath = Ret true ->
   fileExists filePath s = (Ret true, FsStat filePath :: s))
  /\ (not_a_file (fs_stat s filePath) ->
      fileExists filePath s = (Ret false, FsStat filePath :: s)).
Proof.
  unfold fileExists. split.
  - now intros ->.
  - now intros [->|(e & ->)].
Qed.

Lemma fileExists_never_throws (filePath : jsstring) (s : setup_log) o s' :
  fileExists filePath s = (o, s') ->
  s' = FsStat filePath :: s /\ forall e, o <> Throw e.
Proof.
  unfold fileExists. intros E. inversion E; subst. split; [reflexivity|].
  intros e. now destruct (fs_stat s filePath) as [[]| |].
Qed.

(** X10.  [resolveDocPath] looks in the root first and in [docs/] only
    if the root has no such file; a request to the file system that
    fails counts as "no file"; with a file at neither place it
    throws, naming the file and both paths. *)
Theorem resolveDocPath_prefers_root (root fileName : jsstring) (s : setup_log) :
  let rootPath := path_join [root; fileName] in
  let docsPath := path_join [root; js "docs"; fileName] in
  let s1 := FsStat rootPath :: s in
  let s2 := FsStat docsPath :: s1 in
  (fs_stat s rootPath = Ret true ->
   resolveDocPath root fileName s = (Ret rootPath, s1))
  /\ (not_a_file (fs_stat s rootPath) ->
      (fs_stat s1 docsPath = Ret true ->
       resolveDocPath root fileName s = (Ret docsPath, s2))
      /\ (not_a_file (fs_stat s1 docsPath) ->
          resolveDocPath root fileName s
          = (Throw (RequiredFileNotFound fileName rootPath docsPath), s2))).
Proof.
  intros rootPath docsPath s1 s2. unfold resolveDocPath, setup_bind.
  fold rootPath. fold docsPath. split.
  - intros Hr. now rewrite (proj1 (fileExists_run rootPath s) Hr).
  - intros Hr. rewrite (proj2 (fileExists_run rootPath s) Hr). fold s1. split.
    + intros Hd. now rewrite (proj1 (fileExists_run docsPath s1) Hd).
    + intros Hd. now rewrite (proj2 (fileExists_run docsPath s1) Hd).
Qed.

Lemma resolveDocPath_outcomes (root fileName : jsstring) (s : setup_log) o s' :
  resolveDocPath root fileName s = (o, s') ->
  match o with
  | Ret path =>
      path = path_join [root; fileName]
      \/ path = path_join [root; js "docs"; fileName]
  | Throw e =>
      e = RequiredFileNotFound fileName (path_join [root; fileName])
            (path_join [root; js "docs"; fileName])
  | Diverge => True
  end.
Proof.
  unfold resolveDocPath, setup_bind, setup_ret, fileExists.
  destruct (fs_stat s _) as [[]|e|]; intros E; inversion E; subst; clear E;
    try (now left); try exact I.
  - destruct (fs_stat _ _) as [[]|e|]; inversion H1; subst;
      try (now right); try reflexivity; exact I.
  - destruct (fs_stat _ _) as [[]|e'|]; inversion H1; subst;
      try (now right); try reflexivity; exact I.
Qed.

Lemma resolveDocs_outcomes (root : jsstring) (s : setup_log) o s' :
  resolveDocs root s = (o, s') ->
  match o with
  | Ret docs =>
      plan docs = path_join [root; js "PLAN.md"]
      \/ plan docs = path_join [root; js "docs"; js "PLAN.md"]
  | Throw e =>
      exists fileName,
        In fileName document_names
        /\ e = RequiredFileNotFound fileName (path_join [root; fileName])
                 (path_join [root; js "docs"; fileName])
  | Diverge => True
  end.
Proof.
  unfold resolveDocs, setup_bind, setup_ret.
  destruct (resolveDocPath root (js "PRD.md") s) as [[p1|e1|] s1] eqn:E1.
  - destruct (resolveDocPath root (js "SPEC.md") s1) as [[p2|e2|] s2] eqn:E2.
    + destruct (resolveDocPath root (js "PLAN.md") s2) as [[p3|e3|] s3] eqn:E3;
        intros E; inversion E; subst; clear E.
      * exact (resolveDocPath_outcomes _ _ _ E3).
      * exists (js "PLAN.md"). split; [right; right; now left|].
        exact (resolveDocPath_outcomes _ _ _ E3).
      * exact I.
    + intros E; inversion E; subst. exists (js "SPEC.md").
      split; [right; now left|]. exact (resolveDocPath_outcomes _ _ _ E2).
    + intros E; inversion E; subst. exact I.
  - intros E; inversion E; subst. exists (js "PRD.md").
    split; [now left|]. exact (resolveDocPath_outcomes _ _ _ E1).
  - intros E; inversion E; subst. exact I.
Qed.

(** X11.  When a document is missing, the run fails before its first
    event: nothing is read, logged or asked of the provider, the error
    names the file and the two paths tried, the line on the error stream
    is that message after ["[orchestrator] Failed: "], and the exit code
    is 1. *)
Theorem orchestrar_missing_document (fuel : nat) (root : jsstring)
  (e : value) (s' : setup_log) :
  process_cwd = Ret root ->
  resolveDocs root [] = (Throw e, s') ->
  exists fileName,
    In fileName document_names
    /\ e = RequiredFileNotFound fileName (path_join [root; fileName])
             (path_join [root; js "docs"; fileName])
    /\ orchestrar fuel
       = (Throw e,
          {| stderr := [js "[orchestrator] Failed: Required file not found: "
                          ++ fileName ++ js " (checked " ++ path_join [root; fileName]
                          ++ js " and " ++ path_join [root; js "docs"; fileName]
                          ++ js ")."];
             exitCode := Some 1%Z;
             steps := s';
             events := [] |}).
Proof.
  intros Hcwd Hdocs.
  destruct (resolveDocs_outcomes _ _ Hdocs) as (fileName & Hin & ->).
  exists fileName. split; [exact Hin|]. split; [reflexivity|].
  unfold orchestrar, main. rewrite Hcwd, Hdocs.
  reflexivity.
Qed.

Lemma main_loop_returns (cycles : nat) :
  forall (fuel : nat) (docs : doc_paths) (root : jsstring) (index : Z) (h h' : history),
  main_loop cycles fuel docs root index h = (Ret tt, h') ->
  exists new content,
    h' = completed_line :: ReadFile (plan docs) :: new ++ h
    /\ read_file (new ++ h) (plan docs) = Ret content
    /\ has_unchecked content = false.
Proof.
  induction cycles as [|cycles IH]; intros fuel docs root index h h' Hrun;
    [discriminate Hrun|].
  simpl main_loop in Hrun.
  apply bind_ret_inv in Hrun as (unfinished & h1 & Hread & Hrun).
  rewrite hasUnfinishedTasks_runs in Hread.
  destruct (read_file h (plan docs)) as [content| |] eqn:Er; try discriminate Hread.
  inversion Hread; subst; clear Hread.
  destruct (has_unchecked content) eqn:Eu.
  - apply bind_ret_inv in Hrun as ([] & h2 & Hlog & Hrun).
    apply bind_ret_inv in Hrun as ([] & h3 & Hcycle & Hrun).
    unfold logStep in Hlog. inversion Hlog; subst; clear Hlog.
    destruct (@quiet_runMilestoneCycle _ _ _ _ (fun _ => false)
                ltac:(discriminate) fuel docs root _ _ _ Hcycle) as (n3 & -> & _).
    destruct (IH _ _ _ _ _ _ Hrun) as (new & content' & -> & Hr & Hu).
    eexists (new ++ n3 ++ [_; _]), content'.
    repeat rewrite <- app_assoc. simpl app. repeat split; try assumption.
  - unfold logStep in Hrun. inversion Hrun; subst; clear Hrun.
    exists [], content. now repeat split.
Qed.

(** X12.  [main] returns only after a reading of the plan (the file
    [PLAN.md] of the root or of [docs/]) that shows no unchecked task:
    its last two events are that reading and the line ["All milestones
    completed."]; and when the first reading shows none, it returns at
    once, with these two events and no instance opened. *)
Theorem main_completes_on_checked_plan (fuel : nat) (s : setup_log) (h : history) :
  (forall s' h', main fuel s h = (Ret tt, s', h') ->
   exists root planPath new content,
     process_cwd = Ret root
     /\ (planPath = path_join [root; js "PLAN.md"]
         \/ planPath = path_join [root; js "docs"; js "PLAN.md"])
     /\ h' = completed_line :: ReadFile planPath :: new ++ h
     /\ read_file (new ++ h) planPath = Ret content
     /\ has_unchecked content = false)
  /\ (forall root docs s1 content,
        process_cwd = Ret root ->
        resolveDocs root s = (Ret docs, s1) ->
        import_sdk s1 = Ret tt ->
        read_file h (plan docs) = Ret content ->
        has_unchecked content = false ->
        (0 < fuel)%nat ->
        main fuel s h
        = (Ret tt, ImportSdk :: s1, completed_line :: ReadFile (plan docs) :: h)).
Proof.
  split.
  - intros s' h' Hrun. unfold main in Hrun.
    destruct process_cwd as [root| |]; try discriminate Hrun.
    destruct (resolveDocs root s) as [[docs|e|] s1] eqn:Ed; try discriminate Hrun.
    destruct (import_sdk s1) as [[]|e|]; try discriminate Hrun.
    destruct (main_loop fuel fuel docs root 0 h) as [o h1] eqn:El.
    inversion Hrun; subst; clear Hrun.
    destruct (main_loop_returns _ _ _ _ _ _ El) as (new & content & -> & Hr & Hu).
    exists root, (plan docs), new, content.
    repeat split; try assumption.
    exact (resolveDocs_outcomes _ _ Ed).
  - intros root docs s1 content Hcwd Hdocs Himport Hread Hu Hfuel.
    unfold main. rewrite Hcwd, Hdocs, Himport.
    destruct fuel as [|fuel]; [lia|]. simpl main_loop.
    unfold bind at 1. rewrite hasUnfinishedTasks_runs, Hread, Hu. reflexivity.
Qed.

End Documents.

Unset Implicit Arguments.

(** ** The instances: opened, used, closed *)

Section Instances.

Context {Num : Numbers} {RT : Runtime} {W : World}.

Lemma silent_forallb A (p : event -> bool) (m : M A) h o h' :
  silent p m -> m h = (o, h') ->
  exists new, h' = new ++ h /\ forallb (fun e => negb (p e)) new = true.
Proof.
  intros Hs E. destruct (Hs _ _ _ E) as (new & -> & C). exists new.
  split; [reflexivity|]. clear E. unfold count_events in C.
  induction new as [|e new IH]; [reflexivity|]. simpl in *.
  destruct (p e); [discriminate C|]. now apply IH.
Qed.

Lemma calm_In (live : list nat) (e : event) (i : nat) :
  calm live e = true -> instance_of e = Some i -> In i live.
Proof.
  intros Hc Hi. destruct e; simpl in *; try discriminate; injection Hi as ->;
    apply existsb_exists in Hc as (x & Hx & E); apply Nat.eqb_eq in E; now subst.
Qed.

Lemma calm_not_close (live : list nat) (i : nat) : calm live (ServerClose i) = false.
Proof. reflexivity. Qed.

Lemma calm_more (live live' : list nat) (e : event) :
  (forall i, In i live -> In i live') -> calm live e = true -> calm live' e = true.
Proof.
  intros Hsub Hc. destruct e; simpl in *; try assumption; try reflexivity;
    apply existsb_exists in Hc as (x & Hx & E); apply existsb_exists;
    exists x; (split; [now apply Hsub|exact E]).
Qed.

Lemma opened_calm (live : list nat) (new h : history) :
  forallb (calm live) new = true -> opened (new ++ h) = opened h.
Proof.
  induction new as [|e new IH]; [reflexivity|]. simpl.
  intros Hc. apply andb_true_iff in Hc as [He Hc].
  destruct e; try discriminate He; now apply IH.
Qed.

Lemma calm_no_close (live : list nat) (new : history) (i : nat) :
  forallb (calm live) new = true -> ~ In (ServerClose i) new.
Proof.
  intros Hc Hin. rewrite forallb_forall in Hc. apply Hc in Hin. discriminate Hin.
Qed.

(** Where an element that is not in the first part of a list stands. *)
Lemma split_after A (x : A) (new h after before : list A) :
  new ++ h = after ++ x :: before -> ~ In x new ->
  exists after', after = new ++ after' /\ h = after' ++ x :: before.
Proof.
  revert after. induction new as [|e new IH]; intros after E Hx.
  - now exists after.
  - destruct after as [|a after]; simpl in E.
    + injection E as -> _. exfalso. apply Hx. now left.
    + injection E as -> E. destruct (IH _ E) as (after' & -> & ->).
      * intros Hin. apply Hx. now right.
      * now exists after'.
Qed.

(** *** The history stays in good order *)

Lemma tidy_calm (live : list nat) (new h : history) :
  tidy live h -> forallb (calm live) new = true -> tidy live (new ++ h).
Proof.
  intros (Ha & Hb & Hc) Hnew. split; [|split].
  - intros after i before E e He.
    destruct (@split_after _ (ServerClose i) new h after before E
                (@calm_no_close live new i Hnew)) as (after' & -> & ->).
    apply in_app_or in He as [He|He].
    + intros Hi. rewrite forallb_forall in Hnew.
      destruct (Hc i (@calm_In live e i (Hnew _ He) Hi)) as [_ Hclosed].
      apply Hclosed, in_or_app. right. now left.
    + now apply (Ha after' i before).
  - intros e i He Hi. rewrite (@opened_calm live new h Hnew).
    apply in_app_or in He as [He|He].
    + rewrite forallb_forall in Hnew.
      now apply Hc, (@calm_In live e i (Hnew _ He) Hi).
    + now apply (Hb e).
  - intros i Hi. rewrite (@opened_calm live new h Hnew).
    destruct (Hc i Hi) as [Ho Hclosed]. split; [exact Ho|].
    intros Hin. apply in_app_or in Hin as [Hin|Hin].
    + now apply (@calm_no_close live new i Hnew).
    + now apply Hclosed.
Qed.

Lemma tidy_open (live : list nat) (h : history) (config : value) (i : nat) :
  fresh_instances -> tidy live h -> open_instance h config = Ret i ->
  tidy (i :: live) (CreateOpencode config :: h) /\ ~ In i live.
Proof.
  intros Hfresh (Ha & Hb & Hc) Hopen.
  assert (Hnew : ~ In i (opened h)) by exact (Hfresh _ _ _ Hopen).
  assert (Hop : opened (CreateOpencode config :: h) = i :: opened h)
    by (simpl; now rewrite Hopen).
  split; [split; [|split]|].
  - intros after j before E e He.
    destruct after as [|a after]; [discriminate E|].
    injection E as <- E. destruct He as [<-|He]; [discriminate|].
    now apply (Ha after j before).
  - intros e j He Hj. rewrite Hop. destruct He as [<-|He]; [discriminate Hj|].
    right. now apply (Hb e).
  - intros j Hj. rewrite Hop. destruct Hj as [<-|Hj].
    + split; [now left|]. intros [Hin|Hin]; [discriminate Hin|].
      apply Hnew. now apply (Hb (ServerClose i)).
    + destruct (Hc j Hj) as [Ho Hclosed]. split; [now right|].
      intros [Hin|Hin]; [discriminate Hin|now apply Hclosed].
  - intros Hin. apply Hnew. now apply Hc.
Qed.

Lemma tidy_open_failed (live : list nat) (h : history) (config : value) :
  tidy live h -> (forall i, open_instance h config <> Ret i) ->
  tidy live (CreateOpencode config :: h).
Proof.
  intros (Ha & Hb & Hc) Hopen.
  assert (Hop : opened (CreateOpencode config :: h) = opened h).
  { simpl. destruct (open_instance h config) as [i| |]; try reflexivity.
    now destruct (Hopen i). }
  split; [|split].
  - intros after j before E e He.
    destruct after as [|a after]; [discriminate E|].
    injection E as <- E. destruct He as [<-|He]; [discriminate|].
    now apply (Ha after j before).
  - intros e j He Hj. rewrite Hop. destruct He as [<-|He]; [discriminate Hj|].
    now apply (Hb e).
  - intros j Hj. rewrite Hop. destruct (Hc j Hj) as [Ho Hclosed].
    split; [exact Ho|]. intros [Hin|Hin]; [discriminate Hin|now apply Hclosed].
Qed.

Lemma tidy_close (live : list nat) (h : history) (i : nat) :
  tidy (i :: live) h -> ~ In i live -> tidy live (ServerClose i :: h).
Proof.
  intros (Ha & Hb & Hc) Hi.
  destruct (Hc i (or_introl eq_refl)) as [Hio Hiclosed].
  split; [|split].
  - intros after j before E e He.
    destruct after as [|a after]; [destruct He|].
    injection E as <- E. destruct He as [<-|He].
    + simpl. intros [= ->]. apply Hiclosed. rewrite E.
      apply in_or_app. right. now left.
    + now apply (Ha after j before).
  - intros e j He Hj. change (opened (ServerClose i :: h)) with (opened h).
    destruct He as [<-|He]; [now injection Hj as <-|now apply (Hb e)].
  - intros j Hj. change (opened (ServerClose i :: h)) with (opened h).
    destruct (Hc j (or_intror Hj)) as [Ho Hclosed]. split; [exact Ho|].
    intros [Hin|Hin]; [|now apply Hclosed].
    injection Hin as ->. contradiction.
Qed.

Lemma tidy_weaken (live : list nat) (h : history) (i : nat) :
  tidy (i :: live) h -> tidy live h.
Proof.
  intros (Ha & Hb & Hc). split; [exact Ha|split; [exact Hb|]].
  intros j Hj. apply Hc. now right.
Qed.

(** *** Every instance handed out is closed or in use *)

Lemma settled_calm (live : list nat) (new h : history) :
  settled live h -> forallb (calm live) new = true -> settled live (new ++ h).
Proof.
  intros Hs Hnew i Hi. rewrite (@opened_calm live new h Hnew) in Hi.
  destruct (Hs i Hi) as [Hl|Hc]; [now left|right].
  apply in_or_app. now right.
Qed.

Lemma settled_open (live : list nat) (h : history) (config : value) (i : nat) :
  settled live h -> open_instance h config = Ret i ->
  settled (i :: live) (CreateOpencode config :: h).
Proof.
  intros Hs Hopen j Hj. simpl in Hj. rewrite Hopen in Hj.
  destruct Hj as [<-|Hj]; [left; now left|].
  destruct (Hs j Hj) as [Hl|Hc]; [left; now right|right; now right].
Qed.

Lemma settled_open_failed (live : list nat) (h : history) (config : value) :
  settled live h -> (forall i, open_instance h config <> Ret i) ->
  settled live (CreateOpencode config :: h).
Proof.
  intros Hs Hopen j Hj. simpl in Hj.
  destruct (open_instance h config) as [i| |]; [now destruct (Hopen i)| |];
    (destruct (Hs j Hj) as [Hl|Hc]; [now left|right; now right]).
Qed.

Lemma settled_close (live : list nat) (h : history) (i : nat) :
  settled (i :: live) h -> settled live (ServerClose i :: h).
Proof.
  intros Hs j Hj. change (opened (ServerClose i :: h)) with (opened h) in Hj.
  destruct (Hs j Hj) as [[<-|Hl]|Hc].
  - right. now left.
  - now left.
  - right. now right.
Qed.

End Instances.

(** *** What the requests of one client add *)

Section ClientEvents.

Context {Num : Numbers} {RT : Runtime} {W : World} {P : Paths}.

Variables (live : list nat) (c : nat).

Hypothesis c_live : In c live.

Lemma live_existsb : existsb (Nat.eqb c) live = true.
Proof. apply existsb_exists. exists c. split; [exact c_live|apply Nat.eqb_refl]. Qed.

Lemma calm_logStep (message : jsstring) : silent (restless live) (logStep message).
Proof. unfold logStep. now apply silent_event. Qed.

Lemma calm_status (root : jsstring) : restless live (SessionStatus c root) = false.
Proof. unfold restless, calm. simpl. now rewrite live_existsb. Qed.

Lemma calm_wait_loop (fuel : nat) (sessionID root : jsstring)
  (timeoutMs pollIntervalMs start : Z) :
  silent (restless live)
    (waitForSessionIdle_loop fuel c sessionID root timeoutMs pollIntervalMs start).
Proof.
  induction fuel as [|fuel IH]; simpl; [apply silent_diverge|].
  apply silent_bind; [now apply silent_event|]. intros now_.
  destruct (now_ - start <? timeoutMs)%Z; [|apply silent_throw].
  apply silent_bind; [apply silent_await_unwrap, calm_status|]. intros statusMap.
  destruct (negb _); [apply silent_throw|].
  destruct (strict_eq_str _ _); [apply silent_ret|].
  apply silent_bind; [|intros _; exact IH].
  unfold delay. now apply silent_event.
Qed.

Lemma calm_wait (fuel : nat) (sessionID root : jsstring) (timeoutOverrideMs : option Z) :
  silent (restless live) (waitForSessionIdle fuel c sessionID root timeoutOverrideMs).
Proof.
  unfold waitForSessionIdle. apply silent_bind; [now apply silent_event|].
  intros start. apply calm_wait_loop.
Qed.

Lemma calm_sendPrompt (sessionID text root modelSpec agentSpec : jsstring) :
  silent (restless live) (sendPrompt c sessionID text root modelSpec agentSpec).
Proof.
  unfold sendPrompt. apply silent_bind; [apply silent_lift|]. intros model.
  apply silent_bind; [|intros _; apply silent_ret].
  apply silent_await_unwrap. unfold restless, calm. simpl. now rewrite live_existsb.
Qed.

Lemma calm_session_create (root title : jsstring) :
  silent (restless live) (await_unwrap (SessionCreate c root title) "session.create").
Proof.
  apply silent_await_unwrap. unfold restless, calm. simpl. now rewrite live_existsb.
Qed.

Lemma calm_runReviewCommand_body (fuel : nat) (root : jsstring) :
  silent (restless live) (runReviewCommand_body fuel c root).
Proof.
  unfold runReviewCommand_body.
  apply silent_bind; [apply calm_session_create|]. intros session.
  apply silent_bind; [apply silent_lift|]. intros sessionID.
  apply silent_bind.
  { apply silent_await_unwrap. unfold restless, calm. simpl. now rewrite live_existsb. }
  intros commandResult.
  apply silent_bind; [apply calm_wait|]. intros _.
  apply silent_bind.
  - destruct (truthy _); [|apply silent_ret].
    apply silent_bind; [|intros message; apply silent_ret].
    apply silent_await_unwrap. unfold restless, calm. simpl. now rewrite live_existsb.
  - intros parts. destruct (str_falsy _); [apply silent_throw|apply silent_lift].
Qed.

Lemma calm_runCommitInstance_body (fuel : nat) (root : jsstring) :
  silent (restless live) (runCommitInstance_body fuel c root).
Proof.
  unfold runCommitInstance_body.
  apply silent_bind; [apply calm_session_create|]. intros session.
  apply silent_bind; [apply silent_lift|]. intros sessionID.
  apply silent_bind; [apply calm_sendPrompt|]. intros _.
  apply calm_wait.
Qed.

End ClientEvents.

Section Disposal.

Context {Num : Numbers} {RT : Runtime} {W : World}.

(** What [disposeInstance] adds: the dispose request, the line logged
    if it failed, and the closing of the server, last, unless the
    dispose request never returns. *)
Lemma disposeInstance_events (instance : nat) (root : jsstring)
  (h : history) (o : result unit) (h' : history) :
  disposeInstance instance root h = (o, h') ->
  exists pre,
    forallb (calm [instance]) pre = true
    /\ ((h' = pre ++ h /\ o = Diverge) \/ h' = ServerClose instance :: pre ++ h).
Proof.
  intros E.
  destruct (dispose_answer instance root h) as [u|e|] eqn:Ea.
  - rewrite disposeInstance_run in E by (rewrite Ea; discriminate).
    rewrite Ea in E. inversion E; subst. exists [InstanceDispose instance root].
    split; [|now right]. simpl. now rewrite Nat.eqb_refl.
  - rewrite disposeInstance_run in E by (rewrite Ea; discriminate).
    rewrite Ea in E. inversion E; subst.
    exists [Log (js "[orchestrator] Instance dispose failed: " ++ formatError e);
            InstanceDispose instance root].
    split; [|now right]. simpl. now rewrite Nat.eqb_refl.
  - unfold disposeInstance, bind, try_catch in E. rewrite dispose_call_run, Ea in E.
    inversion E; subst. exists [InstanceDispose instance root].
    split; [|now left]. simpl. now rewrite Nat.eqb_refl.
Qed.

End Disposal.

(** *** A property kept by every part of a run *)

Section Scopes.

Context {Num : Numbers} {RT : Runtime} {W : World} {P : Paths}.

Variable Inv : list nat -> history -> Prop.
Variable unending : bool.
Variable Q : nat -> list nat -> Prop.

Hypothesis I_calm : forall live new h,
  Inv live h -> forallb (calm live) new = true -> Inv live (new ++ h).
Hypothesis I_open : forall live h config i,
  Inv live h -> open_instance h config = Ret i ->
  Inv (i :: live) (CreateOpencode config :: h) /\ Q i live.
Hypothesis I_open_failed : forall live h config,
  Inv live h -> (forall i, open_instance h config <> Ret i) ->
  Inv live (CreateOpencode config :: h).
Hypothesis I_close : forall live h i,
  Inv (i :: live) h -> Q i live -> Inv live (ServerClose i :: h).
Hypothesis I_weaken : unending = true ->
  forall live h i, Inv (i :: live) h -> Inv live h.

Lemma keeps_silent (live : list nat) A (m : M A) :
  silent (restless live) m -> keeps Inv unending live m.
Proof.
  intros Hs h o h' E _ HI.
  destruct (silent_forallb _ _ _ _ _ _ Hs E) as (new & -> & Hnew).
  apply I_calm; [exact HI|].
  rewrite forallb_forall in *. intros e He. specialize (Hnew e He).
  unfold restless in Hnew. now rewrite negb_involutive in Hnew.
Qed.

Lemma keeps_bind (live : list nat) A B (m : M A) (f : A -> M B) :
  keeps Inv unending live m -> (forall a, keeps Inv unending live (f a)) ->
  keeps Inv unending live (bind m f).
Proof.
  intros Hm Hf h o h' E Hcond HI.
  destruct (bind_inv _ _ _ E) as [(a & h1 & Em & Ef)|[(e & Em & ->)|(Em & ->)]].
  - apply (Hf a h1 o h' Ef Hcond).
    apply (Hm h (Ret a) h1 Em); [right; discriminate|exact HI].
  - apply (Hm h (Throw e) h' Em); [right; discriminate|exact HI].
  - apply (Hm h Diverge h' Em); [|exact HI].
    destruct Hcond as [Hu|Hd]; [now left|now destruct Hd].
Qed.

(** An instance is opened, used by [body], disposed of and closed. *)
Lemma keeps_scope (live : list nat) A (config : value) (body : nat -> M A)
  (root : jsstring) :
  (forall i, keeps Inv unending (i :: live) (body i)) ->
  keeps Inv unending live
    (bind (createOpencode config)
       (fun instance => try_finally (body instance) (disposeInstance instance root))).
Proof.
  intros Hbody h o h' E Hcond HI.
  destruct (bind_inv _ _ _ E) as [(i & h1 & Eo & Ef)|[(e & Eo & ->)|(Eo & ->)]];
    unfold createOpencode in Eo; inversion Eo; subst; clear Eo.
  - destruct (I_open _ _ _ _ HI H0) as [HI1 HQ].
    destruct (try_finally_inv _ _ _ Ef)
      as [(Eb & ->)|(ob & hb & oc & Eb & Hob & Ec & ->)].
    + destruct Hcond as [Hu|Hd]; [|now destruct Hd].
      apply (I_weaken Hu live _ i).
      apply (Hbody i _ _ _ Eb); [now left|exact HI1].
    + assert (HIb : Inv (i :: live) hb)
        by (apply (Hbody i _ _ _ Eb); [now right|exact HI1]).
      destruct (disposeInstance_events _ _ _ _ _ Ec) as (pre & Hpre & [(-> & ->) | -> ]).
      * destruct Hcond as [Hu|Hd]; [|now destruct Hd].
        apply (I_weaken Hu live _ i). apply I_calm; [exact HIb|].
        rewrite forallb_forall in *. intros e He.
        apply (calm_more [i] (i :: live)); [|now apply Hpre].
        intros j [<-|[]]. now left.
      * apply I_close; [|exact HQ]. apply I_calm; [exact HIb|].
        rewrite forallb_forall in *. intros e He.
        apply (calm_more [i] (i :: live)); [|now apply Hpre].
        intros j [<-|[]]. now left.
  - apply I_open_failed; [exact HI|]. intros i. rewrite H0. discriminate.
  - apply I_open_failed; [exact HI|]. intros i. rewrite H0. discriminate.
Qed.

Lemma keeps_runReviewCommand (live : list nat) (fuel : nat) (root : jsstring) :
  keeps Inv unending live (runReviewCommand fuel root).
Proof.
  unfold runReviewCommand. apply keeps_scope. intros i.
  apply keeps_silent, calm_runReviewCommand_body. now left.
Qed.

Lemma keeps_runReviewLoop_from (live : list nat) (client : nat) (remaining : nat) :
  In client live ->
  forall (iteration maxIterations : Z) (fuel : nat) (sessionID root : jsstring),
  keeps Inv unending live
    (runReviewLoop_from remaining iteration maxIterations fuel client sessionID root).
Proof.
  intros Hl. induction remaining as [|remaining IH]; intros; simpl runReviewLoop_from.
  - apply keeps_silent, silent_throw.
  - apply keeps_bind; [apply keeps_silent, calm_logStep|]. intros _.
    apply keeps_bind; [apply keeps_runReviewCommand|]. intros reviewResult.
    apply keeps_bind; [apply keeps_silent, silent_lift|]. intros empty.
    destruct empty.
    + apply keeps_bind; [apply keeps_silent, calm_logStep|]. intros _.
      apply keeps_silent, silent_ret.
    + apply keeps_bind; [apply keeps_silent, calm_logStep|]. intros _.
      apply keeps_bind; [now apply keeps_silent, calm_sendPrompt|]. intros _.
      apply keeps_bind; [now apply keeps_silent, calm_wait|]. intros _.
      apply IH.
Qed.

Lemma keeps_runWorkInstance (live : list nat) (fuel : nat) (docs : doc_paths)
  (root : jsstring) :
  keeps Inv unending live (runWorkInstance fuel docs root).
Proof.
  unfold runWorkInstance. apply keeps_scope. intros i.
  assert (Hi : In i (i :: live)) by now left.
  unfold runWorkInstance_body.
  apply keeps_bind; [now apply keeps_silent, calm_session_create|]. intros session.
  apply keeps_bind; [apply keeps_silent, silent_lift|]. intros sessionID.
  apply keeps_bind; [now apply keeps_silent, calm_sendPrompt|]. intros _.
  apply keeps_bind; [now apply keeps_silent, calm_wait|]. intros _.
  apply keeps_bind; [now apply keeps_runReviewLoop_from|]. intros _.
  apply keeps_bind; [now apply keeps_silent, calm_sendPrompt|]. intros _.
  now apply keeps_silent, calm_wait.
Qed.

Lemma keeps_runCommitInstance (live : list nat) (fuel : nat) (root : jsstring) :
  keeps Inv unending live (runCommitInstance fuel root).
Proof.
  unfold runCommitInstance. apply keeps_scope. intros i.
  apply keeps_silent, calm_runCommitInstance_body. now left.
Qed.

Lemma keeps_runMilestoneCycle (live : list nat) (fuel : nat) (docs : doc_paths)
  (root : jsstring) :
  keeps Inv unending live (runMilestoneCycle fuel docs root).
Proof.
  unfold runMilestoneCycle. apply keeps_bind; [apply keeps_runWorkInstance|].
  intros _. apply keeps_runCommitInstance.
Qed.

Lemma keeps_main_loop (live : list nat) (cycles : nat) :
  forall (fuel : nat) (docs : doc_paths) (root : jsstring) (index : Z),
  keeps Inv unending live (main_loop cycles fuel docs root index).
Proof.
  induction cycles as [|cycles IH]; intros; simpl main_loop.
  - apply keeps_silent, silent_diverge.
  - apply keeps_bind.
    { apply keeps_silent. unfold hasUnfinishedTasks.
      apply silent_bind; [|intros content; apply silent_ret].
      unfold readFile. now apply silent_event. }
    intros unfinished. destruct unfinished.
    + apply keeps_bind; [apply keeps_silent, calm_logStep|]. intros _.
      apply keeps_bind; [apply keeps_runMilestoneCycle|]. intros _. apply IH.
    + apply keeps_silent, calm_logStep.
Qed.

End Scopes.

Section Orderly.

Context {Num : Numbers} {RT : Runtime} {W : World} {P : Paths} {H : Host}.

Lemma main_events (fuel : nat) (s : setup_log) (h : history) o s' h' :
  main fuel s h = (o, s', h') ->
  h' = h \/ exists docs root, main_loop fuel fuel docs root 0 h = (o, h').
Proof.
  unfold main. intros E.
  destruct process_cwd as [root| |]; [|inversion E; now left..].
  destruct (resolveDocs root s) as [[docs|e|] s1]; [|inversion E; now left..].
  destruct (import_sdk s1) as [[]|e|]; [|inversion E; now left..].
  destruct (main_loop fuel fuel docs root 0 h) as [o1 h1] eqn:El.
  inversion E; subst. right. now exists docs, root.
Qed.

(** X13.  With a provider that hands out every instance once, a run
    of [main], however it ends and also if it does not, never sends a
    request to an instance whose server it has closed, and sends
    requests only to instances that [createOpencode] handed out. *)
Theorem main_never_uses_closed_instance (fuel : nat) (s : setup_log)
  (o : result unit) (s' : setup_log) (h' : history) :
  fresh_instances ->
  main fuel s [] = (o, s', h') ->
  no_use_after_close h' /\ only_opened_used h'.
Proof.
  intros Hfresh Hrun.
  assert (Hstart : tidy [] []).
  { split; [|split].
    - intros after i before E. now destruct after.
    - intros e i [].
    - intros i []. }
  assert (Hend : tidy [] h').
  { destruct (main_events _ _ _ _ _ _ Hrun) as [->|(docs & root & El)]; [exact Hstart|].
    apply (keeps_main_loop tidy true (fun i live => ~ In i live)
             tidy_calm (fun live h config i Ht Ho => tidy_open live h config i Hfresh Ht Ho)
             tidy_open_failed tidy_close (fun _ => tidy_weaken)
             [] fuel fuel docs root 0%Z [] o h' El);
      [now left|exact Hstart]. }
  destruct Hend as (Ha & Hb & _). now split.
Qed.

(** X14.  When a run of [main] ends, with a return or with a throw,
    a request to close its server has been made for every instance
    that [createOpencode] handed out in it: the work instance, the
    commit instance and the review instances alike. *)
Theorem main_closes_every_instance (fuel : nat) (s : setup_log)
  (o : result unit) (s' : setup_log) (h' : history) :
  main fuel s [] = (o, s', h') ->
  o <> Diverge ->
  all_closed h'.
Proof.
  intros Hrun Ho.
  assert (Hstart : settled [] []) by (intros i []).
  assert (Hend : settled [] h').
  { destruct (main_events _ _ _ _ _ _ Hrun) as [->|(docs & root & El)]; [exact Hstart|].
    apply (keeps_main_loop settled false (fun _ _ => True)
             settled_calm
             (fun live h config i Hs Hopen => conj (settled_open live h config i Hs Hopen) I)
             settled_open_failed (fun live h i Hs _ => settled_close live h i Hs)
             (fun Hf => False_ind _ (Bool.diff_false_true Hf))
             [] fuel fuel docs root 0%Z [] o h' El);
      [now right|exact Hstart]. }
  intros i Hi. destruct (Hend i Hi) as [[]|Hc]. exact Hc.
Qed.

End Orderly.

(** ** The events of a work instance and of a commit instance *)

Section InstanceRuns.

Context {Num : Numbers} {RT : Runtime} {W : World} {P : Paths}.

Lemma await_unwrap_returns (req : event) (label : string) (h : history) v h' :
  await_unwrap req label h = (Ret v, h') -> h' = req :: h.
Proof. intros E. rewrite await_unwrap_run in E. now inversion E. Qed.

Lemma sendPrompt_returns (client : nat) (sessionID text root modelSpec agentSpec : jsstring)
  (model : model_spec) (h h' : history) :
  parseModelSpec modelSpec = Ret model ->
  sendPrompt client sessionID text root modelSpec agentSpec h = (Ret tt, h') ->
  h' = SessionPrompt client sessionID root agentSpec model text :: h.
Proof.
  intros Hm E. unfold sendPrompt in E. rewrite Hm in E.
  apply bind_ret_inv in E as (m & h1 & E1 & E).
  unfold lift in E1. inversion E1; subst; clear E1.
  apply bind_ret_inv in E as (v & h2 & E2 & E).
  apply await_unwrap_returns in E2. subst h2.
  unfold ret in E. now inversion E.
Qed.

Lemma extends_history A (m : M A) (h : history) o h' :
  silent (fun _ => false) m -> m h = (o, h') -> exists new, h' = new ++ h.
Proof. intros Hs E. destruct (Hs _ _ _ E) as (new & -> & _). now exists new. Qed.

Lemma no_read_counted (e : event) : (fun _ : event => false) e = true ->
  exists path, e = ReadFile path.
Proof. discriminate. Qed.

(** The review loop returns only from a clean review: the line that
    says so is its last event. *)
Lemma runReviewLoop_from_returns (remaining : nat) :
  forall (iteration maxIterations : Z) (fuel client : nat) (sessionID root : jsstring)
         (h h' : history),
  runReviewLoop_from remaining iteration maxIterations fuel client sessionID root h
  = (Ret tt, h') ->
  exists middle, h' = clean_line :: middle ++ h.
Proof.
  induction remaining as [|remaining IH]; intros iteration maxIterations fuel client
    sessionID root h h' E; simpl runReviewLoop_from in E; [discriminate E|].
  apply bind_ret_inv in E as ([] & h1 & E1 & E).
  unfold logStep in E1. inversion E1; subst; clear E1.
  apply bind_ret_inv in E as (reviewResult & h2 & E2 & E).
  destruct (extends_history _ _ _ _ _ (quiet_runReviewCommand _ no_read_counted fuel root) E2)
    as (n2 & ->).
  apply bind_ret_inv in E as (empty & h3 & E3 & E).
  unfold lift in E3. inversion E3; subst; clear E3.
  destruct empty.
  - apply bind_ret_inv in E as ([] & h4 & E4 & E).
    unfold logStep in E4. inversion E4; subst; clear E4.
    unfold ret in E. inversion E; subst; clear E.
    eexists (n2 ++ [_]). unfold clean_line. now rewrite <- app_assoc.
  - apply bind_ret_inv in E as ([] & h4 & E4 & E).
    unfold logStep in E4. inversion E4; subst; clear E4.
    apply bind_ret_inv in E as ([] & h5 & E5 & E).
    destruct (extends_history _ _ _ _ _
                (quiet_sendPrompt _ no_read_counted _ _ _ _ _ _) E5) as (n5 & ->).
    apply bind_ret_inv in E as ([] & h6 & E6 & E).
    destruct (extends_history _ _ _ _ _
                (quiet_wait _ no_read_counted _ _ _ _ _) E6) as (n6 & ->).
    destruct (IH _ _ _ _ _ _ _ _ E) as (middle & ->).
    eexists (middle ++ n6 ++ n5 ++ [_] ++ n2 ++ [_]).
    now repeat (rewrite <- app_assoc; simpl).
Qed.

Lemma is_prompt_silent_wait (fuel client : nat) (sessionID root : jsstring)
  (timeoutOverrideMs : option Z) :
  silent is_prompt (waitForSessionIdle fuel client sessionID root timeoutOverrideMs).
Proof. now apply silent_wait. Qed.

(** A disposal that returns has closed the server last, and has sent
    no prompt. *)
Lemma disposeInstance_returns (instance : nat) (root : jsstring) (h h' : history) :
  disposeInstance instance root h = (Ret tt, h') ->
  exists pre, h' = ServerClose instance :: pre ++ h
              /\ count_events is_prompt pre = 0%nat.
Proof.
  intros E.
  destruct (dispose_answer instance root h) as [u|e|] eqn:Ea.
  - rewrite disposeInstance_run in E by (rewrite Ea; discriminate).
    rewrite Ea in E. inversion E; subst.
    exists [InstanceDispose instance root]. now split.
  - rewrite disposeInstance_run in E by (rewrite Ea; discriminate).
    rewrite Ea in E. inversion E; subst.
    now exists [Log (js "[orchestrator] Instance dispose failed: " ++ formatError e);
                InstanceDispose instance root].
  - unfold disposeInstance, bind, try_catch in E. rewrite dispose_call_run, Ea in E.
    discriminate E.
Qed.

(** X15.  A work instance that returns has, in this order: been
    opened with the default model, created its session, sent the
    milestone prompt, had the review loop log a clean review and, as the
    very next event, sent the prompt to mark the tasks, then sent no
    further prompt, and closed its server last.  So the tasks are never
    marked without a clean review just before. *)
Theorem runWorkInstance_marks_after_clean_review
  (fuel : nat) (docs : doc_paths) (root : jsstring) (h h' : history) :
  runWorkInstance fuel docs root h = (Ret tt, h') ->
  exists instance sessionID middle after,
    h' = ServerClose instance :: after
           ++ mark_tasks_prompt instance sessionID root docs
           :: clean_line
           :: middle
           ++ milestone_prompt instance sessionID root docs
           :: SessionCreate instance root (js "Milestone Orchestrator")
           :: CreateOpencode (buildConfig DEFAULT_MODEL)
           :: h
    /\ count_events is_prompt after = 0%nat.
Proof.
  intros E. unfold runWorkInstance in E.
  apply bind_ret_inv in E as (instance & h0 & E0 & E).
  unfold createOpencode in E0. inversion E0; subst; clear E0.
  apply try_finally_ret_inv in E as (h1 & Ebody & Eclean).
  unfold runWorkInstance_body in Ebody.
  apply bind_ret_inv in Ebody as (session & hA & EA & Ebody).
  apply await_unwrap_returns in EA. subst hA.
  apply bind_ret_inv in Ebody as (sessionID & hB & EB & Ebody).
  unfold lift in EB. inversion EB; subst; clear EB.
  apply bind_ret_inv in Ebody as ([] & hC & EC & Ebody).
  apply (sendPrompt_returns _ _ _ _ _ _ _ _ _ parseModelSpec_DEFAULT_MODEL) in EC.
  subst hC.
  apply bind_ret_inv in Ebody as ([] & hD & ED & Ebody).
  destruct (extends_history _ _ _ _ _
              (quiet_wait _ no_read_counted _ _ _ _ _) ED) as (nD & ->).
  apply bind_ret_inv in Ebody as ([] & hE & EE & Ebody).
  unfold runReviewLoop in EE.
  destruct (runReviewLoop_from_returns _ _ _ _ _ _ _ _ _ EE) as (middle & ->).
  apply bind_ret_inv in Ebody as ([] & hF & EF & Ebody).
  apply (sendPrompt_returns _ _ _ _ _ _ _ _ _ parseModelSpec_DEFAULT_MODEL) in EF.
  subst hF.
  destruct (is_prompt_silent_wait _ _ _ _ _ _ _ _ Ebody) as (nG & -> & CG).
  destruct (disposeInstance_returns _ _ _ _ Eclean) as (pre & -> & Cpre).
  exists instance, sessionID, (middle ++ nD), (pre ++ nG).
  split.
  - unfold mark_tasks_prompt, milestone_prompt, default_model.
    now repeat (rewrite <- app_assoc; simpl).
  - rewrite count_events_app. lia.
Qed.

(** X16.  A commit instance that returns has been opened with the
    commit model, has created its session, has sent one prompt, the
    commit prompt, to the agent ["build"] with the provider
    ["github-copilot"] and the model ["gpt-5-mini"], and has closed its
    server last. *)
Theorem runCommitInstance_sends_commit_prompt
  (fuel : nat) (root : jsstring) (h h' : history) :
  runCommitInstance fuel root h = (Ret tt, h') ->
  exists instance sessionID after,
    h' = ServerClose instance :: after
           ++ commit_prompt instance sessionID root
           :: SessionCreate instance root (js "Commit & Push")
           :: CreateOpencode (buildConfig COMMIT_MODEL)
           :: h
    /\ count_events is_prompt after = 0%nat.
Proof.
  intros E. unfold runCommitInstance in E.
  apply bind_ret_inv in E as (instance & h0 & E0 & E).
  unfold createOpencode in E0. inversion E0; subst; clear E0.
  apply try_finally_ret_inv in E as (h1 & Ebody & Eclean).
  unfold runCommitInstance_body in Ebody.
  apply bind_ret_inv in Ebody as (session & hA & EA & Ebody).
  apply await_unwrap_returns in EA. subst hA.
  apply bind_ret_inv in Ebody as (sessionID & hB & EB & Ebody).
  unfold lift in EB. inversion EB; subst; clear EB.
  apply bind_ret_inv in Ebody as ([] & hC & EC & Ebody).
  apply (sendPrompt_returns _ _ _ _ _ _ _ _ _ parseModelSpec_COMMIT_MODEL) in EC.
  subst hC.
  destruct (is_prompt_silent_wait _ _ _ _ _ _ _ _ Ebody) as (nG & -> & CG).
  destruct (disposeInstance_returns _ _ _ _ Eclean) as (pre & -> & Cpre).
  exists instance, sessionID, (pre ++ nG).
  split.
  - unfold commit_prompt, commit_model. now repeat (rewrite <- app_assoc; simpl).
  - rewrite count_events_app. lia.
Qed.

End InstanceRuns.

(** ** [parseNumber] reads the decimal text of an integer *)

From Stdlib Require DecimalPos.

Lemma digits_value_stops (acc : Z) (rest : jsstring) :
  starts_with_digit rest = false -> digits_value acc rest = acc.
Proof. destruct rest as [|c t]; simpl; [reflexivity|]. now intros ->. Qed.

Lemma digits_value_acc (d : Decimal.uint) (rest : jsstring) :
  starts_with_digit rest = false ->
  forall acc : positive,
  digits_value (Zpos acc) (digits_of_uint d ++ rest) = Zpos (Pos.of_uint_acc d acc).
Proof.
  intros Hrest. induction d as [|d IH|d IH|d IH|d IH|d IH|d IH|d IH|d IH|d IH|d IH];
    intros acc; [now apply digits_value_stops|..];
    cbn [digits_of_uint app digits_value Pos.of_uint_acc];
    match goal with
    | |- (if is_digit ?c then _ else _) = _ =>
        replace (is_digit c) with true by reflexivity
    end; rewrite <- IH; f_equal; lia.
Qed.

Lemma digits_value_uint (d : Decimal.uint) (rest : jsstring) :
  starts_with_digit rest = false ->
  digits_value 0 (digits_of_uint d ++ rest) = Z.of_N (Pos.of_uint d).
Proof.
  intros Hrest. induction d as [|d IH|d IH|d IH|d IH|d IH|d IH|d IH|d IH|d IH|d IH];
    [now apply digits_value_stops|exact IH|..];
    cbn [digits_of_uint app digits_value Pos.of_uint];
    match goal with
    | |- (if is_digit ?c then _ else _) = _ =>
        replace (is_digit c) with true by reflexivity
    end;
    match goal with
    | |- _ = Z.of_N (N.pos (Pos.of_uint_acc _ ?k)) =>
        exact (digits_value_acc d rest Hrest k)
    end.
Qed.

Lemma trimStart_spaces (ws s : jsstring) :
  forallb is_js_space ws = true -> trimStart (ws ++ s) = trimStart s.
Proof.
  induction ws as [|c ws IH]; simpl; [reflexivity|].
  intros H. apply andb_true_iff in H as [-> H]. now apply IH.
Qed.

(** The decimal text of a positive integer starts with a digit. *)
Lemma digits_head (d : Decimal.uint) (rest : jsstring) :
  d <> Decimal.Nil ->
  trimStart (digits_of_uint d ++ rest) = digits_of_uint d ++ rest
  /\ int_unsigned (digits_of_uint d ++ rest) = digits_of_uint d ++ rest
  /\ starts_with_digit (digits_of_uint d ++ rest) = true
  /\ int_negative (digits_of_uint d ++ rest) = false.
Proof. destruct d; [contradiction|..]; intros _; repeat split. Qed.

(** X17.  [parseNumber] reads the decimal integer a text starts with:
    for a positive integer below 2^53 written in decimal, after any
    white space and before anything that does not start with a digit,
    the answer is that integer, whatever the fallback. *)
Theorem parseNumber_reads_decimal (n fallback : Z) (ws rest : jsstring) :
  (0 < n < 2 ^ 53)%Z ->
  forallb is_js_space ws = true ->
  starts_with_digit rest = false ->
  parseNumber (Some (ws ++ string_of_Z n ++ rest)) fallback = n.
Proof.
  intros [Hpos Hlt] Hws Hrest.
  destruct n as [|p|p]; try lia.
  assert (Es : string_of_Z (Zpos p) = digits_of_uint (Pos.to_uint p)) by reflexivity.
  rewrite Es.
  destruct (digits_head (Pos.to_uint p) rest (DecimalPos.Unsigned.to_uint_nonnil p))
    as (Ht & Hu & Hd & Hn).
  rewrite parseNumber_unfold. unfold Number_parseInt, integer_read.
  rewrite (trimStart_spaces _ _ Hws), Ht, Hu, Hd, Hn.
  rewrite (digits_value_uint _ _ Hrest), DecimalPos.Unsigned.of_to.
  change (Z.of_N (N.pos p)) with (Zpos p).
  unfold to_double.
  assert (Hbits : (Z.log2 (Z.abs (Zpos p)) + 1 <=? 53)%Z = true).
  { apply Z.leb_le. simpl Z.abs.
    assert (Z.log2 (Zpos p) < 53)%Z by (apply Z.log2_lt_pow2; lia). lia. }
  rewrite Hbits. reflexivity.
Qed.

(** ** The review command and the scan, once more *)

Section ReviewResult.

Context {Num : Numbers} {RT : Runtime} {W : World}.

Lemma extractReviewJson_returns_object (fuel : nat) (output : jsstring) (v : value) :
  extractReviewJson fuel output = Ret v ->
  is_object v = true /\ has_property (js "findings") v = true.
Proof.
  unfold extractReviewJson. intros Hrun.
  destruct (trim output) as [|c t] eqn:Et; [discriminate Hrun|].
  simpl str_falsy in Hrun. cbv iota in Hrun.
  rewrite lastIndexOf_whole in Hrun by discriminate.
  destruct (@scan_sound _ (c :: t) v fuel (length (c :: t) - 1)) as (i & _ & _ & Hc & _).
  - simpl. lia.
  - intros j Hj Hbj. exfalso.
    assert (Hlen : (length (c :: t) <= j)%nat) by (simpl in *; lia).
    rewrite nth_overflow in Hbj by exact Hlen. discriminate Hbj.
  - exact Hrun.
  - now destruct (@candidate_accepts _ _ _ Hc) as (_ & Ho & Hf).
Qed.

(** X18.  What [runReviewCommand] returns is an object with a
    [findings] key, whatever the provider answered: the first test of
    [isFindingsEmpty], for a value that is no object, never fails on a
    result of the review command. *)
Theorem runReviewCommand_returns_findings_object
  (fuel : nat) (root : jsstring) (h : history) (v : value) (h' : history) :
  runReviewCommand fuel root h = (Ret v, h') ->
  is_object v = true
  /\ has_property (js "findings") v = true
  /\ isFindingsEmpty v <> Throw (Error (js "Review JSON was not an object.")).
Proof.
  intros E. unfold runReviewCommand in E.
  apply bind_ret_inv in E as (instance & h0 & _ & E).
  apply try_finally_ret_inv in E as (h1 & E & _).
  unfold runReviewCommand_body in E.
  apply bind_ret_inv in E as (session & hA & _ & E).
  apply bind_ret_inv in E as (sessionID & hB & _ & E).
  apply bind_ret_inv in E as (commandResult & hC & _ & E).
  apply bind_ret_inv in E as ([] & hD & _ & E).
  apply bind_ret_inv in E as (parts & hE & _ & E).
  destruct (str_falsy (trim (collectCommandOutput parts))); [discriminate E|].
  unfold lift in E. inversion E as [[Hv Hh]].
  destruct (extractReviewJson_returns_object _ _ _ Hv) as [Ho Hf].
  split; [exact Ho|]. split; [exact Hf|].
  unfold isFindingsEmpty. rewrite object_test, Ho. simpl negb. cbv iota.
  destruct (negb (isArray (get v (js "findings")))); discriminate.
Qed.

(** X19.  When [isFindingsEmpty] returns, the [findings] of the value
    are an array: the answer says whether it is empty, and the count
    that the review loop logs is its length.  So the alternative
    ["unknown"] of the count is never logged. *)
Theorem isFindingsEmpty_returns_known_count (v : value) (empty : bool) :
  isFindingsEmpty v = Ret empty ->
  exists items,
    get v (js "findings") = VArr items
    /\ empty = match items with [] => true | _ :: _ => false end
    /\ findings_count v = string_of_Z (Z.of_nat (length items))
    /\ findings_count v <> js "unknown".
Proof.
  unfold isFindingsEmpty, findings_count.
  destruct (negb (truthy v) || negb (is_typeof v "object")); [discriminate|].
  destruct (get v (js "findings")) as [| |b|n|s|items|props|m|r x]; try discriminate.
  simpl. intros [= <-]. exists items. split; [reflexivity|].
  split; [now destruct items|]. split; [reflexivity|].
  unfold string_of_Z. destruct (Z.of_nat (length items)) as [|p|p]; simpl.
  - discriminate.
  - pose proof (DecimalPos.Unsigned.to_uint_nonnil p) as Hn.
    destruct (Pos.to_uint p); [contradiction|..]; discriminate.
  - discriminate.
Qed.

End ReviewResult.

Section ScanEnds.

Context {Num : Numbers}.

(** Among the braces at or below a position of which one starts an
    accepted text, one is the rightmost to do so. *)
Lemma rightmost_accepted (s : jsstring) (k : nat) :
  (exists i, (i <= k)%nat /\ nth i s 0%N = brace
             /\ candidate (slice s (Z.of_nat i) None) <> None) ->
  exists p obj, (p <= k)%nat /\ nth p s 0%N = brace
    /\ candidate (slice s (Z.of_nat p) None) = Some obj
    /\ forall r, (p < r <= k)%nat -> nth r s 0%N = brace ->
                 candidate (slice s (Z.of_nat r) None) = None.
Proof.
  induction k as [|k IH]; intros (i & Hi & Hb & Hc).
  - assert (i = 0)%nat by lia. subst i.
    destruct (candidate (slice s (Z.of_nat 0) None)) as [obj|] eqn:E; [|contradiction].
    exists 0%nat, obj. split; [lia|]. split; [exact Hb|]. split; [exact E|].
    intros r Hr. lia.
  - assert (Hbelow : forall q obj,
              (q <= k)%nat -> nth q s 0%N = brace ->
              candidate (slice s (Z.of_nat q) None) = Some obj ->
              (forall r, (q < r <= k)%nat -> nth r s 0%N = brace ->
                         candidate (slice s (Z.of_nat r) None) = None) ->
              (nth (S k) s 0%N = brace ->
               candidate (slice s (Z.of_nat (S k)) None) = None) ->
              exists p obj', (p <= S k)%nat /\ nth p s 0%N = brace
                /\ candidate (slice s (Z.of_nat p) None) = Some obj'
                /\ forall r, (p < r <= S k)%nat -> nth r s 0%N = brace ->
                             candidate (slice s (Z.of_nat r) None) = None).
    { intros q obj Hq Hqb Hqc Hrej Htop. exists q, obj.
      split; [lia|]. split; [exact Hqb|]. split; [exact Hqc|].
      intros r Hr Hrb. destruct (Nat.eq_dec r (S k)) as [->|Hne]; [now apply Htop|].
      apply Hrej; [lia|exact Hrb]. }
    destruct (N.eq_dec (nth (S k) s 0%N) brace) as [Hk|Hk].
    + destruct (candidate (slice s (Z.of_nat (S k)) None)) as [obj|] eqn:E.
      * exists (S k), obj. split; [lia|]. split; [exact Hk|]. split; [exact E|].
        intros r Hr. lia.
      * destruct IH as (p & obj & Hp & Hpb & Hpc & Hrej).
        { exists i. split; [|split; [exact Hb|exact Hc]].
          destruct (Nat.eq_dec i (S k)) as [->|Hne]; [now rewrite E in Hc|lia]. }
        apply (Hbelow p obj Hp Hpb Hpc Hrej). intros _. reflexivity.
    + destruct IH as (p & obj & Hp & Hpb & Hpc & Hrej).
      { exists i. split; [|split; [exact Hb|exact Hc]].
        destruct (Nat.eq_dec i (S k)) as [->|Hne]; [contradiction|lia]. }
      apply (Hbelow p obj Hp Hpb Hpc Hrej). intros Hb'. contradiction.
Qed.

(** X20.  [extractReviewJson] ends whenever the trimmed output does
    not begin with a brace, and whenever some brace of it starts a text
    that the scan accepts: with fuel beyond the length of the trimmed
    output the answer, a return or a throw, no longer depends on the
    fuel.  (In the one case left, a trimmed output that begins with a
    brace and holds no accepted text, it never ends.) *)
Theorem extractReviewJson_ends (output : jsstring) :
  (forall rest, trim output <> brace :: rest)
  \/ (exists i, nth i (trim output) 0%N = brace
                /\ candidate (slice (trim output) (Z.of_nat i) None) <> None) ->
  exists o, o <> Diverge
    /\ forall fuel, (length (trim output) < fuel)%nat ->
       extractReviewJson fuel output = o.
Proof.
  intros Hcase.
  assert (Hdec : (exists i, nth i (trim output) 0%N = brace
                   /\ candidate (slice (trim output) (Z.of_nat i) None) <> None)
                 \/ ((forall i, nth i (trim output) 0%N = brace ->
                        candidate (slice (trim output) (Z.of_nat i) None) = None)
                     /\ forall rest, trim output <> brace :: rest)).
  { destruct Hcase as [Hstart|Hacc]; [|now left].
    assert (Hall : forall k,
              (exists i, (i <= k)%nat /\ nth i (trim output) 0%N = brace
                 /\ candidate (slice (trim output) (Z.of_nat i) None) <> None)
              \/ forall i, (i <= k)%nat -> nth i (trim output) 0%N = brace ->
                   candidate (slice (trim output) (Z.of_nat i) None) = None).
    { induction k as [|k [IH|IH]].
      - destruct (candidate (slice (trim output) (Z.of_nat 0) None)) eqn:E.
        + destruct (N.eq_dec (nth 0 (trim output) 0%N) brace) as [Hb|Hb].
          * left. exists 0%nat. split; [lia|]. split; [exact Hb|now rewrite E].
          * right. intros i Hi Hib. replace i with 0%nat in Hib by lia. contradiction.
        + right. intros i Hi _. now replace i with 0%nat by lia.
      - left. destruct IH as (i & Hi & H'). exists i. split; [lia|exact H'].
      - destruct (candidate (slice (trim output) (Z.of_nat (S k)) None)) eqn:E.
        + destruct (N.eq_dec (nth (S k) (trim output) 0%N) brace) as [Hb|Hb].
          * left. exists (S k). split; [lia|]. split; [exact Hb|now rewrite E].
          * right. intros i Hi Hib.
            destruct (Nat.eq_dec i (S k)) as [->|Hne]; [contradiction|].
            apply IH; [lia|exact Hib].
        + right. intros i Hi Hib.
          destruct (Nat.eq_dec i (S k)) as [->|Hne]; [exact E|].
          apply IH; [lia|exact Hib]. }
    destruct (Hall (length (trim output))) as [(i & _ & Hi)|Hnone].
    - left. now exists i.
    - right. split; [|exact Hstart]. intros i Hib. apply Hnone; [|exact Hib].
      destruct (Nat.le_gt_cases i (length (trim output))) as [Hl|Hl]; [exact Hl|].
      rewrite nth_overflow in Hib by lia. discriminate Hib. }
  destruct Hdec as [(i & Hib & Hic)|[Hnone Hstart]].
  - assert (Hi : (i < length (trim output))%nat).
    { destruct (Nat.lt_ge_cases i (length (trim output))) as [Hl|Hl]; [exact Hl|].
      rewrite nth_overflow in Hib by exact Hl. discriminate Hib. }
    destruct (rightmost_accepted (trim output) (length (trim output)))
      as (p & obj & Hp & Hpb & Hpc & Hrej).
    { exists i. split; [lia|]. split; [exact Hib|exact Hic]. }
    exists (Ret obj). split; [discriminate|]. intros fuel Hfuel.
    apply extractReviewJson_rightmost with (p := p); [exact Hpb|exact Hpc| |lia].
    intros r Hr Hrb. apply Hrej; [|exact Hrb]. split; [exact Hr|].
    destruct (Nat.le_gt_cases r (length (trim output))) as [Hl|Hl]; [exact Hl|].
    rewrite nth_overflow in Hrb by lia. discriminate Hrb.
  - destruct (trim output) as [|c t] eqn:Et.
    + exists (Throw (Error (js "Review command produced no output."))).
      split; [discriminate|]. intros fuel _. now apply extractReviewJson_empty.
    + exists (Throw (Error (js "Failed to parse review JSON from command output."))).
      split; [discriminate|]. intros fuel Hfuel.
      apply extractReviewJson_parse_failure with (c := c) (t := t).
      * exact Et.
      * intros ->. now apply (Hstart t).
      * rewrite Et. exact Hnone.
      * rewrite Et. exact Hfuel.
Qed.

End ScanEnds.

(* ================================================================== *)
(** * Part III. Concrete runs                                          *)
(* ================================================================== *)

(** ** [parseNumber] *)

(** A negative value gives the fallback. *)
Lemma parseNumber_fallback_witness :
  parseNumber (Some (js "-5")) 20 = 20%Z.
Proof.
  apply (proj1 (proj2 (proj2 (proj2 (parseNumber_fallback (Some (js "-5")) 20))))
           (js "-5") (-5)%Z eq_refl eq_refl).
  lia.
Defined.

(** ** [parseModelSpec] *)

(** C7, as stated, fails: the halves of [" a/b"] are [" a"] and ["b"],
    and [parseModelSpec] answers ["a"] and ["b"]. *)
Lemma parseModelSpec_not_the_halves :
  spec_parseModelSpec (js " a/b")
    = Some {| providerID := js " a"; modelID := js "b" |}
  /\ parseModelSpec (js " a/b")
    = Ret {| providerID := js "a"; modelID := js "b" |}
  /\ parseModelSpec (js " a/b")
    <> Ret {| providerID := js " a"; modelID := js "b" |}.
Proof. repeat split. discriminate. Qed.

(** White space around the halves is dropped. *)
Lemma parseModelSpec_trimmed_halves_witness :
  parseModelSpec (js " a / b")
  = Ret {| providerID := js "a"; modelID := js "b" |}.
Proof.
  destruct (parseModelSpec_trimmed_halves (js " a / b")) as (_ & H & _).
  destruct (H (js " a ") (js " b") eq_refl) as (_ & _ & H3).
  - simpl. intros Hin. repeat (destruct Hin as [Hin|Hin]; [discriminate Hin|]).
    exact Hin.
  - apply H3; discriminate.
Defined.

(** ** The checklist predicate *)

(** C3, as stated, fails: in a plan with a bullet marker on one line
    and [[ ]] on the next, no line matches the unchecked-bullet pattern,
    yet [hasUnfinishedTasks] returns true; and in a plan whose bracket
    pair holds two spaces, a line matches, the pair holding only white
    space, yet [hasUnfinishedTasks] returns false. *)
Lemma hasUnfinishedTasks_not_line_by_line :
  (hasUnfinishedTasks (W := scripted_world two_line_plan) (js "PLAN.md") []
   = (Ret true, [ReadFile (js "PLAN.md")])
   /\ spec_hasUnfinishedTasks (plan_script two_line_plan) = false)
  /\ (hasUnfinishedTasks (W := scripted_world wide_bracket_plan) (js "PLAN.md") []
      = (Ret false, [ReadFile (js "PLAN.md")])
      /\ spec_hasUnfinishedTasks (plan_script wide_bracket_plan) = true).
Proof. repeat split. Qed.

(** An open task under a finished one is found. *)
Lemma hasUnfinishedTasks_iff_witness :
  hasUnfinishedTasks (W := scripted_world open_task_plan) (js "PLAN.md") []
  = (Ret true, [ReadFile (js "PLAN.md")]).
Proof.
  destruct (@hasUnfinishedTasks_iff _ (scripted_world open_task_plan)
              (js "PLAN.md") [] (plan_script open_task_plan) eq_refl)
    as (Hrun & Hiff & _).
  rewrite Hrun. rewrite (proj2 Hiff); [reflexivity|].
  exists (js "- [x] done" ++ [10%N]), (js "  + [ ] next"). split; [reflexivity|].
  split.
  - right. exists (js "- [x] done"), 10%N. split; reflexivity.
  - exists (js "  "), 43%N, (js " "), 32%N, (js " next").
    repeat split; discriminate.
Defined.

(** ** [isFindingsEmpty] *)

Example isFindingsEmpty_examples :
  isFindingsEmpty (VObj [(js "findings", VArr [])]) = Ret true
  /\ isFindingsEmpty (VObj [(js "findings", VArr [VObj []])]) = Ret false
  /\ isFindingsEmpty (VObj []) = Throw (Error (js "Review JSON is missing a findings array."))
  /\ isFindingsEmpty (VArr []) = Throw (Error (js "Review JSON is missing a findings array."))
  /\ isFindingsEmpty VNull = Throw (Error (js "Review JSON was not an object."))
  /\ isFindingsEmpty (VStr (js "findings")) = Throw (Error (js "Review JSON was not an object.")).
Proof. repeat split. Qed.

(** An object without [findings] is refused. *)
Lemma isFindingsEmpty_spec_witness :
  isFindingsEmpty (VObj [(js "status", VStr (js "ok"))])
  = Throw (Error (js "Review JSON is missing a findings array.")).
Proof.
  apply (proj1 (proj2 (proj2 (isFindingsEmpty_spec _))) _ eq_refl). reflexivity.
Defined.

(** ** [unwrap] *)

Example unwrap_examples :
  unwrap (VObj [(js "data", VStr (js "d"))]) (js "call") = Ret (VStr (js "d"))
  /\ unwrap (VObj [(js "data", VUndefined); (js "error", VStr (js "boom"))]) (js "call")
     = Throw (Error (js "call failed: ..."))
  /\ unwrap (VObj [(js "error", VStr (js "boom"))]) (js "call")
     = Ret (VObj [(js "error", VStr (js "boom"))])
  /\ unwrap (VPromise false (VObj [(js "data", VUndefined); (js "error", VStr (js "boom"))]))
       (js "call")
     = Ret (VPromise false (VObj [(js "data", VUndefined); (js "error", VStr (js "boom"))])).
Proof. repeat split. Qed.

(** ** [extractReviewJson] *)

Example extractReviewJson_examples :
  extractReviewJson 10 (jq "prose {'findings':[]}") = Ret (VObj [(js "findings", VArr [])])
  /\ extractReviewJson 10 (js "no braces here")
     = Throw (Error (js "Failed to parse review JSON from command output."))
  /\ extractReviewJson 10 (js "   ")
     = Throw (Error (js "Review command produced no output."))
  /\ extractReviewJson 10 (jq "see { and {'findings':[{'id':1}]} ")
     = Ret (VObj [(js "findings", VArr [VObj [(js "id", VNum (js "1"))]])]).
Proof. repeat split. Qed.

(** An unmatched brace in the prose does no harm. *)
Lemma extractReviewJson_final_object_witness :
  extractReviewJson 16 (jq "unmatched { in prose {'findings':[]}")
  = Ret (VObj [(js "findings", VArr [])]).
Proof.
  apply (@extractReviewJson_final_object _ _ (js "unmatched { in prose ")
           (jq "'findings':[]}")).
  - reflexivity.
  - reflexivity.
  - reflexivity.
  - simpl. lia.
Defined.

(** On [{}], a thousand rounds of the loop give no answer. *)
Lemma extractReviewJson_never_returns_witness :
  extractReviewJson 1000 (js "{}") = Diverge.
Proof.
  apply (@extractReviewJson_never_returns _ (js "{}") (js "}")).
  - reflexivity.
  - intros [|[|[|i]]] H; try discriminate H; reflexivity.
Defined.

(** ** The status poller *)


(** ** Disposal and the review command *)

(** The review is clean and the disposal fails: the result is
    returned, the failure only logged. *)
Lemma runReviewCommand_disposes_witness :
  runReviewCommand (W := scripted_world failing_dispose) 5 (js "/repo") []
  = (Ret (VObj [(js "findings", VArr [])]),
     [ ServerClose 1;
       Log (js "[orchestrator] Instance dispose failed: connection reset");
       InstanceDispose 1 (js "/repo");
       SessionStatus 1 (js "/repo"); DateNow; DateNow;
       SessionCommand 1 (js "ses_1") (js "/repo") (js "review-uncommited") []
         (js "build-gpt-5.2-codex") (js "github-copilot/gpt-5.2-codex");
       SessionCreate 1 (js "/repo") (js "Review");
       CreateOpencode (buildConfig DEFAULT_MODEL) ]).
Proof.
  refine (proj1 (proj2 (@runReviewCommand_disposes _ _ (scripted_world failing_dispose)
            5 (js "/repo") [] 1 _ _ eq_refl eq_refl _ _)) (envelope VUndefined) eq_refl).
  - discriminate.
  - discriminate.
Defined.

(** ** The review convergence loop *)

(** One finding at the first two reviews, none at the third: three
    review commands and two fix prompts. *)
Lemma runReviewLoop_counts_witness :
  let run := runReviewLoop (W := scripted_world converging_reviews)
               5 0 (js "ses_1") (js "/repo") [] in
  fst run = Ret tt
  /\ count_events is_review_command (snd run) = 3%nat
  /\ count_events (is_prompt_to 0 (js "ses_1")) (snd run) = 2%nat.
Proof.
  destruct (@runReviewLoop_counts _ _ (scripted_world converging_reviews)
              5 0 (js "ses_1") (js "/repo") []) as (_ & H & _).
  edestruct (H 3%nat) as (E & C1 & C2).
  - change (Z.to_nat max_review_iterations) with 20%nat. lia.
  - eapply fix_rounds_more;
      [vm_compute; reflexivity|reflexivity|vm_compute; reflexivity
      |vm_compute; reflexivity|].
    eapply fix_rounds_more;
      [vm_compute; reflexivity|reflexivity|vm_compute; reflexivity
      |vm_compute; reflexivity|].
    apply fix_rounds_none.
  - vm_compute; reflexivity.
  - reflexivity.
  - cbv zeta. rewrite E. repeat split; assumption.
Defined.

(** The limit is three and every review has a finding: the loop gives
    up after three review commands. *)
Example runReviewLoop_exceeded_example :
  let run := runReviewLoop (W := scripted_world stubborn_reviews)
               5 0 (js "ses_1") (js "/repo") [] in
  fst run = Throw (Error (js "Review loop exceeded 3 iterations without clean results."))
  /\ count_events is_review_command (snd run) = 3%nat
  /\ count_events (is_prompt_to 0 (js "ses_1")) (snd run) = 3%nat.
Proof. vm_compute. repeat split. Qed.

(** The review command prints nothing and the disposal fails: the
    empty output is the error thrown, after the disposal was asked, its
    failure logged and the server closed. *)
Example runReviewCommand_throwing_example :
  runReviewCommand (W := scripted_world silent_review) 5 (js "/repo") []
  = (Throw (Error (js "Review command produced no output.")),
     [ ServerClose 1;
       Log (js "[orchestrator] Instance dispose failed: connection reset");
       InstanceDispose 1 (js "/repo");
       SessionStatus 1 (js "/repo"); DateNow; DateNow;
       SessionCommand 1 (js "ses_1") (js "/repo") (js "review-uncommited") []
         (js "build-gpt-5.2-codex") (js "github-copilot/gpt-5.2-codex");
       SessionCreate 1 (js "/repo") (js "Review");
       CreateOpencode (buildConfig DEFAULT_MODEL) ]).
Proof. reflexivity. Qed.

(** ** Further concrete runs *)

(** The session under [data], as in an envelope that was not opened. *)
Lemma extractSessionID_needs_top_level_key_witness :
  extractSessionID (VObj [(js "data", VObj [(js "id", VStr (js "ses_1"))])])
    (js "session.create (work instance)")
  = Throw (Error (js "session.create (work instance)"
                    ++ js " returned a session without an id. Response: "
                    ++ safeStringify
                         (VObj [(js "data", VObj [(js "id", VStr (js "ses_1"))])]))).
Proof.
  apply (@extractSessionID_needs_top_level_key lexeme_numbers ellipsis_runtime
           [(js "data", VObj [(js "id", VStr (js "ses_1"))])]
           (js "session.create (work instance)")); reflexivity.
Defined.

Example extractSessionID_examples :
  extractSessionID (VObj [(js "id", VStr (js " ses_1 "))]) (js "call") = Ret (js " ses_1 ")
  /\ extractSessionID (VObj [(js "id", VStr (js "  "));
                            (js "info", VObj [(js "id", VStr (js "ses_2"))]);
                            (js "slug", VStr (js "calm-river"))]) (js "call")
     = Ret (js "ses_2")
  /\ extractSessionID (VStr (js "ses_1")) (js "call")
     = Throw (Error (js "call did not return a session object.")).
Proof. repeat split. Qed.

(** The object after the prose, found from the brace at position 10. *)
Lemma extractReviewJson_sound_witness :
  exists i, (i < length (trim (jq "see { and {'findings':[]} ")))%nat
    /\ nth i (trim (jq "see { and {'findings':[]} ")) 0%N = brace
    /\ JSON_parse (trim (skipn i (trim (jq "see { and {'findings':[]} "))))
       = Some (VObj [(js "findings", VArr [])])
    /\ is_object (VObj [(js "findings", VArr [])]) = true
    /\ has_property (js "findings") (VObj [(js "findings", VArr [])]) = true
    /\ forall j, (i < j)%nat ->
         nth j (trim (jq "see { and {'findings':[]} ")) 0%N = brace ->
         candidate (skipn j (trim (jq "see { and {'findings':[]} "))) = None.
Proof.
  apply (@extractReviewJson_sound lexeme_numbers 10 (jq "see { and {'findings':[]} ")
           (VObj [(js "findings", VArr [])])).
  reflexivity.
Defined.

(** The answer to a spec with white space around its halves, written
    out again with a slash, parses to itself. *)
Lemma parseModelSpec_round_trip_witness :
  parseModelSpec (js "github-copilot/gpt-5-mini")
  = Ret {| providerID := js "github-copilot"; modelID := js "gpt-5-mini" |}.
Proof.
  apply (proj1 (@parseModelSpec_round_trip lexeme_numbers
                  (js " github-copilot / gpt-5-mini ")
                  {| providerID := js "github-copilot"; modelID := js "gpt-5-mini" |}
                  eq_refl)).
Defined.

(** A short JSON text is answered as it is. *)
Lemma safeStringify_bounded_witness :
  safeStringify VNull = js "...".
Proof.
  apply (proj1 (proj2 (proj2 (@safeStringify_bounded lexeme_numbers ellipsis_runtime
                                VNull (js "...") eq_refl ltac:(discriminate))))).
  simpl. lia.
Defined.


(** The envelope comes back whole, its error unnoticed. *)
Lemma await_unwrap_promise_witness :
  await_unwrap (W := promising_world) (SessionCreate 1 (js "/repo") (js "Review"))
    "session.create" []
  = (Ret failed_envelope, [SessionCreate 1 (js "/repo") (js "Review")]).
Proof.
  apply (@await_unwrap_promise lexeme_numbers ellipsis_runtime promising_world
           (SessionCreate 1 (js "/repo") (js "Review")) "session.create" []
           failed_envelope eq_refl).
  discriminate.
Defined.

(** The session is idle at the first poll. *)
Lemma waitForSessionIdle_outcomes_witness :
  exists hp statusMap,
    [SessionStatus 1 (js "/repo"); DateNow; DateNow]
    = SessionStatus 1 (js "/repo") :: DateNow :: hp
    /\ (clock (World := scripted_world converging_reviews) hp
        - clock (World := scripted_world converging_reviews) [] < 7200000)%Z
    /\ status_answer (W := scripted_world converging_reviews) 1 (js "/repo") hp
       = Ret statusMap
    /\ truthy (get_opt statusMap (js "ses_1")) = true
    /\ get (get_opt statusMap (js "ses_1")) (js "type") = VStr (js "idle").
Proof.
  exact (@waitForSessionIdle_outcomes lexeme_numbers ellipsis_runtime
           (scripted_world converging_reviews) 5 1 (js "ses_1") (js "/repo") None [] (Ret tt)
           [SessionStatus 1 (js "/repo"); DateNow; DateNow] eq_refl).
Defined.

(** A timeout of five seconds and an interval of one: the poller is
    over within six polls. *)
Lemma waitForSessionIdle_ends_witness :
  exists (o : result unit) (new : history),
    waitForSessionIdle (W := scripted_world patient_session)
      10 1 (js "ses_1") (js "/repo") (Some 5000%Z) [] = (o, new ++ [])
    /\ o <> Diverge
    /\ (count_events is_status_request new <= 6)%nat.
Proof.
  apply (@waitForSessionIdle_ends lexeme_numbers ellipsis_runtime
           (scripted_world patient_session) 10 1 (js "ses_1") (js "/repo") (Some 5000%Z) []).
  - intros e h. cbn [clock scripted_world length]. lia.
  - intros h. cbn [clock scripted_world length].
    replace (poll_interval (W := scripted_world patient_session)) with 1000%Z
      by reflexivity.
    lia.
  - intros h. discriminate.
  - vm_compute. lia.
Defined.

(** Nothing is a file: the first document is reported missing. *)
Lemma orchestrar_missing_document_witness :
  exists fileName,
    In fileName document_names
    /\ RequiredFileNotFound (js "PRD.md") (js "/repo/PRD.md") (js "/repo/docs/PRD.md")
       = RequiredFileNotFound fileName
           (path_join (Paths := plain_paths) [js "/repo"; fileName])
           (path_join (Paths := plain_paths) [js "/repo"; js "docs"; fileName])
    /\ orchestrar (W := scripted_world finished_plan) (P := plain_paths)
         (H := scripted_host []) 5
       = (Throw (RequiredFileNotFound (js "PRD.md") (js "/repo/PRD.md")
                   (js "/repo/docs/PRD.md")),
          {| stderr := [js "[orchestrator] Failed: Required file not found: "
                          ++ fileName ++ js " (checked "
                          ++ path_join (Paths := plain_paths) [js "/repo"; fileName]
                          ++ js " and "
                          ++ path_join (Paths := plain_paths)
                               [js "/repo"; js "docs"; fileName]
                          ++ js ")."];
             exitCode := Some 1%Z;
             steps := [FsStat (js "/repo/docs/PRD.md"); FsStat (js "/repo/PRD.md")];
             events := [] |}).
Proof.
  apply (@orchestrar_missing_document lexeme_numbers ellipsis_runtime
           (scripted_world finished_plan) plain_paths (scripted_host []) 5 (js "/repo")
           (RequiredFileNotFound (js "PRD.md") (js "/repo/PRD.md") (js "/repo/docs/PRD.md"))
           [FsStat (js "/repo/docs/PRD.md"); FsStat (js "/repo/PRD.md")]);
    reflexivity.
Defined.

(** The plan, found in [docs/], has nothing left to do. *)
Lemma main_completes_on_checked_plan_witness :
  main (W := scripted_world finished_plan) (P := plain_paths)
    (H := scripted_host repo_files) 5 [] []
  = (Ret tt,
     [ ImportSdk;
       FsStat (js "/repo/docs/PLAN.md"); FsStat (js "/repo/PLAN.md");
       FsStat (js "/repo/SPEC.md"); FsStat (js "/repo/PRD.md") ],
     [ completed_line; ReadFile (js "/repo/docs/PLAN.md") ]).
Proof.
  apply (proj2 (@main_completes_on_checked_plan lexeme_numbers ellipsis_runtime
                  (scripted_world finished_plan) plain_paths (scripted_host repo_files) 5 [] [])
           (js "/repo")
           {| prd := js "/repo/PRD.md"; spec := js "/repo/SPEC.md";
              plan := js "/repo/docs/PLAN.md" |}
           [ FsStat (js "/repo/docs/PLAN.md"); FsStat (js "/repo/PLAN.md");
             FsStat (js "/repo/SPEC.md"); FsStat (js "/repo/PRD.md") ]
           (js "- [x] done"));
    try reflexivity.
  lia.
Defined.

Example resolveDocPath_examples :
  resolveDocPath (P := plain_paths) (H := scripted_host repo_files)
    (js "/repo") (js "PRD.md") []
  = (Ret (js "/repo/PRD.md"), [FsStat (js "/repo/PRD.md")])
  /\ resolveDocPath (P := plain_paths) (H := scripted_host repo_files)
       (js "/repo") (js "PLAN.md") []
     = (Ret (js "/repo/docs/PLAN.md"),
        [FsStat (js "/repo/docs/PLAN.md"); FsStat (js "/repo/PLAN.md")])
  /\ fst (resolveDocPath (P := plain_paths) (H := scripted_host repo_files)
            (js "/repo") (js "TODO.md") [])
     = Throw (Error (js "Required file not found: TODO.md"
                       ++ js " (checked /repo/TODO.md and /repo/docs/TODO.md).")).
Proof. repeat split. Qed.

(** *** One milestone, from the first reading of the plan to the last *)

(** The scripted provider numbers its instances. *)
Lemma opened_numbered (s : script) (h : history) (i : nat) :
  In i (opened (W := milestone_world s) h) ->
  (i <= count_events is_create_opencode h)%nat.
Proof.
  induction h as [|e h IH]; [intros []|].
  destruct e; try exact IH.
  cbn [opened open_instance milestone_world]. unfold count_events. simpl.
  intros [<-|Hin]; [lia|]. apply IH in Hin. unfold count_events in Hin. lia.
Qed.

Lemma milestone_world_fresh (s : script) : fresh_instances (W := milestone_world s).
Proof.
  intros h config i Hopen Hin. cbn [open_instance milestone_world] in Hopen.
  injection Hopen as <-. apply opened_numbered in Hin. lia.
Qed.

(** One finding at the first two reviews, none at the third, then the
    commit: five instances, none used after its server was closed. *)
Lemma main_never_uses_closed_instance_witness :
  let run := main (W := milestone_world converging_reviews) (P := plain_paths)
               (H := scripted_host repo_files) 30 [] [] in
  fst (fst run) = Ret tt
  /\ opened (W := milestone_world converging_reviews) (snd run) = [5; 4; 3; 2; 1]%nat
  /\ no_use_after_close (snd run)
  /\ only_opened_used (W := milestone_world converging_reviews) (snd run).
Proof.
  intros run. split; [vm_compute; reflexivity|]. split; [vm_compute; reflexivity|].
  apply (@main_never_uses_closed_instance lexeme_numbers ellipsis_runtime
           (milestone_world converging_reviews) plain_paths (scripted_host repo_files)
           30 [] (fst (fst run)) (snd (fst run)) (snd run)).
  - apply milestone_world_fresh.
  - subst run. match goal with |- ?m = _ => destruct m as [[o s'] h'] end.
    reflexivity.
Defined.

(** The same run: every one of its five instances is closed. *)
Lemma main_closes_every_instance_witness :
  let run := main (W := milestone_world converging_reviews) (P := plain_paths)
               (H := scripted_host repo_files) 30 [] [] in
  fst (fst run) = Ret tt
  /\ all_closed (W := milestone_world converging_reviews) (snd run).
Proof.
  intros run. split; [vm_compute; reflexivity|].
  apply (@main_closes_every_instance lexeme_numbers ellipsis_runtime
           (milestone_world converging_reviews)
           plain_paths (scripted_host repo_files) 30 []
           (Ret tt) (snd (fst run))).
  - vm_compute. reflexivity.
  - discriminate.
Defined.

(** The work instance of that run. *)
Lemma runWorkInstance_marks_after_clean_review_witness :
  let docs := {| prd := js "/repo/PRD.md"; spec := js "/repo/SPEC.md";
                 plan := js "/repo/docs/PLAN.md" |} in
  exists instance sessionID middle after,
    snd (runWorkInstance (W := milestone_world converging_reviews) (P := plain_paths)
           30 docs (js "/repo") [])
    = ServerClose instance :: after
        ++ mark_tasks_prompt (P := plain_paths) instance sessionID (js "/repo") docs
        :: clean_line
        :: middle
        ++ milestone_prompt (P := plain_paths) instance sessionID (js "/repo") docs
        :: SessionCreate instance (js "/repo") (js "Milestone Orchestrator")
        :: CreateOpencode (buildConfig DEFAULT_MODEL)
        :: []
    /\ count_events is_prompt after = 0%nat.
Proof.
  intros docs.
  apply (@runWorkInstance_marks_after_clean_review lexeme_numbers ellipsis_runtime
           (milestone_world converging_reviews) plain_paths
           30 docs (js "/repo") []).
  vm_compute. reflexivity.
Defined.

(** A commit instance on its own. *)
Lemma runCommitInstance_sends_commit_prompt_witness :
  exists instance sessionID after,
    snd (runCommitInstance (W := milestone_world converging_reviews) 30 (js "/repo") [])
    = ServerClose instance :: after
        ++ commit_prompt instance sessionID (js "/repo")
        :: SessionCreate instance (js "/repo") (js "Commit & Push")
        :: CreateOpencode (buildConfig COMMIT_MODEL)
        :: []
    /\ count_events is_prompt after = 0%nat.
Proof.
  apply (@runCommitInstance_sends_commit_prompt lexeme_numbers ellipsis_runtime
           (milestone_world converging_reviews) 30 (js "/repo") []).
  vm_compute. reflexivity.
Defined.

(** A timeout written with its unit: the digits are read. *)
Lemma parseNumber_reads_decimal_witness :
  parseNumber (Some (js " 3600000ms")) 20 = 3600000%Z.
Proof.
  apply (parseNumber_reads_decimal 3600000 20 (js " ") (js "ms")).
  - split; [lia|reflexivity].
  - reflexivity.
  - reflexivity.
Defined.

(** The first review of the scripted provider: an object with one
    finding. *)
Lemma runReviewCommand_returns_findings_object_witness :
  let run := runReviewCommand (W := scripted_world converging_reviews) 5 (js "/repo") [] in
  let review := VObj [(js "findings", VArr [VObj [(js "title", VStr (js "missing test"))]])] in
  fst run = Ret review
  /\ is_object review = true
  /\ has_property (js "findings") review = true
  /\ isFindingsEmpty review <> Throw (Error (js "Review JSON was not an object.")).
Proof.
  intros run review. split; [vm_compute; reflexivity|].
  apply (@runReviewCommand_returns_findings_object lexeme_numbers ellipsis_runtime
           (scripted_world converging_reviews) 5 (js "/repo") [] review (snd run)).
  vm_compute. reflexivity.
Defined.

(** Two findings are counted as two. *)
Lemma isFindingsEmpty_returns_known_count_witness :
  exists items,
    get (VObj [(js "findings", VArr [VNull; VNull])]) (js "findings") = VArr items
    /\ false = match items with [] => true | _ :: _ => false end
    /\ findings_count (VObj [(js "findings", VArr [VNull; VNull])])
       = string_of_Z (Z.of_nat (length items))
    /\ findings_count (VObj [(js "findings", VArr [VNull; VNull])]) <> js "unknown".
Proof.
  apply (@isFindingsEmpty_returns_known_count lexeme_numbers
           (VObj [(js "findings", VArr [VNull; VNull])]) false).
  reflexivity.
Defined.

(** Prose before the object: with fuel beyond the length of the output
    the answer no longer depends on the fuel. *)
Lemma extractReviewJson_ends_witness :
  exists o, o <> Diverge
    /\ forall fuel, (length (trim (jq "see { and {'findings':[]} ")) < fuel)%nat ->
       extractReviewJson fuel (jq "see { and {'findings':[]} ") = o.
Proof.
  apply (@extractReviewJson_ends lexeme_numbers (jq "see { and {'findings':[]} ")).
  left. intros rest. discriminate.
Defined.

